(** * project-iris: monitor, change detector and durable store

    A shallow embedding of [src/scraper.py] (handle normalisation, the
    extraction of a profile from the page's JSON payload), [src/storage.py]
    (the SQLite-backed [MonitorStore]), [src/monitor.py] (change detection,
    [check_account], [run_once]) and [src/app.py] (the dashboard actions that
    touch the store, the settings, the list endpoints and the dashboard's
    context), followed by the properties of the specification that were
    checked against them and by further properties of the code.

    Conventions.
    - A Python [str] is a [string]; a character stands for the code point of
      the same number (0..255), and the character predicates below are
      CPython's on that range.
    - A value held in a profile or row dictionary is a [Py.value]: [None], a
      [bool], an [int] or a [str], the types the fetcher contract and the
      table columns give to the tracked fields; floats and containers are
      not modelled there. What [json.loads] builds is a [Payload.json],
      with floats kept abstract.
    - Raised exceptions are returned: fallible code lives in [Py.result].
    - A store method returns, with its result, the durable states it
      committed, so that what another connection can observe is explicit.
    - The clock and the remote profile fetch are oracles of the environment
      ([Monitor.Env]), indexed by the number of calls made so far; where the
      fetch itself is modelled, [Fetcher.get] and [json.loads] are
      parameters.
    - The service is modelled as one thread of control: the background
      thread of [start], [stop] and [_run_loop] is not. *)

From Stdlib Require Import ZArith Ascii String.
From stdpp Require Import gmap strings list pretty sorting.

Local Open Scope Z_scope.
Local Open Scope string_scope.

(** ** Python values and the builtins the sources use *)

Module Py.

Inductive value : Type :=
| VNone
| VBool (b : bool)
| VInt (z : Z)
| VStr (s : string).

(** Exceptions by class; [str(exc)] is [exn_str], the class name
    [exc.__class__.__name__] is [exn_class]. *)
Inductive exn : Type :=
| TikTokScrapeError (msg : string)
| TypeError (msg : string)
| ValueError (msg : string)
| KeyError (key : string)
| OverflowError (msg : string)
| OtherException (cls msg : string).

Definition exn_class (e : exn) : string :=
  match e with
  | TikTokScrapeError _ => "TikTokScrapeError"
  | TypeError _ => "TypeError"
  | ValueError _ => "ValueError"
  | KeyError _ => "KeyError"
  | OverflowError _ => "OverflowError"
  | OtherException cls _ => cls
  end.

Definition exn_str (e : exn) : string :=
  match e with
  | TikTokScrapeError m | TypeError m | ValueError m
  | OverflowError m | OtherException _ m => m
  | KeyError k => "'" ++ k ++ "'"
  end.

Inductive result (A : Type) : Type :=
| Ok (a : A)
| Raise (e : exn).
Arguments Ok {A} a.
Arguments Raise {A} e.

Definition bind {A B} (r : result A) (k : A → result B) : result B :=
  match r with
  | Ok a => k a
  | Raise e => Raise e
  end.

Definition code (c : ascii) : N := N_of_ascii c.

Definition in_range (lo hi : N) (c : ascii) : bool :=
  ((lo <=? code c) && (code c <=? hi))%N.

(** [str.isspace] per character, the set [str.strip()] removes. *)
Definition is_space (c : ascii) : bool :=
  in_range 9 13 c || in_range 28 32 c
  || (code c =? 133)%N || (code c =? 160)%N.

(** The blanks [int(str)] skips at either end: the file, group, record and
    unit separators (28..31) are [isspace] but are not skipped there. *)
Definition is_int_space (c : ascii) : bool :=
  in_range 9 13 c || (code c =? 32)%N
  || (code c =? 133)%N || (code c =? 160)%N.

Definition is_upper (c : ascii) : bool :=
  in_range 65 90 c || (in_range 192 222 c && negb (code c =? 215)%N).

Definition lower_char (c : ascii) : ascii :=
  if is_upper c then ascii_of_N (code c + 32) else c.

Fixpoint lower (s : string) : string :=
  match s with
  | "" => ""
  | String c r => String (lower_char c) (lower r)
  end.

Fixpoint lstrip_by (p : ascii → bool) (s : string) : string :=
  match s with
  | "" => ""
  | String c r => if p c then lstrip_by p r else s
  end.

Fixpoint rstrip_by (p : ascii → bool) (s : string) : string :=
  match s with
  | "" => ""
  | String c r =>
      match rstrip_by p r with
      | "" => if p c then "" else String c ""
      | r' => String c r'
      end
  end.

Definition strip_by (p : ascii → bool) (s : string) : string :=
  rstrip_by p (lstrip_by p s).

(** [s.strip()] *)
Definition strip : string → string := strip_by is_space.

(** [s.lstrip(chars)] *)
Definition lstrip (chars : list ascii) : string → string :=
  lstrip_by (λ c, bool_decide (c ∈ chars)).

Definition is_digit (c : ascii) : bool := in_range 48 57 c.

Definition digit_val (c : ascii) : Z := Z.of_N (code c) - 48.

(** Digits of a base-10 [int] literal, single underscores allowed between
    digits only. [prev] tells whether the previous character was a digit. *)
Fixpoint int_digits (s : string) (acc : Z) (prev : bool) : option Z :=
  match s with
  | "" => if prev then Some acc else None
  | String c r =>
      if is_digit c then int_digits r (10 * acc + digit_val c) true
      else if (code c =? 95)%N && prev then int_digits r acc false
      else None
  end.

(** [int(s)] for a [str]: [None] stands for [ValueError]. (The interpreter's
    configurable cap on the number of digits is left out.) *)
Definition int_of_str (s : string) : option Z :=
  match strip_by is_int_space s with
  | String "+" r => int_digits r 0 false
  | String "-" r => Z.opp <$> int_digits r 0 false
  | r => int_digits r 0 false
  end.

(** [int(v)] *)
Definition int (v : value) : result Z :=
  match v with
  | VNone => Raise (TypeError "int() argument must be a string, a bytes-like object or a real number, not 'NoneType'")
  | VBool b => Ok (if b then 1 else 0)
  | VInt z => Ok z
  | VStr s =>
      match int_of_str s with
      | Some z => Ok z
      | None => Raise (ValueError "invalid literal for int() with base 10")
      end
  end.

(** [bool(v)] *)
Definition truthy (v : value) : bool :=
  match v with
  | VNone => false
  | VBool b => b
  | VInt z => negb (z =? 0)%Z
  | VStr s => negb (String.eqb s "")
  end.

(** [str(v)] *)
Definition str (v : value) : string :=
  match v with
  | VNone => "None"
  | VBool true => "True"
  | VBool false => "False"
  | VInt z => pretty z
  | VStr s => s
  end.

(** A [bool] is an [int] for [==]. *)
Definition as_number (v : value) : option Z :=
  match v with
  | VBool b => Some (if b then 1 else 0)
  | VInt z => Some z
  | _ => None
  end.

(** [a == b] *)
Definition eqb (a b : value) : bool :=
  match a, b with
  | VNone, VNone => true
  | VStr s, VStr t => String.eqb s t
  | _, _ =>
      match as_number a, as_number b with
      | Some x, Some y => (x =? y)%Z
      | _, _ => false
      end
  end.

(** [d.get(key)] on a [dict[str, Any]] *)
Definition get (d : gmap string value) (key : string) : value :=
  default VNone (d !! key).

(** [f"{z:+d}"] *)
Definition signed (z : Z) : string :=
  if (z <? 0)%Z then pretty z else "+" ++ pretty z.

End Py.

(** ** [scraper.py] *)

Module Scraper.
Import Py.

Definition is_handle_char (c : ascii) : bool :=
  in_range 65 90 c || in_range 97 122 c || in_range 48 57 c
  || (code c =? 46)%N || (code c =? 95)%N.

Fixpoint all_chars (p : ascii → bool) (s : string) : bool :=
  match s with
  | "" => true
  | String c r => p c && all_chars p r
  end.

(** [re.fullmatch(r"[A-Za-z0-9._]{2,24}", s)] *)
Definition handle_fullmatch (s : string) : bool :=
  all_chars is_handle_char s
  && (2 <=? String.length s)%nat && (String.length s <=? 24)%nat.

Definition invalid_username : exn :=
  TikTokScrapeError "Please enter a valid TikTok username.".

Definition normalize_username (username : string) : result string :=
  let normalized := lower (lstrip ["@"%char] (strip username)) in
  if handle_fullmatch normalized then Ok normalized
  else Raise invalid_username.

(** [fetch_tiktok_profile]: the handle is validated first; downloading the
    page and extracting the profile from it is the oracle [remote], which
    answers with the profile dictionary or with the exception raised. *)
Definition fetch_tiktok_profile
    (remote : string → result (gmap string value)) (username : string)
  : result (gmap string value) :=
  bind (normalize_username username) remote.

End Scraper.

(** ** [storage.py] *)

Module Storage.
Import Py.

(** *** Rows of the five tables, typed as the schema declares them *)

Record WatchRow : Type := {
  w_username : string;
  w_created_at : string;
  w_active : Z;
  w_last_checked_at : option string;
  w_last_error : option string }.

Record SnapshotRow : Type := {
  s_id : Z;
  s_username : string;
  s_checked_at : string;
  s_nickname : option string;
  s_bio : option string;
  s_verified : Z;
  s_followers : option Z;
  s_following : option Z;
  s_likes : option Z;
  s_videos_count : option Z;
  s_profile_url : string }.

Record EventRow : Type := {
  e_id : Z;
  e_username : string;
  e_detected_at : string;
  e_metric : string;
  e_old_value : option string;
  e_new_value : option string;
  e_delta : option Z;
  e_message : string }.

Record FailureRow : Type := {
  f_id : Z;
  f_username : string;
  f_checked_at : string;
  f_error : string }.

Record SettingRow : Type := {
  set_value : string;
  set_updated_at : string }.

(** The database file. [watch_accounts] is kept in rowid order; the three
    [seq_] counters are the AUTOINCREMENT high-water marks SQLite keeps in
    [sqlite_sequence], which [DELETE] does not reset. *)
Record DB : Type := {
  watch_accounts : list WatchRow;
  snapshots : list SnapshotRow;
  events : list EventRow;
  failures : list FailureRow;
  settings : gmap string SettingRow;
  seq_snapshots : Z;
  seq_events : Z;
  seq_failures : Z }.

Definition empty_db : DB :=
  {| watch_accounts := []; snapshots := []; events := []; failures := [];
     settings := ∅; seq_snapshots := 0; seq_events := 0; seq_failures := 0 |}.

Definition with_watch_accounts (rows : list WatchRow) (d : DB) : DB :=
  {| watch_accounts := rows; snapshots := snapshots d; events := events d;
     failures := failures d; settings := settings d;
     seq_snapshots := seq_snapshots d; seq_events := seq_events d;
     seq_failures := seq_failures d |}.

Definition with_settings (m : gmap string SettingRow) (d : DB) : DB :=
  {| watch_accounts := watch_accounts d; snapshots := snapshots d;
     events := events d; failures := failures d; settings := m;
     seq_snapshots := seq_snapshots d; seq_events := seq_events d;
     seq_failures := seq_failures d |}.

(** *** The [sqlite3] connection

    [durable] is what every other connection reads; [pending] is the
    working copy of the open transaction, if any; [commits] lists the
    durable states this connection has produced, oldest first. *)
Record Conn : Type := {
  durable : DB;
  pending : option DB;
  commits : list DB }.

Definition working (c : Conn) : DB := default (durable c) (pending c).

Definition commit (c : Conn) : Conn :=
  match pending c with
  | Some w => {| durable := w; pending := None; commits := commits c ++ [w] |}
  | None => c
  end.

Definition rollback (c : Conn) : Conn :=
  {| durable := durable c; pending := None; commits := commits c |}.

Definition Sql (A : Type) : Type := Conn → result A * Conn.

Definition sql_ret {A} (a : A) : Sql A := λ c, (Ok a, c).

Definition sql_bind {A B} (m : Sql A) (k : A → Sql B) : Sql B :=
  λ c, match m c with
       | (Ok a, c') => k a c'
       | (Raise e, c') => (Raise e, c')
       end.

#[global] Instance sql_mret : MRet Sql := @sql_ret.
#[global] Instance sql_mbind : MBind Sql := λ A B k m, sql_bind m k.

(** An exception raised while Python evaluates or binds parameters. *)
Definition lift {A} (r : result A) : Sql A := λ c, (r, c).

(** [conn.execute] of an INSERT, UPDATE or DELETE: the module opens a
    transaction first when none is open, and the statement runs in it. *)
Definition execute {A} (stmt : DB → A * DB) : Sql A :=
  λ c, let '(a, w) := stmt (working c) in
       (Ok a, {| durable := durable c; pending := Some w; commits := commits c |}).

Definition autocommit (c : Conn) (stmt : DB → DB) : Conn :=
  let d := stmt (durable c) in
  {| durable := d; pending := None; commits := commits c ++ [d] |}.

(** [conn.executescript]: commits the pending transaction, then runs the
    statements with no transaction control of its own, so that each one
    is committed as it completes. *)
Definition executescript (script : list (DB → DB)) : Sql unit :=
  λ c, (Ok (), foldl autocommit (commit c) script).

Record Outcome (A : Type) : Type := {
  out : result A;
  final : DB;
  committed : list DB }.
Arguments out {A} o.
Arguments final {A} o.
Arguments committed {A} o.

(** [with self._connect() as conn: body]: [_ensure_schema] finds the five
    tables and creates nothing; the block commits on normal exit and rolls
    back when an exception leaves it. *)
Definition with_connect {A} (body : Sql A) (db : DB) : Outcome A :=
  let '(r, c) := body {| durable := db; pending := None; commits := [] |} in
  let c' := match r with Ok _ => commit c | Raise _ => rollback c end in
  {| out := r; final := durable c'; committed := commits c' |}.

(** *** Binding Python values to statement parameters *)

Inductive sql_value : Type :=
| SNull
| SInteger (z : Z)
| SText (s : string).

Definition int64_min : Z := - 2 ^ 63.
Definition int64_max : Z := 2 ^ 63 - 1.

Definition bind_int (z : Z) : result sql_value :=
  if ((int64_min <=? z) && (z <=? int64_max))%Z then Ok (SInteger z)
  else Raise (OverflowError "Python int too large to convert to SQLite INTEGER").

Definition bind_param (v : value) : result sql_value :=
  match v with
  | VNone => Ok SNull
  | VBool b => Ok (SInteger (if b then 1 else 0))
  | VInt z => bind_int z
  | VStr s => Ok (SText s)
  end.

Definition bind_opt_int (o : option Z) : result sql_value :=
  match o with
  | None => Ok SNull
  | Some z => bind_int z
  end.

(** What a column of TEXT affinity stores. *)
Definition text_column (v : sql_value) : option string :=
  match v with
  | SNull => None
  | SInteger z => Some (pretty z)
  | SText s => Some s
  end.

(** What a column of INTEGER affinity stores, for the integers and NULLs
    the statements below bind to one. *)
Definition integer_column (v : sql_value) : option Z :=
  match v with
  | SInteger z => Some z
  | _ => None
  end.

(** A NULL offered to a NOT NULL column. *)
Definition not_null (column : string) (o : option string) : result string :=
  match o with
  | Some s => Ok s
  | None =>
      Raise (OtherException "IntegrityError"
               ("NOT NULL constraint failed: " ++ column))
  end.

Definition _to_int (v : value) : result (option Z) :=
  match v with
  | VNone => Ok None
  | _ =>
      match int v with
      | Ok z => Ok (Some z)
      | Raise (TypeError _) | Raise (ValueError _) => Ok None
      | Raise e => Raise e
      end
  end.

(** *** Statements on [watch_accounts] *)

Definition find_account (username : string) (rows : list WatchRow)
  : option WatchRow :=
  List.find (λ r, String.eqb (w_username r) username) rows.

Definition new_account (username created_at : string) : WatchRow :=
  {| w_username := username; w_created_at := created_at; w_active := 1;
     w_last_checked_at := None; w_last_error := None |}.

(** INSERT ... VALUES (?, ?, 1) ON CONFLICT(username) DO NOTHING *)
Definition insert_account_do_nothing (username created_at : string) (d : DB)
  : unit * DB :=
  ((), match find_account username (watch_accounts d) with
       | Some _ => d
       | None =>
           with_watch_accounts
             (watch_accounts d ++ [new_account username created_at]) d
       end).

(** UPDATE watch_accounts SET ... WHERE username = ?; the result is the
    cursor's [rowcount], the number of rows the WHERE clause selected. *)
Definition update_account (f : WatchRow → WatchRow) (username : string)
    (d : DB) : Z * DB :=
  let hit r := String.eqb (w_username r) username in
  (Z.of_nat (length (List.filter hit (watch_accounts d))),
   with_watch_accounts
     (map (λ r, if hit r then f r else r) (watch_accounts d)) d).

Definition set_active (a : Z) (r : WatchRow) : WatchRow :=
  {| w_username := w_username r; w_created_at := w_created_at r;
     w_active := a; w_last_checked_at := w_last_checked_at r;
     w_last_error := w_last_error r |}.

Definition set_checked (checked_at : string) (error : option string)
    (r : WatchRow) : WatchRow :=
  {| w_username := w_username r; w_created_at := w_created_at r;
     w_active := w_active r; w_last_checked_at := Some checked_at;
     w_last_error := error |}.

(** INSERT ... VALUES (?, ?, 1) ON CONFLICT(username) DO UPDATE SET active = 1 *)
Definition insert_account_set_active (username created_at : string) (d : DB)
  : unit * DB :=
  ((), match find_account username (watch_accounts d) with
       | Some _ => snd (update_account (set_active 1) username d)
       | None =>
           with_watch_accounts
             (watch_accounts d ++ [new_account username created_at]) d
       end).

(** *** [MonitorStore] *)

Definition add_watch_account (now username : string) (db : DB) : Outcome unit :=
  with_connect (execute (insert_account_set_active username now)) db.

Definition deactivate_watch_account (username : string) (db : DB)
  : Outcome bool :=
  with_connect
    (rowcount ← execute (update_account (set_active 0) username);
     mret (0 <? rowcount)%Z)
    db.

(** The NOCASE collation: bytes compared after folding A..Z to a..z. *)
Definition nocase_fold (c : ascii) : N :=
  if in_range 65 90 c then (code c + 32)%N else code c.

Fixpoint nocase_le (a b : string) : bool :=
  match a, b with
  | "", _ => true
  | String _ _, "" => false
  | String x a', String y b' =>
      if (nocase_fold x <? nocase_fold y)%N then true
      else if (nocase_fold y <? nocase_fold x)%N then false
      else nocase_le a' b'
  end.

Fixpoint insert_by {A} (le : A → A → bool) (x : A) (l : list A) : list A :=
  match l with
  | [] => [x]
  | y :: r => if le x y then x :: l else y :: insert_by le x r
  end.

(** ORDER BY over a table scan: rows that compare equal keep rowid order. *)
Definition order_by {A} (le : A → A → bool) (l : list A) : list A :=
  foldr (insert_by le) [] l.

Definition list_watch_accounts (active_only : bool) (db : DB) : list WatchRow :=
  let rows :=
    if active_only
    then List.filter (λ r, (w_active r =? 1)%Z) (watch_accounts db)
    else watch_accounts db in
  order_by (λ r1 r2, nocase_le (w_username r1) (w_username r2)) rows.

Definition opt_text (o : option string) : value :=
  match o with Some s => VStr s | None => VNone end.

Definition opt_integer (o : option Z) : value :=
  match o with Some z => VInt z | None => VNone end.

(** [_row_to_dict] of the columns [get_latest_snapshot] selects. *)
Definition snapshot_dict (r : SnapshotRow) : gmap string value :=
  <["username" := VStr (s_username r)]>
  (<["checked_at" := VStr (s_checked_at r)]>
  (<["nickname" := opt_text (s_nickname r)]>
  (<["bio" := opt_text (s_bio r)]>
  (<["verified" := VInt (s_verified r)]>
  (<["followers" := opt_integer (s_followers r)]>
  (<["following" := opt_integer (s_following r)]>
  (<["likes" := opt_integer (s_likes r)]>
  (<["videos_count" := opt_integer (s_videos_count r)]>
  (<["profile_url" := VStr (s_profile_url r)]> ∅))))))))).

(** WHERE username = ? ORDER BY id DESC LIMIT 1 *)
Definition latest_row (username : string) (rows : list SnapshotRow)
  : option SnapshotRow :=
  foldl
    (λ best r,
       if String.eqb (s_username r) username then
         match best with
         | Some b => if (s_id b <? s_id r)%Z then Some r else best
         | None => Some r
         end
       else best)
    None rows.

Definition get_latest_snapshot (username : string) (db : DB)
  : option (gmap string value) :=
  snapshot_dict <$> latest_row username (snapshots db).

Definition insert_snapshot (mk : Z → SnapshotRow) (d : DB) : unit * DB :=
  let id := (seq_snapshots d + 1)%Z in
  ((), {| watch_accounts := watch_accounts d;
          snapshots := snapshots d ++ [mk id];
          events := events d; failures := failures d;
          settings := settings d; seq_snapshots := id;
          seq_events := seq_events d; seq_failures := seq_failures d |}).

Definition insert_event (mk : Z → EventRow) (d : DB) : unit * DB :=
  let id := (seq_events d + 1)%Z in
  ((), {| watch_accounts := watch_accounts d; snapshots := snapshots d;
          events := events d ++ [mk id]; failures := failures d;
          settings := settings d; seq_snapshots := seq_snapshots d;
          seq_events := id; seq_failures := seq_failures d |}).

Definition insert_failure (mk : Z → FailureRow) (d : DB) : unit * DB :=
  let id := (seq_failures d + 1)%Z in
  ((), {| watch_accounts := watch_accounts d; snapshots := snapshots d;
          events := events d; failures := failures d ++ [mk id];
          settings := settings d; seq_snapshots := seq_snapshots d;
          seq_events := seq_events d; seq_failures := id |}).

Definition default_profile_url (username : string) : string :=
  "https://www.tiktok.com/@" ++ username.

(** [a or b] *)
Definition py_or (a b : value) : value := if truthy a then a else b.

Definition save_snapshot (now : string) (profile : gmap string value) (db : DB)
  : Outcome unit :=
  match profile !! "username" with
  | None => {| out := Raise (KeyError "username"); final := db; committed := [] |}
  | Some u =>
      let username := str u in
      let checked_at := now in
      with_connect
        (execute (insert_account_do_nothing username checked_at);;
         followers ← lift (_to_int (get profile "followers"));
         following ← lift (_to_int (get profile "following"));
         likes ← lift (_to_int (get profile "likes"));
         videos_count ← lift (_to_int (get profile "videos_count"));
         p_nickname ← lift (bind_param (get profile "nickname"));
         p_bio ← lift (bind_param (get profile "bio"));
         p_followers ← lift (bind_opt_int followers);
         p_following ← lift (bind_opt_int following);
         p_likes ← lift (bind_opt_int likes);
         p_videos_count ← lift (bind_opt_int videos_count);
         p_profile_url ← lift (bind_param
           (py_or (get profile "profile_url")
                  (VStr (default_profile_url username))));
         profile_url ← lift (not_null "snapshots.profile_url"
                                      (text_column p_profile_url));
         execute (insert_snapshot (λ id,
           {| s_id := id; s_username := username; s_checked_at := checked_at;
              s_nickname := text_column p_nickname;
              s_bio := text_column p_bio;
              s_verified := if truthy (get profile "verified") then 1 else 0;
              s_followers := integer_column p_followers;
              s_following := integer_column p_following;
              s_likes := integer_column p_likes;
              s_videos_count := integer_column p_videos_count;
              s_profile_url := profile_url |}));;
         execute (update_account (set_checked checked_at None) username);;
         mret ())
        db
  end.

(** An event dictionary as [detect_profile_changes] builds it: the keys
    are fixed, the values are whatever the compared fields held. *)
Record Event : Type := {
  metric : string;
  old_value : value;
  new_value : value;
  delta : value;
  message : string }.

(** [None if v is None else str(v)] *)
Definition str_or_none (v : value) : value :=
  match v with
  | VNone => VNone
  | _ => VStr (str v)
  end.

(** One parameter row of [executemany], bound and inserted. *)
Definition insert_event_row (username : value) (detected_at : string)
    (event : Event) : Sql unit :=
  delta_int ← lift (_to_int (delta event));
  p_username ← lift (bind_param username);
  p_old ← lift (bind_param (str_or_none (old_value event)));
  p_new ← lift (bind_param (str_or_none (new_value event)));
  p_delta ← lift (bind_opt_int delta_int);
  e_user ← lift (not_null "events.username" (text_column p_username));
  execute (insert_event (λ id,
    {| e_id := id; e_username := e_user; e_detected_at := detected_at;
       e_metric := metric event;
       e_old_value := text_column p_old;
       e_new_value := text_column p_new;
       e_delta := integer_column p_delta;
       e_message := message event |})).

Fixpoint executemany {A} (row : A → Sql unit) (values : list A) : Sql unit :=
  match values with
  | [] => mret ()
  | v :: rest => row v;; executemany row rest
  end.

Definition record_events (now : string) (username : value)
    (events : list Event) (db : DB) : Outcome unit :=
  match events with
  | [] => {| out := Ok (); final := db; committed := [] |}
  | _ =>
      let detected_at := now in
      with_connect (executemany (insert_event_row username detected_at) events) db
  end.

Definition record_failure (now username error : string) (db : DB)
  : Outcome unit :=
  let checked_at := now in
  with_connect
    (execute (insert_account_do_nothing username checked_at);;
     execute (insert_failure (λ id,
       {| f_id := id; f_username := username; f_checked_at := checked_at;
          f_error := error |}));;
     execute (update_account (set_checked checked_at (Some error)) username);;
     mret ())
    db.

Definition get_setting (key : string) (db : DB) : option string :=
  set_value <$> settings db !! key.

(** INSERT ... ON CONFLICT(key) DO UPDATE SET value, updated_at *)
Definition upsert_setting (key value now : string) (d : DB) : unit * DB :=
  ((), with_settings
         (<[key := {| set_value := value; set_updated_at := now |}]> (settings d))
         d).

Definition set_setting (now key value : string) (db : DB) : Outcome unit :=
  with_connect (execute (upsert_setting key value now)) db.

Definition delete_events (d : DB) : DB :=
  {| watch_accounts := watch_accounts d; snapshots := snapshots d;
     events := []; failures := failures d; settings := settings d;
     seq_snapshots := seq_snapshots d; seq_events := seq_events d;
     seq_failures := seq_failures d |}.

Definition delete_failures (d : DB) : DB :=
  {| watch_accounts := watch_accounts d; snapshots := snapshots d;
     events := events d; failures := []; settings := settings d;
     seq_snapshots := seq_snapshots d; seq_events := seq_events d;
     seq_failures := seq_failures d |}.

Definition delete_snapshots (d : DB) : DB :=
  {| watch_accounts := watch_accounts d; snapshots := [];
     events := events d; failures := failures d; settings := settings d;
     seq_snapshots := seq_snapshots d; seq_events := seq_events d;
     seq_failures := seq_failures d |}.

Definition delete_watch_accounts (d : DB) : DB := with_watch_accounts [] d.

Definition clear_monitor_data (db : DB) : Outcome unit :=
  with_connect
    (executescript
       [delete_events; delete_failures; delete_snapshots; delete_watch_accounts])
    db.

End Storage.

(** ** [monitor.py] *)

Module Monitor.
Import Py Storage.

Definition NUMERIC_FIELDS : list string :=
  ["followers"; "following"; "likes"; "videos_count"].
Definition TEXT_FIELDS : list string := ["nickname"; "bio"].
Definition BOOLEAN_FIELDS : list string := ["verified"].

Definition _as_int (v : value) : result (option Z) :=
  match v with
  | VNone => Ok None
  | _ =>
      match int v with
      | Ok z => Ok (Some z)
      | Raise (TypeError _) | Raise (ValueError _) => Ok None
      | Raise e => Raise e
      end
  end.

Definition numeric_message (field : string) (old new d : Z) : string :=
  field ++ " changed from " ++ pretty old ++ " to " ++ pretty new
        ++ " (" ++ signed d ++ ").".

Definition numeric_event (field : string) (old new : Z) : Event :=
  {| metric := field; old_value := VInt old; new_value := VInt new;
     delta := VInt (new - old);
     message := numeric_message field old new (new - old) |}.

Definition text_event (field : string) (old new : value) : Event :=
  {| metric := field; old_value := old; new_value := new; delta := VNone;
     message := field ++ " changed." |}.

Definition boolean_event (field : string) (old new : bool) : Event :=
  {| metric := field; old_value := VBool old; new_value := VBool new;
     delta := VNone;
     message := field ++ " changed from " ++ str (VBool old) ++ " to "
                      ++ str (VBool new) ++ "." |}.

(** [for field in NUMERIC_FIELDS: ...], [events] being the list built so far. *)
Fixpoint numeric_loop (fields : list string) (previous current : gmap string value)
    (events : list Event) : result (list Event) :=
  match fields with
  | [] => Ok events
  | field :: rest =>
      bind (_as_int (get previous field)) (λ old_value,
      bind (_as_int (get current field)) (λ new_value,
        match old_value, new_value with
        | Some old, Some new =>
            if (old =? new)%Z then numeric_loop rest previous current events
            else numeric_loop rest previous current
                   (events ++ [numeric_event field old new])
        | _, _ => numeric_loop rest previous current events
        end))
  end.

Fixpoint text_loop (fields : list string) (previous current : gmap string value)
    (events : list Event) : list Event :=
  match fields with
  | [] => events
  | field :: rest =>
      let old_value := get previous field in
      let new_value := get current field in
      if eqb old_value new_value then text_loop rest previous current events
      else text_loop rest previous current
             (events ++ [text_event field old_value new_value])
  end.

Fixpoint boolean_loop (fields : list string) (previous current : gmap string value)
    (events : list Event) : list Event :=
  match fields with
  | [] => events
  | field :: rest =>
      let old_value := truthy (get previous field) in
      let new_value := truthy (get current field) in
      if Bool.eqb old_value new_value
      then boolean_loop rest previous current events
      else boolean_loop rest previous current
             (events ++ [boolean_event field old_value new_value])
  end.

Definition detect_profile_changes (previous : option (gmap string value))
    (current : gmap string value) : result (list Event) :=
  match previous with
  | None => Ok []
  | Some previous =>
      bind (numeric_loop NUMERIC_FIELDS previous current []) (λ events,
        Ok (boolean_loop BOOLEAN_FIELDS previous current
              (text_loop TEXT_FIELDS previous current events)))
  end.

(** *** The environment and the service object *)

(** What the code cannot compute: the readings of the wall clock and the
    answers of the remote site, one per call made so far. *)
Record Env : Type := {
  clock : nat → string;
  remote : nat → string → result (gmap string value) }.

(** The database file behind [self.store], the durable states committed
    to it so far (oldest first), and the number of calls made to the
    environment. *)
Record World : Type := {
  store : DB;
  journal : list DB;
  calls : nat }.

Record Summary : Type := {
  status : string;
  accounts : Z;
  checked : Z;
  failed : Z }.

(** [TikTokMonitorService]; [thread] is [None] before the first [start],
    afterwards [Some alive]. *)
Record Service : Type := {
  world : World;
  interval_seconds : Z;
  stop_event : bool;
  run_lock : bool;
  thread : option bool;
  last_run_started_at : option string;
  last_run_finished_at : option string;
  last_run_summary : option Summary }.

Definition set_world (w : World) (s : Service) : Service :=
  {| world := w; interval_seconds := interval_seconds s;
     stop_event := stop_event s; run_lock := run_lock s; thread := thread s;
     last_run_started_at := last_run_started_at s;
     last_run_finished_at := last_run_finished_at s;
     last_run_summary := last_run_summary s |}.

Definition set_run_lock (held : bool) (s : Service) : Service :=
  {| world := world s; interval_seconds := interval_seconds s;
     stop_event := stop_event s; run_lock := held; thread := thread s;
     last_run_started_at := last_run_started_at s;
     last_run_finished_at := last_run_finished_at s;
     last_run_summary := last_run_summary s |}.

Definition set_last_run_started_at (t : string) (s : Service) : Service :=
  {| world := world s; interval_seconds := interval_seconds s;
     stop_event := stop_event s; run_lock := run_lock s; thread := thread s;
     last_run_started_at := Some t;
     last_run_finished_at := last_run_finished_at s;
     last_run_summary := last_run_summary s |}.

Definition set_last_run_finished_at (t : string) (s : Service) : Service :=
  {| world := world s; interval_seconds := interval_seconds s;
     stop_event := stop_event s; run_lock := run_lock s; thread := thread s;
     last_run_started_at := last_run_started_at s;
     last_run_finished_at := Some t;
     last_run_summary := last_run_summary s |}.

Definition set_last_run_summary (m : Summary) (s : Service) : Service :=
  {| world := world s; interval_seconds := interval_seconds s;
     stop_event := stop_event s; run_lock := run_lock s; thread := thread s;
     last_run_started_at := last_run_started_at s;
     last_run_finished_at := last_run_finished_at s;
     last_run_summary := Some m |}.

Definition is_running (s : Service) : bool :=
  match thread s with
  | Some alive => alive
  | None => false
  end.

Definition M (A : Type) : Type := Service → result A * Service.

Definition m_bind {A B} (m : M A) (k : A → M B) : M B :=
  λ s, match m s with
       | (Ok a, s') => k a s'
       | (Raise e, s') => (Raise e, s')
       end.

#[global] Instance m_mret : MRet M := λ A a s, (Ok a, s).
#[global] Instance m_mbind : MBind M := λ A B k m, m_bind m k.

Definition tick (w : World) : World :=
  {| store := store w; journal := journal w; calls := S (calls w) |}.

(** [utc_now_iso()] *)
Definition utc_now_iso (env : Env) (s : Service) : string * Service :=
  (clock env (calls (world s)), set_world (tick (world s)) s).

(** A method of [self.store] that writes: it reads the clock for its
    timestamp, and what it commits is appended to the journal. *)
Definition store_write {A} (env : Env) (op : string → DB → Outcome A) : M A :=
  λ s, let w := world s in
       let o := op (clock env (calls w)) (store w) in
       (out o,
        set_world {| store := final o; journal := journal w ++ committed o;
                     calls := S (calls w) |} s).

(** A method of [self.store] that only reads. *)
Definition store_read {A} (q : DB → A) : M A :=
  λ s, (Ok (q (store (world s))), s).

(** The call of [fetch_tiktok_profile] with its outcome made a value, for
    the [try] statement to dispatch on. *)
Definition try_fetch (env : Env) (username : string)
  : M (result (gmap string value)) :=
  λ s, let w := world s in
       (Ok (Scraper.fetch_tiktok_profile (remote env (calls w)) username),
        set_world (tick w) s).

Definition lift_result {A} (r : result A) : M A := λ s, (r, s).

(** An assignment to an attribute of [self]. *)
Definition modify (f : Service → Service) : M unit := λ s, (Ok (), f s).

(** [current["username"]] *)
Definition subscript (d : gmap string value) (key : string) : result value :=
  match d !! key with
  | Some v => Ok v
  | None => Raise (KeyError key)
  end.

Definition check_account (env : Env) (username : string) : M bool :=
  previous ← store_read (get_latest_snapshot username);
  fetched ← try_fetch env username;
  match fetched with
  | Raise (TikTokScrapeError _ as exc) =>
      store_write env (λ now, record_failure now username (exn_str exc));;
      mret false
  | Raise exc =>
      store_write env (λ now, record_failure now username
                                (exn_class exc ++ ": " ++ exn_str exc));;
      mret false
  | Ok current =>
      store_write env (λ now, save_snapshot now current);;
      events ← lift_result (detect_profile_changes previous current);
      canonical ← lift_result (subscript current "username");
      store_write env (λ now, record_events now canonical events);;
      mret true
  end.

Definition busy_summary : Summary :=
  {| status := "busy"; checked := 0; failed := 0; accounts := 0 |}.

(** [for account in accounts: ...] with the two counters. *)
Fixpoint check_loop (env : Env) (accounts : list WatchRow) (checked failed : Z)
  : M (Z * Z) :=
  match accounts with
  | [] => mret (checked, failed)
  | account :: rest =>
      ok ← check_account env (w_username account);
      if ok : bool then check_loop env rest (checked + 1)%Z failed
      else check_loop env rest checked (failed + 1)%Z
  end.

(** The body of the [try] block of [run_once]. *)
Definition run_cycle (env : Env) : M Summary :=
  accounts ← store_read (list_watch_accounts true);
  counts ← check_loop env accounts 0 0;
  let summary :=
    {| status := "ok"; accounts := Z.of_nat (length accounts);
       checked := fst counts; failed := snd counts |} in
  modify (set_last_run_summary summary);;
  mret summary.

Definition run_once (env : Env) : M Summary :=
  λ s,
    (* self._run_lock.acquire(blocking=False) *)
    if run_lock s then (Ok busy_summary, s)
    else
      let s := set_run_lock true s in
      let '(started, s) := utc_now_iso env s in
      let s := set_last_run_started_at started s in
      let '(r, s) := run_cycle env s in
      (* finally *)
      let '(finished, s) := utc_now_iso env s in
      (r, set_run_lock false (set_last_run_finished_at finished s)).

End Monitor.

(** ** [app.py]: the dashboard actions that write to the store *)

Module App.
Import Py Storage Monitor.

(** The module-level [monitor] (which holds the module-level [store]) and
    the two flash keys of the session. *)
Record State : Type := {
  monitor : Service;
  flash_msg : option string;
  flash_kind : option string }.

Definition flash (msg kind : string) (s : Service) : State :=
  {| monitor := s; flash_msg := Some msg; flash_kind := Some kind |}.

(** action == "reset_monitor_data" *)
Definition reset_monitor_data (a : State) : State :=
  let m := monitor a in
  if is_running m then
    flash "Stop the monitor before clearing data." "error" m
  else
    let w := world m in
    let o := clear_monitor_data (store w) in
    flash "All watchlist/history/events/failures data cleared." "success"
      (set_world {| store := final o; journal := journal w ++ committed o;
                    calls := calls w |} m).

(** action == "add_watch"; [form_value] is [request.form.get("watch_username", "")]. *)
Definition add_watch (env : Env) (form_value : string) (a : State)
  : result State :=
  let watch_username := strip form_value in
  match Scraper.normalize_username watch_username with
  | Ok normalized =>
      match store_write env (λ now, add_watch_account now normalized) (monitor a) with
      | (Ok _, m) =>
          Ok (flash ("@" ++ normalized ++ " added to watchlist.") "success" m)
      | (Raise e, _) => Raise e
      end
  | Raise (TikTokScrapeError _ as exc) =>
      Ok (flash (exn_str exc) "error" (monitor a))
  | Raise e => Raise e
  end.

(** action == "remove_watch" *)
Definition remove_watch (form_value : string) (a : State) : State :=
  let watch_username := lstrip ["@"%char] (strip form_value) in
  let m := monitor a in
  if String.eqb watch_username "" then
    flash "Missing watchlist username." "error" m
  else
    let w := world m in
    let o := deactivate_watch_account watch_username (store w) in
    let m' := set_world {| store := final o; journal := journal w ++ committed o;
                           calls := calls w |} m in
    match out o with
    | Ok true => flash ("@" ++ watch_username ++ " removed from watchlist.") "success" m'
    | _ => flash ("@" ++ watch_username ++ " is not in your active watchlist.") "error" m'
    end.

(** action == "check_watch_now" *)
Definition check_watch_now (env : Env) (form_value : string) (a : State)
  : result State :=
  let watch_username := lstrip ["@"%char] (strip form_value) in
  let m := monitor a in
  if String.eqb watch_username "" then
    Ok (flash "Missing watchlist username." "error" m)
  else
    match check_account env watch_username m with
    | (Ok true, m') =>
        Ok (flash ("Manual check completed for @" ++ watch_username ++ ".")
              "success" m')
    | (Ok false, m') =>
        Ok (flash ("Manual check failed for @" ++ watch_username
                   ++ ". See failures below.") "error" m')
    | (Raise e, _) => Raise e
    end.

End App.

(** ** Notions used to state the properties *)

Module Spec.
Import Py Storage Monitor.

(** A field value parses as the integer [z] when Python's [int()] accepts
    it and returns [z]; the absent value [None], which [int()] refuses, and
    a text that is no integer literal do not parse. *)
Definition parsed_integer (v : value) : option Z :=
  match v with
  | VNone => None
  | VBool b => Some (if b then 1 else 0)%Z
  | VInt z => Some z
  | VStr s => int_of_str s
  end.

(** The events one numeric field contributes when both sides are compared. *)
Definition numeric_step (previous current : gmap string value) (field : string)
  : list Event :=
  match _as_int (get previous field), _as_int (get current field) with
  | Ok (Some old), Ok (Some new) =>
      if (old =? new)%Z then [] else [numeric_event field old new]
  | _, _ => []
  end.

Definition text_step (previous current : gmap string value) (field : string)
  : list Event :=
  if eqb (get previous field) (get current field) then []
  else [text_event field (get previous field) (get current field)].

Definition boolean_step (previous current : gmap string value) (field : string)
  : list Event :=
  if Bool.eqb (truthy (get previous field)) (truthy (get current field)) then []
  else [boolean_event field (truthy (get previous field))
                            (truthy (get current field))].

(** The fixed evaluation order of the tracked fields. *)
Definition FIELD_ORDER : list string :=
  NUMERIC_FIELDS ++ TEXT_FIELDS ++ BOOLEAN_FIELDS.

(** A field contributes no event or one event that bears its name. *)
Definition at_most_one (step : string → list Event) : Prop :=
  ∀ f, step f = [] ∨ ∃ e, step f = [e] ∧ metric e = f.

(** The text [check_account] records for a failed fetch. *)
Definition failure_text (e : exn) : string :=
  match e with
  | TikTokScrapeError msg => msg
  | _ => exn_class e ++ ": " ++ exn_str e
  end.

(** The normalisation as the specification words it: one leading [@]
    removed, then lowercased, accepted when the result matches. *)
Definition spec_strip_at (s : string) : string :=
  match s with
  | String "@" r => r
  | _ => s
  end.

Definition spec_normalize_username (username : string) : option string :=
  let candidate := lower (spec_strip_at username) in
  if Scraper.handle_fullmatch candidate then Some candidate else None.

Definition fits_int64 (z : Z) : bool :=
  ((int64_min <=? z) && (z <=? int64_max))%Z.

(** A value SQLite can take as a parameter. *)
Definition bindable (v : value) : bool :=
  match v with
  | VInt z => fits_int64 z
  | _ => true
  end.

(** A counter SQLite can take once [_to_int] has converted it. *)
Definition bindable_count (v : value) : bool :=
  match _to_int v with
  | Ok (Some z) => fits_int64 z
  | _ => true
  end.

(** A profile [save_snapshot] can store: it has a username and every
    integer it carries fits SQLite's 64-bit INTEGER. *)
Definition storable (profile : gmap string value) : bool :=
  bool_decide (is_Some (profile !! "username"))
  && bindable (get profile "nickname")
  && bindable (get profile "bio")
  && bindable_count (get profile "followers")
  && bindable_count (get profile "following")
  && bindable_count (get profile "likes")
  && bindable_count (get profile "videos_count")
  && bindable (get profile "profile_url").

End Spec.

(** ** Concrete scenarios *)

Module Samples.
Import Py Storage Monitor.

Definition profile (username : string) (followers : Z) (bio : string)
    (verified : bool) : gmap string value :=
  <["username" := VStr username]>
  (<["nickname" := VStr "Alice"]>
  (<["bio" := VStr bio]>
  (<["verified" := VBool verified]>
  (<["followers" := VInt followers]>
  (<["following" := VInt 7]>
  (<["likes" := VNone]>
  (<["videos_count" := VStr "n/a"]>
  (<["profile_url" := VStr (default_profile_url username)]> ∅)))))))).

Definition alice_100 : gmap string value := profile "alice" 100 "hello" false.
Definition alice_150 : gmap string value := profile "alice" 150 "hello" false.
Definition alice_rebranded : gmap string value :=
  profile "alice" 150 "hello!" true.

(** Snapshots whose counters are texts, as a caller other than the scraper
    may pass them. *)
Definition texts (followers videos : string) : gmap string value :=
  <["followers" := VStr followers]>
  (<["videos_count" := VStr videos]> alice_100).

(** A registry with two active handles and a deactivated one, one snapshot
    and one event. *)
Definition account (username : string) (active : Z) : WatchRow :=
  {| w_username := username; w_created_at := "2024-05-01T10:00:00+00:00";
     w_active := active; w_last_checked_at := None;
     w_last_error := Some "stale" |}.

Definition db : DB :=
  {| watch_accounts := [account "alice" 1; account "bob" 1; account "carol" 0];
     snapshots := [];
     events :=
       [{| e_id := 1; e_username := "alice";
           e_detected_at := "2024-05-01T10:15:00+00:00";
           e_metric := "bio"; e_old_value := None; e_new_value := Some "hello";
           e_delta := None; e_message := "bio changed." |}];
     failures := [];
     settings :=
       {[ "monitor_interval_seconds" :=
            {| set_value := "900";
               set_updated_at := "2024-05-01T09:00:00+00:00" |} ]};
     seq_snapshots := 0; seq_events := 1; seq_failures := 0 |}.

(** The clock ticks once per call; the site shows alice with 100 followers
    at first and 150 from the fourth call on, fails to yield a payload for
    bob and is unreachable for everyone else. *)
Definition env : Env :=
  {| clock := λ n, "2024-05-01T11:00:" ++ pretty n;
     remote := λ n handle,
       if String.eqb handle "alice"
       then Ok (if (n <? 3)%nat then alice_100 else alice_150)
       else if String.eqb handle "bob"
       then Raise (TikTokScrapeError "Could not read profile payload.")
       else Raise (OtherException "ConnectionError" "unreachable") |}.

Definition service_on (d : DB) (held : bool) (alive : option bool) : Service :=
  {| world := {| store := d; journal := []; calls := 0 |};
     interval_seconds := 900; stop_event := false; run_lock := held;
     thread := alive; last_run_started_at := None;
     last_run_finished_at := None; last_run_summary := None |}.

Definition service : bool → option bool → Service := service_on db.

(** A service on a database with its five tables empty. *)
Definition fresh : Service := service_on empty_db false None.

(** The state after one call of a method of the service; an exception
    leaves the state it was raised in. *)
Definition after {A} (m : M A) (s : Service) : Service := snd (m s).

End Samples.

(** ** [storage.py], the read accessors *)

Module Queries.
Import Py Storage.

(** LIMIT ?: a negative bound is no bound. *)
Definition sql_limit {A} (limit : Z) (rows : list A) : list A :=
  if (limit <? 0)%Z then rows else take (Z.to_nat limit) rows.

(** SELECT ... ORDER BY id DESC LIMIT ?, the bound being the Python [int]
    the caller passes. *)
Definition newest_first {A} (id : A → Z) (limit : Z) (rows : list A)
  : result (list A) :=
  bind (bind_int limit) (λ _,
    Ok (sql_limit limit (order_by (λ a b, (id b <=? id a)%Z) rows))).

Definition get_recent_events (limit : Z) (db : DB) : result (list EventRow) :=
  newest_first e_id limit (events db).

Definition get_recent_failures (limit : Z) (db : DB) : result (list FailureRow) :=
  newest_first f_id limit (failures db).

Definition get_snapshots (username : string) (limit : Z) (db : DB)
  : result (list SnapshotRow) :=
  newest_first s_id limit
    (List.filter (λ r, String.eqb (s_username r) username) (snapshots db)).

(** A row of [list_watch_accounts_with_latest]: the registry columns and,
    from the LEFT JOIN, the columns of the handle's latest snapshot or NULLs. *)
Record LatestRow : Type := {
  l_username : string;
  l_created_at : string;
  l_active : Z;
  l_last_checked_at : option string;
  l_last_error : option string;
  l_snapshot_checked_at : option string;
  l_nickname : option string;
  l_followers : option Z;
  l_following : option Z;
  l_likes : option Z;
  l_videos_count : option Z }.

Definition left_join (w : WatchRow) (s : option SnapshotRow) : LatestRow :=
  {| l_username := w_username w; l_created_at := w_created_at w;
     l_active := w_active w; l_last_checked_at := w_last_checked_at w;
     l_last_error := w_last_error w;
     l_snapshot_checked_at := s_checked_at <$> s;
     l_nickname := s ≫= s_nickname;
     l_followers := s ≫= s_followers;
     l_following := s ≫= s_following;
     l_likes := s ≫= s_likes;
     l_videos_count := s ≫= s_videos_count |}.

Definition list_watch_accounts_with_latest (db : DB) : list LatestRow :=
  map (λ w, left_join w (latest_row (w_username w) (snapshots db)))
      (list_watch_accounts true db).

End Queries.

(** ** Invariants of the database *)

Module Inv.
Import Py Storage.

(** The primary key of [watch_accounts]. *)
Definition unique_handles (d : DB) : Prop :=
  NoDup (w_username <$> watch_accounts d).

(** AUTOINCREMENT: the ids of a table grow with the rows and none exceeds
    the table's high-water mark. *)
Definition ids_below (seq : Z) (ids : list Z) : Prop :=
  StronglySorted Z.lt ids ∧ Forall (λ i, (i ≤ seq)%Z) ids.

Definition db_ok (d : DB) : Prop :=
  unique_handles d
  ∧ ids_below (seq_snapshots d) (s_id <$> snapshots d)
  ∧ ids_below (seq_events d) (e_id <$> events d)
  ∧ ids_below (seq_failures d) (f_id <$> failures d).

(** The handles the monitor checks: those of the active rows, in the order
    of the listing. *)
Definition active_handles (d : DB) : list string :=
  w_username <$> list_watch_accounts true d.

(** The characters of a handle in normal form: a lower-case ASCII letter,
    a digit, a dot or an underscore. *)
Definition is_normal_char (c : ascii) : bool :=
  in_range 97 122 c || in_range 48 57 c || (code c =? 46)%N || (code c =? 95)%N.

(** What of a registry row the monitor never touches: the handle, the
    creation time and the active flag. *)
Definition registry_core (r : WatchRow) : string * string * Z :=
  (w_username r, w_created_at r, w_active r).

(** [d'] continues [d]: the snapshot, event and failure tables have only
    grown at the end, the registry has at most gained rows at the end and
    changed bookkeeping columns, and the settings are the same. *)
Definition extends (d d' : DB) : Prop :=
  snapshots d `prefix_of` snapshots d'
  ∧ events d `prefix_of` events d'
  ∧ failures d `prefix_of` failures d'
  ∧ (registry_core <$> watch_accounts d)
    `prefix_of` (registry_core <$> watch_accounts d')
  ∧ settings d' = settings d.

(** A method of the service that only ever continues the database and the
    journal of its commits. *)
Definition only_extends {A} (m : Monitor.M A) : Prop :=
  ∀ s, extends (Monitor.store (Monitor.world s))
               (Monitor.store (Monitor.world (snd (m s))))
       ∧ Monitor.journal (Monitor.world s)
         `prefix_of` Monitor.journal (Monitor.world (snd (m s))).

(** Two events report the same change read in opposite directions. *)
Definition mirror (e e' : Event) : Prop :=
  metric e' = metric e
  ∧ old_value e' = new_value e
  ∧ new_value e' = old_value e
  ∧ delta e' = match delta e with
                       | VInt d => VInt (- d)
                       | v => v
                       end.

(** A text field as the site delivers it: a string or nothing. *)
Definition text_like (v : value) : bool :=
  match v with
  | VNone | VStr _ => true
  | _ => false
  end.

(** Event rows inserted one after the other, each taking the next id. *)
Definition insert_events (mks : list (Z → EventRow)) (d : DB) : DB :=
  foldl (λ d mk, snd (insert_event mk d)) d mks.

(** What [record_events] stores of one event dictionary. *)
Definition row_of_event (detected_at : string) (event : Event) (row : EventRow)
  : Prop :=
  e_detected_at row = detected_at
  ∧ e_metric row = metric event
  ∧ e_message row = message event
  ∧ e_old_value row
    = match old_value event with VNone => None | v => Some (str v) end
  ∧ e_new_value row
    = match new_value event with VNone => None | v => Some (str v) end.

(** A method of the service that touches nothing of the service object but
    the world behind it. *)
Definition frames {A} (m : Monitor.M A) : Prop :=
  ∀ s, ∃ w, snd (m s) = Monitor.set_world w s.

(** The database behind the service and every state committed to it so far
    satisfy the invariant. *)
Definition svc_ok (s : Monitor.Service) : Prop :=
  db_ok (Monitor.store (Monitor.world s))
  ∧ Forall db_ok (Monitor.journal (Monitor.world s)).

Definition keeps {A} (m : Monitor.M A) : Prop :=
  ∀ s, svc_ok s → svc_ok (snd (m s)).

End Inv.

(** ** More scenarios *)

Module Cases.
Import Py Storage Monitor.

(** The site cannot be reached at all. *)
Definition offline : Env :=
  {| clock := λ n, "2024-05-02T08:00:" ++ pretty n;
     remote := λ _ _, Raise (OtherException "ConnectionError" "unreachable") |}.

(** The site shows alice with 150 followers; the store has seen her with
    100. *)
Definition grown : Env :=
  {| clock := λ n, "2024-05-02T09:00:" ++ pretty n;
     remote := λ _ _, Ok Samples.alice_150 |}.

Definition seen_alice : DB :=
  {| watch_accounts := [Samples.account "alice" 1];
     snapshots :=
       [{| s_id := 1; s_username := "alice";
           s_checked_at := "2024-05-01T11:00:1";
           s_nickname := Some "Alice"; s_bio := Some "hello";
           s_verified := 0; s_followers := Some 100; s_following := Some 7;
           s_likes := None; s_videos_count := None;
           s_profile_url := "https://www.tiktok.com/@alice" |}];
     events := []; failures := []; settings := ∅;
     seq_snapshots := 1; seq_events := 0; seq_failures := 0 |}.

End Cases.

(** ** [app.py]: the settings and the list limits *)

Module Settings.
Import Py Storage Monitor.

(** The four defaults read from the process environment when the module is
    imported. *)
Record EnvDefaults : Type := {
  ENV_DEFAULT_PORT : Z;
  ENV_DEFAULT_DEBUG_MODE : bool;
  ENV_DEFAULT_MONITOR_INTERVAL_SECONDS : Z;
  ENV_DEFAULT_AUTO_START_MONITOR : bool }.

(** An entry of [SETTING_DEFINITIONS]; the entries of type bool have no
    "min" and no "max" key. *)
Record SettingDef : Type := {
  label : string;
  type : string;
  default : value;
  min : option Z;
  max : option Z;
  restart_required : bool;
  description : string }.

Definition int_setting (l : string) (d lo hi : Z) (restart : bool)
    (descr : string) : SettingDef :=
  {| label := l; type := "int"; default := VInt d; min := Some lo;
     max := Some hi; restart_required := restart; description := descr |}.

Definition bool_setting (l : string) (d : bool) (restart : bool)
    (descr : string) : SettingDef :=
  {| label := l; type := "bool"; default := VBool d; min := None;
     max := None; restart_required := restart; description := descr |}.

Definition SETTING_DEFINITIONS (e : EnvDefaults) : list (string * SettingDef) :=
  [ ("app_port",
     int_setting "Web port" (ENV_DEFAULT_PORT e) 1 65535 true
       "Port used by Flask on next restart.");
    ("debug_mode",
     bool_setting "Debug mode" (ENV_DEFAULT_DEBUG_MODE e) true
       "Enable Flask debug mode on next restart.");
    ("monitor_interval_seconds",
     int_setting "Monitor interval (seconds)"
       (ENV_DEFAULT_MONITOR_INTERVAL_SECONDS e) 30 86400 false
       "Time between periodic monitor cycles.");
    ("auto_start_monitor",
     bool_setting "Auto-start monitor" (ENV_DEFAULT_AUTO_START_MONITOR e) true
       "Start monitor automatically when app boots.");
    ("dashboard_events_limit",
     int_setting "Dashboard events limit" 30 1 500 false
       "How many change events are shown on dashboard.");
    ("dashboard_failures_limit",
     int_setting "Dashboard failures limit" 20 1 500 false
       "How many failures are shown on dashboard.");
    ("api_default_limit",
     int_setting "API default limit" 100 1 2000 false
       "Default API list limit when query param is omitted.");
    ("api_max_limit",
     int_setting "API max limit" 500 1 5000 false
       "Maximum allowed API limit value.");
    ("history_default_limit",
     int_setting "History default limit" 100 1 2000 false
       "Default number of snapshots returned for account history.") ].

Definition SETTINGS_ORDER (e : EnvDefaults) : list string :=
  fst <$> SETTING_DEFINITIONS e.

(** [d[key]] on a dictionary kept as the list of its items. *)
Definition item {V} (d : list (string * V)) (key : string) : result V :=
  match List.find (λ kv, String.eqb (fst kv) key) d with
  | Some kv => Ok (snd kv)
  | None => Raise (KeyError key)
  end.

Definition _parse_bool (v : option string) (default : bool) : bool :=
  match v with
  | None => default
  | Some t => bool_decide (lower (strip t) ∈ ["1"; "true"; "yes"; "on"])
  end.

Definition _serialize_setting_value (e : EnvDefaults) (key : string) (v : value)
  : result string :=
  bind (item (SETTING_DEFINITIONS e) key) (λ definition,
    if String.eqb (type definition) "bool"
    then Ok (if truthy v then "1" else "0")
    else Ok (str v)).

Definition must_be_integer (definition : SettingDef) : exn :=
  ValueError (label definition ++ " must be a valid integer.").

Definition must_be_between (definition : SettingDef) (lo hi : Z) : exn :=
  ValueError (label definition ++ " must be between " ++ pretty lo
              ++ " and " ++ pretty hi ++ ".").

Definition _parse_setting_value (e : EnvDefaults) (key : string) (raw : value)
  : result value :=
  bind (item (SETTING_DEFINITIONS e) key) (λ definition,
    if String.eqb (type definition) "bool" then
      match raw with
      | VBool b => Ok (VBool b)
      | _ => Ok (VBool (_parse_bool (Some (str raw))
                          (truthy (default definition))))
      end
    else if String.eqb (type definition) "int" then
      match int raw with
      | Raise (TypeError _) | Raise (ValueError _) =>
          Raise (must_be_integer definition)
      | Raise exc => Raise exc
      | Ok parsed =>
          let min_value := from_option id parsed (min definition) in
          let max_value := from_option id parsed (max definition) in
          if ((parsed <? min_value) || (max_value <? parsed))%Z
          then Raise (must_be_between definition min_value max_value)
          else Ok (VInt parsed)
      end
    else Ok (VStr (str raw))).

(** [except ValueError] *)
Definition is_value_error (exc : exn) : bool :=
  match exc with ValueError _ => true | _ => false end.

(** The body of the loop of [_load_settings] for one key. *)
Definition load_setting (e : EnvDefaults) (env : Env) (key : string)
    (loaded : gmap string value) : M (gmap string value) :=
  definition ← lift_result (item (SETTING_DEFINITIONS e) key);
  default_value ← lift_result (_parse_setting_value e key (default definition));
  raw_value ← store_read (get_setting key);
  parsed_value ← lift_result
    match raw_value with
    | None => Ok default_value
    | Some raw =>
        match _parse_setting_value e key (VStr raw) with
        | Ok v => Ok v
        | Raise exc => if is_value_error exc then Ok default_value else Raise exc
        end
    end;
  serialized ← lift_result (_serialize_setting_value e key parsed_value);
  store_write env (λ now, set_setting now key serialized);;
  mret (<[key := parsed_value]> loaded).

Fixpoint load_loop (e : EnvDefaults) (env : Env) (keys : list string)
    (loaded : gmap string value) : M (gmap string value) :=
  match keys with
  | [] => mret loaded
  | key :: rest =>
      loaded' ← load_setting e env key loaded;
      load_loop e env rest loaded'
  end.

Definition _load_settings (e : EnvDefaults) (env : Env)
  : M (gmap string value) :=
  load_loop e env (SETTINGS_ORDER e) ∅.

(** [_resolve_limit]; the pair is (limit, error). *)
Definition _resolve_limit (limit_raw : option string)
    (default_limit max_limit : Z) : option Z * option string :=
  match limit_raw with
  | None => (Some default_limit, None)
  | Some raw =>
      if String.eqb raw "" then (Some default_limit, None)
      else
        match int_of_str raw with
        | None => (None, Some "limit must be an integer.")
        | Some limit =>
            if ((limit <? 1) || (max_limit <? limit))%Z
            then (None, Some ("limit must be between 1 and "
                              ++ pretty max_limit ++ "."))
            else (Some limit, None)
        end
  end.

(** The process: the dashboard state and the module-level [settings_state]. *)
Record Site : Type := {
  app : App.State;
  settings_state : gmap string value }.

(** [int(settings_state[name])] *)
Definition _get_setting_limit (name : string) (site : Site) : result Z :=
  match settings_state site !! name with
  | Some v => int v
  | None => Raise (KeyError name)
  end.

(** [limit or default_limit] *)
Definition limit_or (limit : option Z) (default_limit : Z) : Z :=
  match limit with
  | Some l => if (l =? 0)%Z then default_limit else l
  | None => default_limit
  end.

(** The common body of the three list endpoints: [Ok (inl error)] is the
    400 response, [Ok (inr rows)] the list. *)
Definition limited {R} (default_name : string) (query : Z → DB → result R)
    (limit_raw : option string) (site : Site) : result (string + R) :=
  bind (_get_setting_limit "api_max_limit" site) (λ max_limit,
  bind (_get_setting_limit default_name site) (λ named_default,
    let default_limit := Z.min named_default max_limit in
    match _resolve_limit limit_raw default_limit max_limit with
    | (_, Some error) => Ok (inl error)
    | (limit, None) =>
        bind (query (limit_or limit default_limit)
                (store (world (App.monitor (app site)))))
             (λ rows, Ok (inr rows))
    end)).

Definition api_events : option string → Site → result (string + list EventRow) :=
  limited "api_default_limit" Queries.get_recent_events.

Definition api_failures
  : option string → Site → result (string + list FailureRow) :=
  limited "api_default_limit" Queries.get_recent_failures.

Definition api_history (username : string) (limit_raw : option string)
    (site : Site) : result (string + list SnapshotRow) :=
  match Scraper.normalize_username username with
  | Ok normalized =>
      limited "history_default_limit" (Queries.get_snapshots normalized)
        limit_raw site
  | Raise (TikTokScrapeError _ as exc) => Ok (inl (exn_str exc))
  | Raise exc => Raise exc
  end.

(** *** The save_settings action *)

(** [a > b] on the numbers the limit settings hold. *)
Definition gt (a b : value) : result bool :=
  match as_number a, as_number b with
  | Some x, Some y => Ok (y <? x)%Z
  | _, _ => Raise (TypeError "'>' not supported between these instances")
  end.

(** What the form holds for a key: a checkbox is compared with "1", a text
    field is read with "" for a default and trimmed. *)
Definition form_value (form : gmap string string) (key : string)
    (definition : SettingDef) : value :=
  if String.eqb (type definition) "bool"
  then VBool (bool_decide (form !! key = Some "1"))
  else VStr (strip (from_option id "" (form !! key))).

(** The first loop: [proposed] and [errors] as built so far. *)
Fixpoint validate (e : EnvDefaults) (form : gmap string string)
    (defs : list (string * SettingDef))
    (proposed : list (string * value)) (errors : list string)
  : result (list (string * value) * list string) :=
  match defs with
  | [] => Ok (proposed, errors)
  | (key, definition) :: rest =>
      match _parse_setting_value e key (form_value form key definition) with
      | Ok v => validate e form rest (proposed ++ [(key, v)]) errors
      | Raise exc =>
          if is_value_error exc
          then validate e form rest proposed (errors ++ [exn_str exc])
          else Raise exc
      end
  end.

(** [if not errors and proposed[small] > proposed[large]: errors.append(msg)] *)
Definition cross_check (proposed : list (string * value)) (small large msg : string)
    (errors : list string) : result (list string) :=
  match errors with
  | [] =>
      bind (item proposed small) (λ a,
      bind (item proposed large) (λ b,
      bind (gt a b) (λ too_big,
        Ok (if too_big then (errors ++ [msg])%list else errors))))
  | _ => Ok errors
  end.

(** [", ".join(labels)] *)
Fixpoint join (labels : list string) : string :=
  match labels with
  | [] => ""
  | [l] => l
  | l :: rest => l ++ ", " ++ join rest
  end.

Definition set_interval_seconds (i : Z) (s : Service) : Service :=
  {| world := world s; interval_seconds := i; stop_event := stop_event s;
     run_lock := run_lock s; thread := thread s;
     last_run_started_at := last_run_started_at s;
     last_run_finished_at := last_run_finished_at s;
     last_run_summary := last_run_summary s |}.

(** The second loop, over [proposed.items()], with [settings_state] and
    [restart_required_changes] as they stand. *)
Fixpoint apply_loop (e : EnvDefaults) (env : Env)
    (proposed : list (string * value))
    (state : gmap string value) (changes : list string)
  : M (gmap string value * list string) :=
  match proposed with
  | [] => mret (state, changes)
  | (key, v) :: rest =>
      old ← lift_result (match state !! key with
                         | Some o => Ok o
                         | None => Raise (KeyError key)
                         end);
      definition ← lift_result (item (SETTING_DEFINITIONS e) key);
      let changes' :=
        if negb (eqb old v) && restart_required definition
        then (changes ++ [label definition])%list else changes in
      serialized ← lift_result (_serialize_setting_value e key v);
      store_write env (λ now, set_setting now key serialized);;
      apply_loop e env rest (<[key := v]> state) changes'
  end.

Definition with_flash (msg kind : string) (site : Site) (m : Service)
    (state : gmap string value) : Site :=
  {| app := App.flash msg kind m; settings_state := state |}.

(** action == "save_settings". An exception that escapes the handler is
    returned; the state the process is left in is not. *)
Definition save_settings (e : EnvDefaults) (env : Env)
    (form : gmap string string) (site : Site) : result Site :=
  let m := App.monitor (app site) in
  bind (validate e form (SETTING_DEFINITIONS e) [] []) (λ '(proposed, errors),
  bind (cross_check proposed "api_default_limit" "api_max_limit"
          "API default limit cannot be greater than API max limit." errors)
       (λ errors,
  bind (cross_check proposed "history_default_limit" "api_max_limit"
          "History default limit cannot be greater than API max limit." errors)
       (λ errors,
    match errors with
    | first :: _ => Ok (with_flash first "error" site m (settings_state site))
    | [] =>
        match apply_loop e env proposed (settings_state site) [] m with
        | (Raise exc, _) => Raise exc
        | (Ok (state, changes), m') =>
            bind (match state !! "monitor_interval_seconds" with
                  | Some v => int v
                  | None => Raise (KeyError "monitor_interval_seconds")
                  end) (λ interval,
              let msg :=
                match changes with
                | [] => "Settings saved."
                | _ => "Settings saved." ++ " Restart required for: "
                       ++ join changes ++ "."
                end in
              Ok (with_flash msg "success" site
                    (set_interval_seconds interval m') state))
        end
    end))).

End Settings.

(** ** Notions about the settings *)

Module SettingsInv.
Import Py Storage Monitor.

(** A value a setting may hold: a [bool] for a setting of type bool, an
    [int] within the bounds of its definition for one of type int. *)
Definition valid_value (definition : Settings.SettingDef) (v : value) : bool :=
  if String.eqb (Settings.type definition) "bool" then
    match v with VBool _ => true | _ => false end
  else
    match v with
    | VInt z =>
        from_option (λ lo, (lo <=? z)%Z) true (Settings.min definition)
        && from_option (λ hi, (z <=? hi)%Z) true (Settings.max definition)
    | _ => false
    end.

(** [settings_state] holds a valid value for every defined key. *)
Definition settings_valid (e : Settings.EnvDefaults) (state : gmap string value)
  : Prop :=
  ∀ key definition, (key, definition) ∈ Settings.SETTING_DEFINITIONS e →
    ∃ v, state !! key = Some v ∧ valid_value definition v = true.

(** The environment defaults lie within the bounds of their definitions. *)
Definition defaults_valid (e : Settings.EnvDefaults) : bool :=
  ((1 <=? Settings.ENV_DEFAULT_PORT e)
   && (Settings.ENV_DEFAULT_PORT e <=? 65535)
   && (30 <=? Settings.ENV_DEFAULT_MONITOR_INTERVAL_SECONDS e)
   && (Settings.ENV_DEFAULT_MONITOR_INTERVAL_SECONDS e <=? 86400))%Z.

(** What a list endpoint may answer when the largest limit allowed is
    [max_limit], the query string holds [limit_raw] and [all] are the rows it
    selects from, oldest first: the [n] newest rows, newest first, where [n]
    is the limit asked for if there is one; or an error, and then only for a
    limit that is no integer between 1 and [max_limit]. *)
Definition page {A} (max_limit default_limit : Z) (limit_raw : option string)
    (all : list A) (response : result (string + list A)) : Prop :=
  match response with
  | Ok (inr rows) =>
      ∃ n, (1 ≤ n ≤ max_limit)%Z
        ∧ rows = take (Z.to_nat n) (reverse all)
        ∧ match limit_raw with
          | Some raw => if String.eqb raw "" then n = default_limit
                        else int_of_str raw = Some n
          | None => n = default_limit
          end
  | Ok (inl _) =>
      ∃ raw, limit_raw = Some raw ∧ raw ≠ ""
        ∧ ∀ n, int_of_str raw = Some n → ¬ (1 ≤ n ≤ max_limit)%Z
  | Raise _ => False
  end.

Definition sample_defaults : Settings.EnvDefaults :=
  {| Settings.ENV_DEFAULT_PORT := 8000;
     Settings.ENV_DEFAULT_DEBUG_MODE := true;
     Settings.ENV_DEFAULT_MONITOR_INTERVAL_SECONDS := 900;
     Settings.ENV_DEFAULT_AUTO_START_MONITOR := true |}.

(** What the submitted form proposes for a setting: the parsed value, or
    the error raised for it. *)
Definition proposed_value (e : Settings.EnvDefaults) (form : gmap string string)
    (kd : string * Settings.SettingDef) : result value :=
  Settings._parse_setting_value e kd.1 (Settings.form_value form kd.1 kd.2).

(** The limit settings respect each other: neither default exceeds the
    maximum. *)
Definition limits_ordered (state : gmap string value) : Prop :=
  ∃ api_default history_default max_limit,
    state !! "api_default_limit" = Some (VInt api_default)
    ∧ state !! "history_default_limit" = Some (VInt history_default)
    ∧ state !! "api_max_limit" = Some (VInt max_limit)
    ∧ (api_default ≤ max_limit)%Z ∧ (history_default ≤ max_limit)%Z.

(** Why a form is rejected, with the message shown: the first field, in the
    order of the definitions, whose value does not parse; or, every field
    having parsed, a default limit greater than the maximum. *)
Definition rejected (e : Settings.EnvDefaults) (form : gmap string string)
    (msg : string) : Prop :=
  (∃ before kd after exc,
     Settings.SETTING_DEFINITIONS e = (before ++ kd :: after)%list
     ∧ Forall (λ kd', ∃ v, proposed_value e form kd' = Ok v) before
     ∧ proposed_value e form kd = Raise exc ∧ msg = exn_str exc)
  ∨ (Forall (λ kd, ∃ v, proposed_value e form kd = Ok v)
       (Settings.SETTING_DEFINITIONS e)
     ∧ ∃ small d_small d_large lo hi,
         (small, d_small) ∈ Settings.SETTING_DEFINITIONS e
         ∧ ("api_max_limit", d_large) ∈ Settings.SETTING_DEFINITIONS e
         ∧ proposed_value e form (small, d_small) = Ok (VInt lo)
         ∧ proposed_value e form ("api_max_limit", d_large) = Ok (VInt hi)
         ∧ (hi < lo)%Z
         ∧ ((small = "api_default_limit"
             ∧ msg = "API default limit cannot be greater than API max limit.")
            ∨ (small = "history_default_limit"
               ∧ msg = "History default limit cannot be greater than API max limit."))).

(** The settings a first start with [sample_defaults] ends up with, and a
    process holding them over the sample database. *)
Definition sample_state : gmap string value :=
  list_to_map
    [ ("app_port", VInt 8000); ("debug_mode", VBool true);
      ("monitor_interval_seconds", VInt 900);
      ("auto_start_monitor", VBool true);
      ("dashboard_events_limit", VInt 30);
      ("dashboard_failures_limit", VInt 20);
      ("api_default_limit", VInt 100); ("api_max_limit", VInt 500);
      ("history_default_limit", VInt 100) ].

Definition sample_site : Settings.Site :=
  {| Settings.app := {| App.monitor := Samples.service false None;
                        App.flash_msg := None; App.flash_kind := None |};
     Settings.settings_state := sample_state |}.

(** A settings form that shortens the interval to a minute and leaves the
    debug checkbox unticked. *)
Definition sample_form : gmap string string :=
  list_to_map
    [ ("app_port", "8000"); ("monitor_interval_seconds", " 60 ");
      ("auto_start_monitor", "1"); ("dashboard_events_limit", "30");
      ("dashboard_failures_limit", "20"); ("api_default_limit", "100");
      ("api_max_limit", "500"); ("history_default_limit", "100") ].

End SettingsInv.

(** ** [app.py]: what the dashboard shows *)

Module Dashboard.
Import Py Storage Monitor.

(** A row of [_settings_view_model]. *)
Record SettingsRow : Type := {
  r_key : string;
  r_label : string;
  r_type : string;
  r_description : string;
  r_restart_required : bool;
  r_value : value;
  r_min : option Z;
  r_max : option Z }.

(** [for key in SETTINGS_ORDER: rows.append(...)] *)
Fixpoint settings_rows (e : Settings.EnvDefaults) (state : gmap string value)
    (keys : list string) : result (list SettingsRow) :=
  match keys with
  | [] => Ok []
  | key :: rest =>
      bind (Settings.item (Settings.SETTING_DEFINITIONS e) key) (λ definition,
      bind (match state !! key with
            | Some v => Ok v
            | None => Raise (KeyError key)
            end) (λ v,
      bind (settings_rows e state rest) (λ rows,
        Ok ({| r_key := key;
               r_label := Settings.label definition;
               r_type := Settings.type definition;
               r_description := Settings.description definition;
               r_restart_required := Settings.restart_required definition;
               r_value := v;
               r_min := Settings.min definition;
               r_max := Settings.max definition |} :: rows))))
  end.

Definition _settings_view_model (e : Settings.EnvDefaults)
    (state : gmap string value) : result (list SettingsRow) :=
  settings_rows e state (Settings.SETTINGS_ORDER e).

(** [TikTokMonitorService.status] *)
Record Status : Type := {
  st_running : bool;
  st_interval_seconds : Z;
  st_last_run_started_at : option string;
  st_last_run_finished_at : option string;
  st_last_run_summary : option Summary }.

Definition status (s : Service) : Status :=
  {| st_running := is_running s;
     st_interval_seconds := interval_seconds s;
     st_last_run_started_at := last_run_started_at s;
     st_last_run_finished_at := last_run_finished_at s;
     st_last_run_summary := last_run_summary s |}.

(** The dictionary [_dashboard_context] hands to the template. *)
Record View : Type := {
  c_watchlist : list Queries.LatestRow;
  c_events : list EventRow;
  c_failures : list FailureRow;
  c_monitor_status : Status;
  c_settings_rows : list SettingsRow }.

Definition _dashboard_context (e : Settings.EnvDefaults) (site : Settings.Site)
  : result View :=
  let m := App.monitor (Settings.app site) in
  let d := store (world m) in
  let watchlist := Queries.list_watch_accounts_with_latest d in
  bind (Settings._get_setting_limit "dashboard_events_limit" site) (λ limit,
  bind (Queries.get_recent_events limit d) (λ events,
  bind (Settings._get_setting_limit "dashboard_failures_limit" site) (λ limit,
  bind (Queries.get_recent_failures limit d) (λ failures,
  let monitor_status := status m in
  bind (_settings_view_model e (Settings.settings_state site)) (λ rows,
    Ok {| c_watchlist := watchlist; c_events := events;
          c_failures := failures; c_monitor_status := monitor_status;
          c_settings_rows := rows |}))))).

(** The value a settings row shows lies within the bounds it shows. *)
Definition row_in_bounds (row : SettingsRow) : bool :=
  match r_value row with
  | VBool _ => String.eqb (r_type row) "bool"
  | VInt z =>
      String.eqb (r_type row) "int"
      && from_option (λ lo, (lo <=? z)%Z) true (r_min row)
      && from_option (λ hi, (z <=? hi)%Z) true (r_max row)
  | _ => false
  end.

End Dashboard.

(** ** [scraper.py]: reading the profile out of the page's JSON payload *)

Module Payload.
Import Py.

Section Json.

(** What [json.loads] builds. A [dict] is the list of its items in insertion
    order. Of a [float] the code only ever asks whether it is zero, so
    floats are any type [F] with that test. *)
Context {F : Type} (float_truthy : F → bool).

#[warnings="-register-all"]
Inductive json : Type :=
| JNull
| JBool (b : bool)
| JInt (z : Z)
| JFloat (f : F)
| JStr (s : string)
| JList (l : list json)
| JDict (items : list (string * json)).

Definition dict : Type := list (string * json).

(** [bool(v)] *)
Definition truthy (v : json) : bool :=
  match v with
  | JNull => false
  | JBool b => b
  | JInt z => negb (z =? 0)%Z
  | JFloat f => float_truthy f
  | JStr s => negb (String.eqb s "")
  | JList l => match l with [] => false | _ => true end
  | JDict d => match d with [] => false | _ => true end
  end.

(** [d.get(key)], with [None] for a missing key. *)
Definition dict_get (d : dict) (key : string) : json :=
  match List.find (λ kv, String.eqb kv.1 key) d with
  | Some kv => kv.2
  | None => JNull
  end.

(** [d.get(key, default)] *)
Definition dict_get_or (d : dict) (key : string) (default : json) : json :=
  match List.find (λ kv, String.eqb kv.1 key) d with
  | Some kv => kv.2
  | None => default
  end.

(** [_walk]: the dictionaries the generator yields, in the order it yields
    them. *)
Fixpoint _walk (node : json) : list dict :=
  match node with
  | JDict items => items :: flat_map (λ kv, _walk kv.2) items
  | JList l => flat_map _walk l
  | _ => []
  end.

(** The body of the loop of [_extract_user_and_stats] for one candidate:
    what it returns, if it does. *)
Definition user_and_stats_of (candidate : dict) : option (dict * dict) :=
  let nested :=
    match dict_get candidate "userInfo" with
    | JDict user_info =>
        let user := dict_get_or user_info "user" (JDict []) in
        let stats := dict_get_or user_info "stats" (JDict []) in
        match user with
        | JDict u =>
            if truthy (dict_get u "uniqueId")
            then Some (u, match stats with JDict st => st | _ => [] end)
            else None
        | _ => None
        end
    | _ => None
    end in
  match nested with
  | Some found => Some found
  | None =>
      let user := dict_get candidate "user" in
      let stats := dict_get candidate "stats" in
      match user, stats with
      | JDict u, JDict st =>
          if truthy (dict_get u "uniqueId") then Some (u, st) else None
      | _, _ => None
      end
  end.

Fixpoint first_user_and_stats (candidates : list dict) : result (dict * dict) :=
  match candidates with
  | [] => Raise (TikTokScrapeError
                   "Could not find TikTok account details in payload.")
  | candidate :: rest =>
      match user_and_stats_of candidate with
      | Some found => Ok found
      | None => first_user_and_stats rest
      end
  end.

Definition _extract_user_and_stats (payload : dict) : result (dict * dict) :=
  first_user_and_stats (_walk (JDict payload)).

(** An entry of [recent_videos]. *)
Record Video : Type := {
  v_id : json;
  v_description : json;
  v_play_count : json;
  v_digg_count : json;
  v_comment_count : json;
  v_share_count : json }.

(** [for item in item_module.values(): ...] *)
Fixpoint videos_of (items : dict) : list Video :=
  match items with
  | [] => []
  | (_, JDict item) :: rest =>
      let stats := match dict_get_or item "stats" (JDict []) with
                   | JDict st => st
                   | _ => []
                   end in
      {| v_id := dict_get item "id";
         v_description := dict_get_or item "desc" (JStr "");
         v_play_count := dict_get stats "playCount";
         v_digg_count := dict_get stats "diggCount";
         v_comment_count := dict_get stats "commentCount";
         v_share_count := dict_get stats "shareCount" |} :: videos_of rest
  | _ :: rest => videos_of rest
  end.

(** [l[:limit]] *)
Definition slice_to {A} (limit : Z) (l : list A) : list A :=
  if (limit <? 0)%Z then take (length l - Z.to_nat (- limit)) l
  else take (Z.to_nat limit) l.

Fixpoint first_videos (candidates : list dict) (limit : Z) : list Video :=
  match candidates with
  | [] => []
  | candidate :: rest =>
      match dict_get candidate "itemModule" with
      | JDict ((_ :: _) as item_module) =>
          match videos_of item_module with
          | [] => first_videos rest limit
          | videos => slice_to limit videos
          end
      | _ => first_videos rest limit
      end
  end.

Definition _extract_recent_videos (payload : dict) (limit : Z) : list Video :=
  first_videos (_walk (JDict payload)) limit.

(** The dictionary [fetch_tiktok_profile] returns. *)
Record Profile : Type := {
  p_username : json;
  p_nickname : json;
  p_bio : json;
  p_verified : bool;
  p_followers : json;
  p_following : json;
  p_likes : json;
  p_videos_count : json;
  p_profile_url : string;
  p_recent_videos : list Video }.

(** [fetch_tiktok_profile] from the payload on: what it makes of the payload
    of the page of the handle [normalized]. *)
Definition profile_of_payload (normalized : string) (payload : dict)
  : result Profile :=
  bind (_extract_user_and_stats payload) (λ '(user, stats),
    Ok {| p_username := dict_get_or user "uniqueId" (JStr normalized);
          p_nickname := dict_get user "nickname";
          p_bio := dict_get user "signature";
          p_verified := truthy (dict_get user "verified");
          p_followers := dict_get stats "followerCount";
          p_following := dict_get stats "followingCount";
          p_likes := dict_get stats "heartCount";
          p_videos_count := dict_get stats "videoCount";
          p_profile_url := "https://www.tiktok.com/@" ++ normalized;
          p_recent_videos := _extract_recent_videos payload 8 |}).

(** A dictionary occurs in a JSON value: it is the value itself, or occurs
    in an element of the list or in a value of the dictionary that the
    value is. *)
Inductive occurs (d : dict) : json → Prop :=
| occurs_here : occurs d (JDict d)
| occurs_item (l : list json) (x : json) :
    x ∈ l → occurs d x → occurs d (JList l)
| occurs_value (items : dict) (key : string) (x : json) :
    (key, x) ∈ items → occurs d x → occurs d (JDict items).

End Json.

Arguments json F : clear implicits.
Arguments dict F : clear implicits.
Arguments Video F : clear implicits.
Arguments Profile F : clear implicits.

Section Fetch.

(** What the functions below call and cannot compute: [Fetcher.get], which
    answers with a page or raises, a page being what
    [page.css(selector).get()] finds in it, and [json.loads]. *)
Context {F : Type} (float_truthy : F → bool).
Context (fetcher_get : string → result (string → option string)).
Context (loads : string → result (json F)).

Definition selectors : list string :=
  [ "script#__UNIVERSAL_DATA_FOR_REHYDRATION__::text";
    "script#SIGI_STATE::text";
    "script#__NEXT_DATA__::text" ].

(** [except json.JSONDecodeError] *)
Definition is_json_decode_error (exc : exn) : bool :=
  match exc with
  | OtherException cls _ => String.eqb cls "JSONDecodeError"
  | _ => false
  end.

(** [for selector in selectors: ...] *)
Fixpoint first_payload (page : string → option string) (todo : list string)
  : result (dict F) :=
  match todo with
  | [] => Raise (TikTokScrapeError
                   "Could not read TikTok profile payload from page.")
  | selector :: rest =>
      match page selector with
      | None => first_payload page rest
      | Some raw_payload =>
          if String.eqb raw_payload "" then first_payload page rest
          else
            match loads raw_payload with
            | Ok (JDict loaded) => Ok loaded
            | Ok _ => first_payload page rest
            | Raise exc =>
                if is_json_decode_error exc then first_payload page rest
                else Raise exc
            end
      end
  end.

Definition _extract_payload (page : string → option string) : result (dict F) :=
  first_payload page selectors.

Definition fetch_tiktok_profile (username : string) : result (Profile F) :=
  bind (Scraper.normalize_username username) (λ normalized,
  bind (fetcher_get ("https://www.tiktok.com/@" ++ normalized)) (λ page,
  bind (_extract_payload page) (λ payload,
    profile_of_payload float_truthy normalized payload))).

End Fetch.

(** A payload in the shape of the page's rehydration data, with the
    account two levels down and two videos beside it. *)
Definition sample_payload : dict unit :=
  [ ("__DEFAULT_SCOPE__",
     JDict
       [ ("webapp.user-detail",
          JDict
            [ ("userInfo",
               JDict
                 [ ("user", JDict [ ("uniqueId", JStr "alice");
                                    ("nickname", JStr "Alice") ]);
                   ("stats", JDict [ ("followerCount", JInt 100) ]) ]) ]);
         ("itemModule",
          JDict
            [ ("7001", JDict [ ("id", JStr "7001"); ("desc", JStr "first");
                               ("stats", JDict [ ("playCount", JInt 5) ]) ]);
              ("7002", JDict [ ("id", JStr "7002") ]) ]) ]) ].

End Payload.

(** * Properties *)

Import Py Storage Monitor.

Local Open Scope list_scope.

(** ** Lists *)

Lemma filter_all {A} (P : A → Prop) `{!∀ x, Decision (P x)} (l : list A) :
  (∀ x, x ∈ l → P x) → filter P l = l.
Proof.
  induction l as [|x l IH]; intros Hall; [done|].
  rewrite filter_cons_True by (apply Hall; left).
  f_equal. apply IH. intros y Hy. apply Hall. by right.
Qed.

Lemma filter_none {A} (P : A → Prop) `{!∀ x, Decision (P x)} (l : list A) :
  (∀ x, x ∈ l → ¬ P x) → filter P l = [].
Proof.
  induction l as [|x l IH]; intros Hall; [done|].
  rewrite filter_cons_False by (apply Hall; left).
  apply IH. intros y Hy. apply Hall. by right.
Qed.

(** ** The change detector *)

Section Detector.
Variables previous current : gmap string value.

Lemma _as_int_total (v : value) : ∃ o, _as_int v = Ok o.
Proof.
  destruct v as [|b|z|s]; simpl; eauto.
  destruct (int_of_str s); eauto.
Qed.

Lemma numeric_loop_steps (fields : list string) (acc : list Event) :
  numeric_loop fields previous current acc
  = Ok (acc ++ flat_map (Spec.numeric_step previous current) fields)%list.
Proof.
  revert acc. induction fields as [|f fs IH]; intros acc; simpl.
  - by rewrite app_nil_r.
  - unfold Spec.numeric_step.
    destruct (_as_int_total (get previous f)) as [o1 ->].
    destruct (_as_int_total (get current f)) as [o2 ->]. simpl.
    destruct o1 as [a|], o2 as [b|]; try apply IH.
    destruct (a =? b)%Z; [apply IH|].
    rewrite IH. by rewrite <- app_assoc.
Qed.

Lemma text_loop_steps (fields : list string) (acc : list Event) :
  text_loop fields previous current acc
  = (acc ++ flat_map (Spec.text_step previous current) fields)%list.
Proof.
  revert acc. induction fields as [|f fs IH]; intros acc; simpl.
  - by rewrite app_nil_r.
  - unfold Spec.text_step.
    destruct (eqb (get previous f) (get current f)); [apply IH|].
    rewrite IH. by rewrite <- app_assoc.
Qed.

Lemma boolean_loop_steps (fields : list string) (acc : list Event) :
  boolean_loop fields previous current acc
  = (acc ++ flat_map (Spec.boolean_step previous current) fields)%list.
Proof.
  revert acc. induction fields as [|f fs IH]; intros acc; simpl.
  - by rewrite app_nil_r.
  - unfold Spec.boolean_step.
    destruct (Bool.eqb _ _); [apply IH|].
    rewrite IH. by rewrite <- app_assoc.
Qed.

(** The detector is total on a present [previous], and its result is the
    concatenation of what the three loops contribute. *)
Lemma detect_profile_changes_steps :
  detect_profile_changes (Some previous) current
  = Ok (flat_map (Spec.numeric_step previous current) NUMERIC_FIELDS
        ++ flat_map (Spec.text_step previous current) TEXT_FIELDS
        ++ flat_map (Spec.boolean_step previous current) BOOLEAN_FIELDS)%list.
Proof.
  unfold detect_profile_changes.
  rewrite numeric_loop_steps. cbn [bind].
  rewrite boolean_loop_steps, text_loop_steps.
  by rewrite app_nil_l, <- app_assoc.
Qed.

Lemma numeric_step_metric (f : string) (e : Event) :
  e ∈ Spec.numeric_step previous current f → metric e = f.
Proof.
  unfold Spec.numeric_step.
  destruct (_as_int (get previous f)) as [[a|]|]; try by inversion 1.
  destruct (_as_int (get current f)) as [[b|]|]; try by inversion 1.
  destruct (a =? b)%Z; [by inversion 1|].
  intros ->%list_elem_of_singleton. done.
Qed.

Lemma text_step_metric (f : string) (e : Event) :
  e ∈ Spec.text_step previous current f → metric e = f.
Proof.
  unfold Spec.text_step. destruct (eqb _ _); [by inversion 1|].
  intros ->%list_elem_of_singleton. done.
Qed.

Lemma boolean_step_metric (f : string) (e : Event) :
  e ∈ Spec.boolean_step previous current f → metric e = f.
Proof.
  unfold Spec.boolean_step. destruct (Bool.eqb _ _); [by inversion 1|].
  intros ->%list_elem_of_singleton. done.
Qed.

Lemma filter_metric_flat_map (step : string → list Event) (field : string)
    (fields : list string) :
  (∀ f e, e ∈ step f → metric e = f) →
  filter (λ e, metric e = field) (flat_map step fields)
  = flat_map step (filter (λ f, f = field) fields).
Proof.
  intros Hm. induction fields as [|f fs IH]; [done|].
  simpl. rewrite filter_app, IH, filter_cons.
  destruct (decide (f = field)) as [->|Hne]; simpl.
  - f_equal. apply filter_all. intros e He. by apply Hm.
  - rewrite filter_none; [done|].
    intros e He Heq. apply Hne. rewrite <- Heq. symmetry. by apply Hm.
Qed.

End Detector.

(** C7: with no previous snapshot the detector returns the empty list,
    whatever the current snapshot holds. *)
Theorem C7_first_observation_reports_nothing (current : gmap string value) :
  detect_profile_changes None current = Ok [].
Proof. reflexivity. Qed.

(** [_as_int] converts exactly the values that parse as an integer, to the
    integer they parse to, and never raises. *)
Lemma _as_int_parsed (v : value) : _as_int v = Ok (Spec.parsed_integer v).
Proof.
  destruct v as [|b|z|s]; try reflexivity.
  unfold _as_int, int, Spec.parsed_integer. by destruct (int_of_str s).
Qed.

(** C2: for every numeric field of every pair of snapshots, the detector
    returns a list in which (i) no event carries that field's name when one
    side does not parse as an integer, whatever the two texts are, and
    (ii) exactly one event carries it when the sides parse to different
    integers [a] and [b], with old value [a], new value [b] and delta
    [b - a]. Parsing is Python's [int()] on the field's value, stated
    without the detector's own conversion. *)
Theorem C2_numeric_field_events
    (previous current : gmap string value) (field : string) :
  field ∈ NUMERIC_FIELDS →
  ∃ evs, detect_profile_changes (Some previous) current = Ok evs ∧
    ((Spec.parsed_integer (get previous field) = None
      ∨ Spec.parsed_integer (get current field) = None) →
     ∀ e, e ∈ evs → metric e ≠ field) ∧
    (∀ a b : Z,
       Spec.parsed_integer (get previous field) = Some a →
       Spec.parsed_integer (get current field) = Some b →
       a ≠ b →
       filter (λ e, metric e = field) evs
       = [ {| metric := field; old_value := VInt a; new_value := VInt b;
              delta := VInt (b - a);
              message := numeric_message field a b (b - a) |} ]).
Proof.
  intros Hfield. eexists. split; [apply detect_profile_changes_steps|].
  assert (Hsel : filter (λ e, metric e = field)
            (flat_map (Spec.numeric_step previous current) NUMERIC_FIELDS
             ++ flat_map (Spec.text_step previous current) TEXT_FIELDS
             ++ flat_map (Spec.boolean_step previous current) BOOLEAN_FIELDS)
          = Spec.numeric_step previous current field).
  { rewrite !filter_app.
    rewrite (filter_metric_flat_map _ _ _ (numeric_step_metric previous current)).
    rewrite (filter_metric_flat_map _ _ _ (text_step_metric previous current)).
    rewrite (filter_metric_flat_map _ _ _ (boolean_step_metric previous current)).
    unfold NUMERIC_FIELDS in Hfield.
    repeat (apply elem_of_cons in Hfield as [->|Hfield]);
      [..|by apply elem_of_nil in Hfield];
      vm_compute filter; simpl; by rewrite !app_nil_r. }
  split.
  - intros Hnone e He Hm.
    assert (Hin : e ∈ Spec.numeric_step previous current field).
    { rewrite <- Hsel. apply list_elem_of_filter. done. }
    unfold Spec.numeric_step in Hin. rewrite !_as_int_parsed in Hin.
    destruct Hnone as [Hn | Hn]; rewrite Hn in Hin;
      [by apply elem_of_nil in Hin|].
    destruct (Spec.parsed_integer (get previous field));
      by apply elem_of_nil in Hin.
  - intros a b Ha Hb Hab. rewrite Hsel.
    unfold Spec.numeric_step. rewrite !_as_int_parsed, Ha, Hb.
    destruct (Z.eqb_spec a b); [done|]. reflexivity.
Qed.

Lemma C2_numeric_field_events_witness :
  ("followers" ∈ NUMERIC_FIELDS ∧
   ∃ evs,
     detect_profile_changes (Some (Samples.texts "100" "n/a"))
       (Samples.texts " 150" "12") = Ok evs ∧
     filter (λ e, metric e = "followers") evs
     = [ {| metric := "followers"; old_value := VInt 100; new_value := VInt 150;
            delta := VInt 50;
            message := "followers changed from 100 to 150 (+50)." |} ])
  ∧ ("videos_count" ∈ NUMERIC_FIELDS ∧
     Spec.parsed_integer (get (Samples.texts "100" "n/a") "videos_count") = None ∧
     ∃ evs,
       detect_profile_changes (Some (Samples.texts "100" "n/a"))
         (Samples.texts " 150" "12") = Ok evs ∧
       ∀ e, e ∈ evs → metric e ≠ "videos_count").
Proof.
  assert (Hf : "followers" ∈ NUMERIC_FIELDS) by left.
  assert (Hv : "videos_count" ∈ NUMERIC_FIELDS) by (do 3 right; left).
  split.
  - split; [exact Hf|].
    destruct (C2_numeric_field_events (Samples.texts "100" "n/a")
                (Samples.texts " 150" "12") "followers" Hf)
      as (evs & Hd & _ & Hx).
    exists evs. split; [exact Hd|].
    apply (Hx 100 150)%Z; [reflexivity | reflexivity | discriminate].
  - split; [exact Hv|]. split; [reflexivity|].
    destruct (C2_numeric_field_events (Samples.texts "100" "n/a")
                (Samples.texts " 150" "12") "videos_count" Hv)
      as (evs & Hd & Hnone & _).
    exists evs. split; [exact Hd|].
    apply Hnone. left. reflexivity.
Defined.

Section DetectorOrder.
Variables previous current : gmap string value.

Lemma numeric_step_at_most_one :
  Spec.at_most_one (Spec.numeric_step previous current).
Proof.
  intros f. unfold Spec.numeric_step.
  destruct (_as_int (get previous f)) as [[a|]|]; auto.
  destruct (_as_int (get current f)) as [[b|]|]; auto.
  destruct (a =? b)%Z; eauto.
Qed.

Lemma text_step_at_most_one : Spec.at_most_one (Spec.text_step previous current).
Proof. intros f. unfold Spec.text_step. destruct (eqb _ _); eauto. Qed.

Lemma boolean_step_at_most_one :
  Spec.at_most_one (Spec.boolean_step previous current).
Proof. intros f. unfold Spec.boolean_step. destruct (Bool.eqb _ _); eauto. Qed.

Lemma metrics_sublist (step : string → list Event) (fields : list string) :
  Spec.at_most_one step →
  map metric (flat_map step fields) `sublist_of` fields.
Proof.
  intros Hone. induction fields as [|f fs IH]; simpl; [constructor|].
  destruct (Hone f) as [-> | (e & -> & <-)]; simpl.
  - by apply sublist_cons.
  - by apply sublist_skip.
Qed.

End DetectorOrder.

(** C6: for every pair of snapshots with previous present, the detector
    returns its events in the fixed evaluation order: their metrics, read in
    output order, are picked from followers, following, likes, videos_count,
    nickname, bio, verified without reordering; in particular, when
    followers, bio and verified all change, these three events come out as
    followers, then bio, then verified. *)
Theorem C6_event_order (previous current : gmap string value) :
  ∃ evs, detect_profile_changes (Some previous) current = Ok evs ∧
    map metric evs `sublist_of`
      ["followers"; "following"; "likes"; "videos_count";
       "nickname"; "bio"; "verified"] ∧
    ((∃ a b : Z, _as_int (get previous "followers") = Ok (Some a)
                 ∧ _as_int (get current "followers") = Ok (Some b) ∧ a ≠ b) →
     eqb (get previous "bio") (get current "bio") = false →
     truthy (get previous "verified") ≠ truthy (get current "verified") →
     filter (λ m, m ∈ ["followers"; "bio"; "verified"]) (map metric evs)
     = ["followers"; "bio"; "verified"]).
Proof.
  eexists. split; [apply detect_profile_changes_steps|]. split.
  - rewrite !map_app.
    change ["followers"; "following"; "likes"; "videos_count";
            "nickname"; "bio"; "verified"]
      with (NUMERIC_FIELDS ++ TEXT_FIELDS ++ BOOLEAN_FIELDS).
    repeat apply sublist_app; apply metrics_sublist.
    + apply numeric_step_at_most_one.
    + apply text_step_at_most_one.
    + apply boolean_step_at_most_one.
  - intros (a & b & Ha & Hb & Hab) Hbio Hver.
    unfold NUMERIC_FIELDS, TEXT_FIELDS, BOOLEAN_FIELDS. cbn [flat_map].
    assert (Hfol : Spec.numeric_step previous current "followers"
                   = [numeric_event "followers" a b]).
    { unfold Spec.numeric_step. rewrite Ha, Hb.
      by destruct (Z.eqb_spec a b). }
    assert (Hb' : Spec.text_step previous current "bio"
                  = [text_event "bio" (get previous "bio") (get current "bio")]).
    { unfold Spec.text_step. by rewrite Hbio. }
    assert (Hv : Spec.boolean_step previous current "verified"
                 = [boolean_event "verified" (truthy (get previous "verified"))
                      (truthy (get current "verified"))]).
    { unfold Spec.boolean_step.
      destruct (truthy (get previous "verified")),
               (truthy (get current "verified")); simpl; congruence. }
    rewrite Hfol, Hb', Hv.
    destruct (numeric_step_at_most_one previous current "following")
      as [-> | (e1 & -> & He1)];
    destruct (numeric_step_at_most_one previous current "likes")
      as [-> | (e2 & -> & He2)];
    destruct (numeric_step_at_most_one previous current "videos_count")
      as [-> | (e3 & -> & He3)];
    destruct (text_step_at_most_one previous current "nickname")
      as [-> | (e4 & -> & He4)];
    cbn [app map numeric_event text_event boolean_event metric];
    rewrite ?He1, ?He2, ?He3, ?He4; reflexivity.
Qed.

Lemma C6_event_order_witness :
  ∃ evs,
    detect_profile_changes (Some Samples.alice_100) Samples.alice_rebranded
    = Ok evs ∧
    filter (λ m, m ∈ ["followers"; "bio"; "verified"]) (map metric evs)
    = ["followers"; "bio"; "verified"].
Proof.
  destruct (C6_event_order Samples.alice_100 Samples.alice_rebranded)
    as (evs & Hd & _ & Hx).
  exists evs. split; [exact Hd|]. apply Hx.
  - exists 100%Z, 150%Z. repeat split; discriminate.
  - reflexivity.
  - discriminate.
Defined.

(** ** The registry rows *)

Section Registry.
Variable f : WatchRow → WatchRow.
Hypothesis f_username : ∀ r, w_username (f r) = w_username r.

Lemma find_account_update_same (username : string) (rows : list WatchRow) :
  find_account username
    (map (λ r, if String.eqb (w_username r) username then f r else r) rows)
  = f <$> find_account username rows.
Proof.
  unfold find_account. induction rows as [|r rows IH]; [done|]. simpl.
  destruct (String.eqb (w_username r) username) eqn:E; simpl.
  - by rewrite f_username, E.
  - by rewrite E.
Qed.

Lemma find_account_update_other (username other : string) (rows : list WatchRow) :
  other ≠ username →
  find_account other
    (map (λ r, if String.eqb (w_username r) username then f r else r) rows)
  = find_account other rows.
Proof.
  intros Hne. unfold find_account. induction rows as [|r rows IH]; [done|]. simpl.
  destruct (String.eqb (w_username r) username) eqn:E; simpl.
  - rewrite f_username. apply String.eqb_eq in E.
    destruct (String.eqb_spec (w_username r) other); [congruence|done].
  - by destruct (String.eqb (w_username r) other).
Qed.

End Registry.

Lemma find_account_app (username : string) (rows : list WatchRow) (r : WatchRow) :
  find_account username (rows ++ [r])
  = match find_account username rows with
    | Some x => Some x
    | None => if String.eqb (w_username r) username then Some r else None
    end.
Proof.
  unfold find_account. induction rows as [|x rows IH]; simpl; [done|].
  by destruct (String.eqb (w_username x) username).
Qed.

Lemma set_checked_username (t : string) (err : option string) (r : WatchRow) :
  w_username (set_checked t err r) = w_username r.
Proof. done. Qed.

Lemma set_active_username (a : Z) (r : WatchRow) :
  w_username (set_active a r) = w_username r.
Proof. done. Qed.

(** After the upsert that ignores conflicts and the bookkeeping UPDATE, the
    row of [username] exists, keeps what it had (or is the fresh active row)
    and carries the new check time and error; every other row is as before. *)
Lemma bookkeeping_lookup (username now : string) (err : option string)
    (other : string) (d : DB) :
  find_account other
    (watch_accounts
       (snd (update_account (set_checked now err) username
               (snd (insert_account_do_nothing username now d)))))
  = if decide (other = username) then
      Some (set_checked now err
              (default (new_account username now)
                 (find_account username (watch_accounts d))))
    else find_account other (watch_accounts d).
Proof.
  unfold insert_account_do_nothing, update_account. simpl.
  destruct (decide (other = username)) as [->|Hne].
  - rewrite (find_account_update_same _ (set_checked_username now err)).
    destruct (find_account username (watch_accounts d)) as [r|] eqn:E; simpl.
    + by rewrite E.
    + rewrite find_account_app, E. simpl. by rewrite String.eqb_refl.
  - rewrite (find_account_update_other _ (set_checked_username now err)) by done.
    destruct (find_account username (watch_accounts d)) as [r|] eqn:E; simpl;
      [done|].
    rewrite find_account_app. destruct (find_account other _); [done|]. simpl.
    destruct (String.eqb_spec username other); [congruence|done].
Qed.

(** ** [run_once] and [check_account] *)

Lemma run_cycle_status (env : Env) (s s' : Service) (m : Summary) :
  run_cycle env s = (Ok m, s') → status m = "ok".
Proof.
  unfold run_cycle, mbind, m_mbind, m_bind, store_read, modify, mret, m_mret.
  destruct (check_loop env _ 0 0 s) as [[counts|e] s1]; [|discriminate].
  by intros [= <- _].
Qed.

(** C1: while the run guard is held, [run_once] returns the busy summary and
    the very state it was called in: no account is checked, nothing is written
    to the store or its journal, no clock or fetch call is made, and the
    last-run timestamps and summary stay as they were. The busy summary cannot
    be mistaken for the summary of a cycle that ran, whose status is never
    busy. *)
Theorem C1_run_once_busy (env : Env) (s : Service) :
  run_lock s = true →
  run_once env s = (Ok busy_summary, s)
  ∧ status busy_summary = "busy"
  ∧ ∀ env' s0 m s1,
      run_lock s0 = false → run_once env' s0 = (Ok m, s1) → status m ≠ "busy".
Proof.
  intros Hheld. split; [|split].
  - unfold run_once. by rewrite Hheld.
  - reflexivity.
  - intros env' s0 m s1 Hfree. unfold run_once. rewrite Hfree.
    unfold utc_now_iso.
    destruct (run_cycle env' _) as [r s2] eqn:Hcycle.
    intros [= -> _]. apply run_cycle_status in Hcycle. by rewrite Hcycle.
Qed.

Lemma C1_run_once_busy_witness :
  run_lock (Samples.service true (Some true)) = true ∧
  run_once Samples.env (Samples.service true (Some true))
  = (Ok busy_summary, Samples.service true (Some true)).
Proof.
  split; [reflexivity|].
  apply (C1_run_once_busy Samples.env (Samples.service true (Some true))).
  reflexivity.
Defined.

(** What [record_failure] does to the store, in one commit. *)
Lemma record_failure_effect (now username error : string) (d : DB) :
  let o := record_failure now username error d in
  out o = Ok () ∧ committed o = [final o]
  ∧ failures (final o)
    = failures d ++ [{| f_id := seq_failures d + 1; f_username := username;
                        f_checked_at := now; f_error := error |}]
  ∧ snapshots (final o) = snapshots d
  ∧ events (final o) = events d
  ∧ settings (final o) = settings d
  ∧ ∀ other,
      find_account other (watch_accounts (final o))
      = if decide (other = username) then
          Some (set_checked now (Some error)
                  (default (new_account username now)
                     (find_account username (watch_accounts d))))
        else find_account other (watch_accounts d).
Proof.
  pose proof (bookkeeping_lookup username now (Some error)) as Hlook.
  unfold record_failure, with_connect, mbind, sql_mbind, sql_bind, execute,
    mret, sql_mret, sql_ret, commit, working in *. simpl.
  unfold insert_account_do_nothing in *.
  destruct (find_account username (watch_accounts d)) as [r|] eqn:E; simpl;
    repeat split; try done; intros other; specialize (Hlook other d);
    simpl in Hlook; rewrite E in Hlook; exact Hlook.
Qed.

(** The failure branch of [check_account], whichever [except] clause takes it. *)
Lemma check_account_failure_branch (env : Env) (s : Service)
    (username : string) (e : exn) :
  Scraper.fetch_tiktok_profile (remote env (calls (world s))) username = Raise e →
  check_account env username s
  = (Ok false,
     snd (store_write env
            (λ now, record_failure now username (Spec.failure_text e))
            (set_world (tick (world s)) s))).
Proof.
  intros Hfetch.
  unfold check_account, mbind, m_mbind, m_bind, store_read, try_fetch.
  rewrite Hfetch.
  pose proof (record_failure_effect
                (clock env (S (calls (world s)))) username) as Heff.
  destruct e; cbn -[record_failure];
    match goal with
    | |- context [record_failure _ _ ?text _] =>
        destruct (Heff text (store (world s))) as (Hout & _)
    end;
    unfold store_write; cbn -[record_failure]; rewrite Hout; reflexivity.
Qed.

(** C3: whenever the fetch raises, be it the classified scrape error or any
    other exception, [check_account] returns [False] instead of raising;
    exactly one failure row is appended, carrying the handle, the time of the
    write and the error's text; the registry row of the handle exists
    afterwards with that text as last error and that time as last check; the
    snapshot and event tables are untouched; all of it is one commit. *)
Theorem C3_fetch_error_recorded (env : Env) (s : Service)
    (username : string) (e : exn) :
  Scraper.fetch_tiktok_profile (remote env (calls (world s))) username = Raise e →
  ∃ s', check_account env username s = (Ok false, s') ∧
    let d := store (world s) in
    let d' := store (world s') in
    let now := clock env (S (calls (world s))) in
    failures d'
    = failures d ++ [{| f_id := seq_failures d + 1; f_username := username;
                        f_checked_at := now;
                        f_error := Spec.failure_text e |}]
    ∧ snapshots d' = snapshots d
    ∧ events d' = events d
    ∧ (∃ r, find_account username (watch_accounts d') = Some r
            ∧ w_last_error r = Some (Spec.failure_text e)
            ∧ w_last_checked_at r = Some now)
    ∧ journal (world s') = journal (world s) ++ [d'].
Proof.
  intros Hfetch. eexists. split; [by apply check_account_failure_branch|].
  destruct (record_failure_effect (clock env (S (calls (world s)))) username
              (Spec.failure_text e) (store (world s)))
    as (_ & Hcommit & Hfail & Hsnap & Hev & _ & Hreg).
  unfold store_write. cbn -[record_failure].
  split; [exact Hfail|]. split; [exact Hsnap|]. split; [exact Hev|]. split.
  - eexists. split; [rewrite Hreg; by rewrite decide_True|]. done.
  - by rewrite Hcommit.
Qed.

Lemma C3_fetch_error_recorded_witness :
  ∃ s', check_account Samples.env "bob" (Samples.service false None)
        = (Ok false, s') ∧
    failures (store (world s'))
    = [{| f_id := 1; f_username := "bob";
          f_checked_at := "2024-05-01T11:00:1";
          f_error := "Could not read profile payload." |}]
    ∧ snapshots (store (world s')) = [].
Proof.
  destruct (C3_fetch_error_recorded Samples.env (Samples.service false None)
              "bob" (TikTokScrapeError "Could not read profile payload.")
              eq_refl) as (s' & Hrun & Hfail & Hsnap & _).
  exists s'. split; [exact Hrun|]. split; [exact Hfail | exact Hsnap].
Defined.

(** ** The registry operations *)

Lemma rowcount_positive (username : string) (rows : list WatchRow) :
  (0 <? Z.of_nat (length (List.filter
                            (λ r, String.eqb (w_username r) username) rows)))%Z
  = bool_decide (is_Some (find_account username rows)).
Proof.
  unfold find_account. induction rows as [|r rows IH]; [done|]. simpl.
  destruct (String.eqb (w_username r) username); [|exact IH].
  rewrite bool_decide_eq_true_2 by eauto. simpl length.
  apply Z.ltb_lt. lia.
Qed.

(** [deactivate_watch_account] answers whether the UPDATE selected a row,
    that is, whether the handle is registered, active or not. *)
Lemma deactivate_returns_registered (username : string) (d : DB) :
  out (deactivate_watch_account username d)
  = Ok (bool_decide (is_Some (find_account username (watch_accounts d)))).
Proof.
  unfold deactivate_watch_account, with_connect, mbind, sql_mbind, sql_bind,
    execute, mret, sql_mret, sql_ret, update_account. simpl.
  by rewrite rowcount_positive.
Qed.

Lemma with_watch_accounts_same (d : DB) :
  with_watch_accounts (watch_accounts d) d = d.
Proof. by destruct d. Qed.

Lemma update_misses (f : WatchRow → WatchRow) (username : string)
    (rows : list WatchRow) :
  find_account username rows = None →
  map (λ r, if String.eqb (w_username r) username then f r else r) rows = rows.
Proof.
  unfold find_account. induction rows as [|r rows IH]; [done|]. simpl.
  destruct (String.eqb (w_username r) username); [done|].
  intros Hnone. f_equal. by apply IH.
Qed.

(** On an unknown handle it returns [False], creates no row and leaves the
    database as it was. *)
Lemma deactivate_unknown (username : string) (d : DB) :
  find_account username (watch_accounts d) = None →
  out (deactivate_watch_account username d) = Ok false
  ∧ final (deactivate_watch_account username d) = d.
Proof.
  intros Hnone. split.
  - rewrite deactivate_returns_registered, Hnone.
    rewrite bool_decide_eq_false_2; [done | apply is_Some_None].
  - unfold deactivate_watch_account, with_connect, mbind, sql_mbind, sql_bind,
      execute, mret, sql_mret, sql_ret, update_account, commit, working. simpl.
    rewrite (update_misses _ _ _ Hnone). apply with_watch_accounts_same.
Qed.

(** C5, evaluated: carol is registered and already inactive; deactivating her
    changes nothing, yet the call returns [True], and the dashboard reports
    her as removed from the watchlist. *)
Theorem C5_deactivate_inactive_returns_true :
  find_account "carol" (watch_accounts Samples.db) = Some (Samples.account "carol" 0)
  ∧ out (deactivate_watch_account "carol" Samples.db) = Ok true
  ∧ final (deactivate_watch_account "carol" Samples.db) = Samples.db
  ∧ App.flash_msg
      (App.remove_watch "carol"
         {| App.monitor := Samples.service false None;
            App.flash_msg := None; App.flash_kind := None |})
    = Some "@carol removed from watchlist.".
Proof. repeat split; reflexivity. Qed.

(** ** [save_snapshot] *)

Lemma bind_int_ok (z : Z) : Spec.fits_int64 z = true → bind_int z = Ok (SInteger z).
Proof. unfold bind_int, Spec.fits_int64. by intros ->. Qed.

Lemma bind_param_ok (v : value) :
  Spec.bindable v = true → ∃ p, bind_param v = Ok p.
Proof.
  destruct v as [|b|z|t]; simpl; eauto.
  intros Hz. rewrite bind_int_ok by done. eauto.
Qed.

Lemma _to_int_total (v : value) : ∃ o, _to_int v = Ok o.
Proof.
  destruct v as [|b|z|t]; simpl; eauto.
  destruct (int_of_str t); eauto.
Qed.

Lemma bind_count_ok (v : value) :
  Spec.bindable_count v = true →
  ∃ o p, _to_int v = Ok o ∧ bind_opt_int o = Ok p.
Proof.
  unfold Spec.bindable_count.
  destruct (_to_int_total v) as [[z|] ->]; simpl; eauto.
  intros Hz. eexists _, _. split; [done|]. simpl. by apply bind_int_ok.
Qed.

(** The URL parameter is never NULL: it is the profile's own truthy value or
    the default string. *)
Lemma profile_url_ok (v : value) (fallback : string) :
  Spec.bindable v = true →
  ∃ p url, bind_param (py_or v (VStr fallback)) = Ok p
           ∧ not_null "snapshots.profile_url" (text_column p) = Ok url.
Proof.
  unfold py_or. destruct v as [|[]|z|t]; simpl; eauto.
  - intros Hz. destruct (negb (z =? 0)%Z); simpl; eauto.
    rewrite bind_int_ok by done. simpl. eauto.
  - destruct (negb (String.eqb t "")); simpl; eauto.
Qed.

Lemma save_snapshot_ok (now : string) (profile : gmap string value) (d : DB) :
  Spec.storable profile = true → out (save_snapshot now profile d) = Ok ().
Proof.
  unfold Spec.storable. rewrite !andb_true_iff.
  intros [[[[[[[Hu Hn] Hb] Hf1] Hf2] Hf3] Hf4] Hp].
  apply bool_decide_eq_true_1 in Hu as [u Hu].
  unfold save_snapshot. rewrite Hu.
  destruct (bind_param_ok _ Hn) as [pn En].
  destruct (bind_param_ok _ Hb) as [pb Eb].
  destruct (bind_count_ok _ Hf1) as (o1 & p1 & E1 & B1).
  destruct (bind_count_ok _ Hf2) as (o2 & p2 & E2 & B2).
  destruct (bind_count_ok _ Hf3) as (o3 & p3 & E3 & B3).
  destruct (bind_count_ok _ Hf4) as (o4 & p4 & E4 & B4).
  destruct (profile_url_ok _ (default_profile_url (str u)) Hp)
    as (pp & url & Ep & Eu).
  unfold with_connect, mbind, sql_mbind, sql_bind, lift, execute.
  simpl. rewrite E1, E2, E3, E4, En, Eb, B1, B2, B3, B4, Ep, Eu.
  reflexivity.
Qed.

Ltac sql_step r :=
  destruct r as [?|?];
  [cbn [fst snd] | left; eexists; repeat split; reflexivity].

(** Either [save_snapshot] raises and leaves nothing behind, or it returns
    and has committed, once, the three statements run in sequence. *)
Lemma save_snapshot_cases (now : string) (profile : gmap string value) (d : DB) :
  let o := save_snapshot now profile d in
  (∃ e, out o = Raise e ∧ final o = d ∧ committed o = [])
  ∨ (∃ u mk,
       profile !! "username" = Some u
       ∧ out o = Ok () ∧ committed o = [final o]
       ∧ final o
         = snd (update_account (set_checked now None) (str u)
                  (snd (insert_snapshot mk
                          (snd (insert_account_do_nothing (str u) now d)))))
       ∧ ∀ id, s_id (mk id) = id ∧ s_username (mk id) = str u
               ∧ s_checked_at (mk id) = now).
Proof.
  unfold save_snapshot.
  destruct (profile !! "username") as [u|] eqn:Hu;
    [|left; eexists; repeat split; reflexivity].
  unfold with_connect, mbind, sql_mbind, sql_bind, lift, execute,
    mret, sql_mret, sql_ret.
  cbn [insert_account_do_nothing fst snd].
  sql_step (_to_int (get profile "followers")).
  sql_step (_to_int (get profile "following")).
  sql_step (_to_int (get profile "likes")).
  sql_step (_to_int (get profile "videos_count")).
  sql_step (bind_param (get profile "nickname")).
  sql_step (bind_param (get profile "bio")).
  match goal with |- context [bind_opt_int ?o] => sql_step (bind_opt_int o) end.
  match goal with |- context [bind_opt_int ?o] => sql_step (bind_opt_int o) end.
  match goal with |- context [bind_opt_int ?o] => sql_step (bind_opt_int o) end.
  match goal with |- context [bind_opt_int ?o] => sql_step (bind_opt_int o) end.
  match goal with |- context [bind_param ?v] => sql_step (bind_param v) end.
  match goal with |- context [not_null ?c ?o] => sql_step (not_null c o) end.
  right. eexists u, _. split; [reflexivity|].
  split; [reflexivity|]. split; [reflexivity|]. split; [reflexivity|].
  intros id. cbn. repeat split; reflexivity.
Qed.

(** C4, as the code has it: [save_snapshot] is one transaction. A profile
    that can be stored is stored; when the call raises, nothing was committed
    and the database is as before; when it returns, exactly one commit took
    place, whose state has one more snapshot row (next id, the profile's
    handle, stamped with the time of the write), the same events, failures and
    settings, every other registry row as before, and for the handle a
    registry row with last check at that same time and no last error: a fresh
    active row if the handle was never seen, otherwise the row it had, its
    creation time and its active flag left alone. *)
Theorem C4_save_snapshot_one_commit
    (now : string) (profile : gmap string value) (d : DB) :
  let o := save_snapshot now profile d in
  (Spec.storable profile = true → out o = Ok ())
  ∧ (∀ e, out o = Raise e → final o = d ∧ committed o = [])
  ∧ (out o = Ok () →
     ∃ u row,
       profile !! "username" = Some u
       ∧ committed o = [final o]
       ∧ snapshots (final o) = snapshots d ++ [row]
       ∧ s_id row = (seq_snapshots d + 1)%Z
       ∧ s_username row = str u
       ∧ s_checked_at row = now
       ∧ events (final o) = events d
       ∧ failures (final o) = failures d
       ∧ settings (final o) = settings d
       ∧ (∀ other, other ≠ str u →
            find_account other (watch_accounts (final o))
            = find_account other (watch_accounts d))
       ∧ find_account (str u) (watch_accounts (final o))
         = Some match find_account (str u) (watch_accounts d) with
                | Some r =>
                    {| w_username := w_username r;
                       w_created_at := w_created_at r;
                       w_active := w_active r;
                       w_last_checked_at := Some now;
                       w_last_error := None |}
                | None =>
                    {| w_username := str u; w_created_at := now;
                       w_active := 1; w_last_checked_at := Some now;
                       w_last_error := None |}
                end).
Proof.
  intros o. split; [apply save_snapshot_ok|].
  destruct (save_snapshot_cases now profile d)
    as [(e & Hraise & Hfinal & Hcommit)
       | (u & mk & Hu & Hok & Hcommit & Hfinal & Hmk)];
    fold o in Hraise || fold o in Hok.
  - split; [done|]. rewrite Hraise. discriminate.
  - fold o in Hcommit, Hfinal.
    split; [rewrite Hok; discriminate|]. intros _.
    destruct (Hmk (seq_snapshots d + 1)%Z) as (Hid & Hname & Htime).
    exists u, (mk (seq_snapshots d + 1)%Z).
    assert (Hreg : ∀ other,
      find_account other (watch_accounts (final o))
      = if decide (other = str u) then
          Some (set_checked now None
                  (default (new_account (str u) now)
                     (find_account (str u) (watch_accounts d))))
        else find_account other (watch_accounts d)).
    { intros other. rewrite Hfinal.
      exact (bookkeeping_lookup (str u) now None other d). }
    assert (Htables :
      snapshots (final o) = snapshots d ++ [mk (seq_snapshots d + 1)%Z]
      ∧ events (final o) = events d ∧ failures (final o) = failures d
      ∧ settings (final o) = settings d).
    { rewrite Hfinal. unfold insert_account_do_nothing. cbn.
      by destruct (find_account (str u) (watch_accounts d)). }
    destruct Htables as (Hs & He & Hf & Hset).
    repeat (split; [done|]). split.
    + intros other Hne. rewrite Hreg. by rewrite decide_False.
    + rewrite Hreg, decide_True by done.
      by destruct (find_account (str u) (watch_accounts d)).
Qed.

Lemma C4_save_snapshot_one_commit_witness :
  Spec.storable Samples.alice_150 = true
  ∧ out (save_snapshot "2024-05-01T12:00:00+00:00" Samples.alice_150 Samples.db)
    = Ok ().
Proof.
  split; [reflexivity|].
  apply (C4_save_snapshot_one_commit
           "2024-05-01T12:00:00+00:00" Samples.alice_150 Samples.db).
  reflexivity.
Defined.

(** C4 as stated fails on a deactivated handle: carol is registered with
    active = 0; a snapshot written for her is stored, and her registry row is
    still inactive afterwards. *)
Lemma C4_counterexample_inactive_stays_inactive :
  w_active <$> find_account "carol" (watch_accounts Samples.db) = Some 0%Z
  ∧ out (save_snapshot "2024-05-01T12:00:00+00:00"
           (Samples.profile "carol" 10 "hi" false) Samples.db) = Ok ()
  ∧ w_active <$>
      find_account "carol"
        (watch_accounts
           (final (save_snapshot "2024-05-01T12:00:00+00:00"
                     (Samples.profile "carol" 10 "hi" false) Samples.db)))
    = Some 0%Z.
Proof. repeat split; reflexivity. Qed.

(** ** Handle normalisation *)

Section Strip.
Variable p : ascii → bool.

Lemma rstrip_by_cons (c : ascii) (r : string) :
  rstrip_by p (String c r)
  = match rstrip_by p r with
    | EmptyString => if p c then EmptyString else String c EmptyString
    | r' => String c r'
    end.
Proof. reflexivity. Qed.

Lemma rstrip_by_idemp (s : string) : rstrip_by p (rstrip_by p s) = rstrip_by p s.
Proof.
  induction s as [|c r IH]; [done|]. rewrite rstrip_by_cons.
  destruct (rstrip_by p r) as [|x y] eqn:E.
  - destruct (p c) eqn:Hc; [done|]. rewrite rstrip_by_cons. cbn. by rewrite Hc.
  - rewrite rstrip_by_cons. by rewrite IH.
Qed.

Lemma lstrip_by_head (s : string) :
  lstrip_by p s = ""%string
  ∨ ∃ c r, lstrip_by p s = String c r ∧ p c = false.
Proof.
  induction s as [|c r IH]; [by left|]. cbn [lstrip_by].
  destruct (p c) eqn:Hc; [exact IH|]. right. eauto.
Qed.

Lemma rstrip_by_head (c : ascii) (r : string) :
  p c = false → ∃ r', rstrip_by p (String c r) = String c r'.
Proof.
  intros Hc. rewrite rstrip_by_cons. destruct (rstrip_by p r); [|eauto].
  rewrite Hc. eauto.
Qed.

Lemma strip_by_idemp (s : string) : strip_by p (strip_by p s) = strip_by p s.
Proof.
  unfold strip_by.
  destruct (lstrip_by_head s) as [-> | (c & r & -> & Hc)]; [done|].
  destruct (rstrip_by_head c r Hc) as [r' Hr].
  rewrite Hr at 1. cbn [lstrip_by]. rewrite Hc, <- Hr.
  apply rstrip_by_idemp.
Qed.

End Strip.

Lemma strip_by_clean (p : ascii → bool) (s : string) :
  Scraper.all_chars (λ c, negb (p c)) s = true → strip_by p s = s.
Proof.
  intros Hs. unfold strip_by.
  assert (lstrip_by p s = s) as ->.
  { destruct s as [|c r]; [done|]. cbn in *.
    apply andb_true_iff in Hs as [Hc _]. by destruct (p c). }
  induction s as [|c r IH]; [done|]. cbn in Hs.
  apply andb_true_iff in Hs as [Hc Hr]. rewrite rstrip_by_cons, IH by done.
  destruct r; [|done]. by destruct (p c).
Qed.

Lemma normalize_username_strip (username : string) :
  Scraper.normalize_username (strip username) = Scraper.normalize_username username.
Proof. unfold Scraper.normalize_username, strip. by rewrite strip_by_idemp. Qed.

Lemma handle_char_plain (c : ascii) :
  Scraper.is_handle_char (lower_char c) = true →
  is_space c = false ∧ c ≠ "@"%char.
Proof. destruct c as [[] [] [] [] [] [] [] []]; by vm_compute. Qed.

(** A string whose lowercased form matches has nothing to trim. *)
Lemma matched_handle_untrimmed (s : string) :
  Scraper.handle_fullmatch (lower s) = true →
  lstrip ["@"%char] (strip s) = s.
Proof.
  unfold Scraper.handle_fullmatch.
  intros [[Hs _]%andb_true_iff _]%andb_true_iff.
  unfold strip. rewrite strip_by_clean.
  - destruct s as [|c r]; [done|]. cbn in *.
    apply andb_true_iff in Hs as [Hc _].
    destruct (handle_char_plain c Hc) as [_ Hat].
    rewrite bool_decide_eq_false_2; [done|].
    by intros ->%list_elem_of_singleton.
  - induction s as [|c r IH]; [done|]. cbn in *.
    apply andb_true_iff in Hs as [Hc Hr].
    destruct (handle_char_plain c Hc) as [-> _]. by apply IH.
Qed.

(** The handle the remove and manual-check actions derive from a form
    value fails validation only if the form value itself does. *)
Lemma normalize_username_handle (form_value : string) :
  Scraper.normalize_username (lstrip ["@"%char] (strip form_value))
  = Raise Scraper.invalid_username →
  Scraper.normalize_username form_value = Raise Scraper.invalid_username.
Proof.
  intros Hraise. unfold Scraper.normalize_username in *.
  destruct (Scraper.handle_fullmatch
              (lower (lstrip ["@"%char] (strip form_value)))) eqn:Hmatch;
    [|done].
  rewrite (matched_handle_untrimmed _ Hmatch), Hmatch in Hraise. done.
Qed.

(** The normalisation as the code has it: the candidate handle is the input
    with surrounding whitespace trimmed, then every leading [@] removed, then
    lowercased. The normalisation returns the candidate when it matches
    [[A-Za-z0-9._]{2,24}], and raises the validation error otherwise; in that
    case the add-to-watchlist action flashes the error and leaves the service,
    store included, exactly as it was. *)
Lemma normalize_username_cases (username : string) :
  let candidate := lower (lstrip ["@"%char] (strip username)) in
  (Scraper.handle_fullmatch candidate = true →
   Scraper.normalize_username username = Ok candidate)
  ∧ (Scraper.handle_fullmatch candidate = false →
     Scraper.normalize_username username = Raise Scraper.invalid_username
     ∧ ∀ env a,
         App.add_watch env username a
         = Ok {| App.monitor := App.monitor a;
                 App.flash_msg := Some "Please enter a valid TikTok username.";
                 App.flash_kind := Some "error" |}).
Proof.
  intros candidate. split; intros Hmatch.
  - unfold Scraper.normalize_username. fold candidate. by rewrite Hmatch.
  - assert (Hraise : Scraper.normalize_username username
                     = Raise Scraper.invalid_username).
    { unfold Scraper.normalize_username. fold candidate. by rewrite Hmatch. }
    split; [exact Hraise|]. intros env a.
    unfold App.add_watch. by rewrite normalize_username_strip, Hraise.
Qed.

Example normalize_username_sample :
  Scraper.normalize_username "  @Alice_01 " = Ok "alice_01"%string.
Proof. reflexivity. Qed.

(** The candidate is not always the input less one leading [@], lowercased:
    with two leading [@] that string does not match, while the code removes
    both and accepts the handle. *)
Example normalize_username_double_at :
  Spec.spec_normalize_username "@@ab" = None
  ∧ Scraper.normalize_username "@@ab" = Ok "ab"%string.
Proof. split; reflexivity. Qed.

(** A handle that fails validation makes the fetch raise the validation
    error, whatever the site would answer. *)
Lemma fetch_invalid_username (remote : string → result (gmap string value))
    (username : string) :
  Scraper.normalize_username username = Raise Scraper.invalid_username →
  Scraper.fetch_tiktok_profile remote username = Raise Scraper.invalid_username.
Proof. intros Hraise. unfold Scraper.fetch_tiktok_profile. by rewrite Hraise. Qed.

(** C8 fails in the code: a malformed handle does reach durable state. The
    manual-check action trims the form value and removes leading [@], and
    hands any non-empty result to [check_account] without validating it.
    When that handle fails validation the fetch raises the validation error,
    and [check_account] records it like a fetch failure: the action returns
    with the "check failed" flash, a failure row for the malformed handle is
    appended, the registry holds a row for the handle with the validation
    message as its last error (a new, active row when the handle was not
    registered before, so that every later cycle checks it again), and the
    state with both rows is committed. The add-to-watchlist action, given the
    same form value, validates first and leaves the service as it was. *)
Theorem C8_malformed_handle_persisted (env : Env) (form_value : string)
    (a : App.State) :
  let handle := lstrip ["@"%char] (strip form_value) in
  handle ≠ ""%string →
  Scraper.normalize_username handle = Raise Scraper.invalid_username →
  let d := store (world (App.monitor a)) in
  let now := clock env (S (calls (world (App.monitor a)))) in
  ∃ a',
    App.check_watch_now env form_value a = Ok a'
    ∧ App.flash_msg a'
      = Some ("Manual check failed for @" ++ handle
              ++ ". See failures below.")%string
    ∧ App.flash_kind a' = Some "error"%string
    ∧ failures (store (world (App.monitor a')))
      = failures d
        ++ [{| f_id := seq_failures d + 1; f_username := handle;
               f_checked_at := now;
               f_error := "Please enter a valid TikTok username." |}]
    ∧ find_account handle (watch_accounts (store (world (App.monitor a'))))
      = Some (set_checked now (Some "Please enter a valid TikTok username."%string)
                (default (new_account handle now)
                   (find_account handle (watch_accounts d))))
    ∧ (find_account handle (watch_accounts d) = None →
       ∃ r, find_account handle
              (watch_accounts (store (world (App.monitor a')))) = Some r
            ∧ w_active r = 1%Z)
    ∧ journal (world (App.monitor a'))
      = journal (world (App.monitor a)) ++ [store (world (App.monitor a'))]
    ∧ App.add_watch env form_value a
      = Ok {| App.monitor := App.monitor a;
              App.flash_msg := Some "Please enter a valid TikTok username.";
              App.flash_kind := Some "error" |}.
Proof.
  intros handle Hne Hraise d now.
  assert (Hfetch : Scraper.fetch_tiktok_profile
                     (remote env (calls (world (App.monitor a)))) handle
                   = Raise Scraper.invalid_username)
    by by apply fetch_invalid_username.
  pose proof (check_account_failure_branch env (App.monitor a) handle _ Hfetch)
    as Hcheck.
  destruct (record_failure_effect now handle
              (Spec.failure_text Scraper.invalid_username) d)
    as (_ & Hcommit & Hfail & _ & _ & _ & Hreg).
  specialize (Hreg handle). rewrite decide_True in Hreg by done.
  eexists. split.
  { unfold App.check_watch_now. fold handle.
    destruct (String.eqb_spec handle ""); [contradiction|].
    rewrite Hcheck. reflexivity. }
  unfold store_write. cbn -[record_failure].
  split; [done|]. split; [done|]. split; [exact Hfail|].
  split; [exact Hreg|]. split.
  - intros Hnew. eexists. split; [exact Hreg|]. by rewrite Hnew.
  - split; [f_equal; exact Hcommit|].
    unfold App.add_watch.
    assert (Hsame : Scraper.normalize_username (strip form_value)
                    = Raise Scraper.invalid_username).
    { rewrite normalize_username_strip. by apply normalize_username_handle. }
    by rewrite Hsame.
Qed.

Lemma C8_malformed_handle_persisted_witness :
  let a0 := {| App.monitor := Samples.fresh; App.flash_msg := None;
               App.flash_kind := None |} in
  Scraper.normalize_username "not a handle!" = Raise Scraper.invalid_username
  ∧ ∃ a',
      App.check_watch_now Samples.env " @not a handle! " a0 = Ok a'
      ∧ App.flash_kind a' = Some "error"%string
      ∧ failures (store (world (App.monitor a')))
        = [{| f_id := 1; f_username := "not a handle!";
              f_checked_at := "2024-05-01T11:00:1";
              f_error := "Please enter a valid TikTok username." |}]
      ∧ (∃ r, find_account "not a handle!"
                (watch_accounts (store (world (App.monitor a')))) = Some r
              ∧ w_active r = 1%Z)
      ∧ journal (world (App.monitor a')) = [store (world (App.monitor a'))].
Proof.
  intros a0. split; [reflexivity|].
  destruct (C8_malformed_handle_persisted Samples.env " @not a handle! " a0)
    as (a' & Hrun & _ & Hkind & Hfail & _ & Hnew & Hjournal & _);
    [discriminate | reflexivity |].
  exists a'. split; [exact Hrun|]. split; [exact Hkind|].
  split; [exact Hfail|]. split; [apply Hnew; reflexivity | exact Hjournal].
Defined.

(** The malformed handle stays: the next cycle finds it among the active
    accounts, checks it and fails on it again. *)
Example scenario_malformed_handle_kept :
  let a0 := {| App.monitor := Samples.fresh; App.flash_msg := None;
               App.flash_kind := None |} in
  ∃ a',
    App.check_watch_now Samples.env " @not a handle! " a0 = Ok a'
    ∧ (λ r, (w_username r, w_active r))
        <$> watch_accounts (store (world (App.monitor a')))
      = [("not a handle!"%string, 1%Z)]
    ∧ fst (run_once Samples.env (App.monitor a'))
      = Ok {| status := "ok"; accounts := 1; checked := 0; failed := 1 |}
    ∧ length (failures (store (world
                (Samples.after (run_once Samples.env) (App.monitor a')))))
      = 2%nat.
Proof. eexists. repeat split; reflexivity. Qed.

(** ** Data reset *)

(** The script's four statements are four commits. *)
Lemma clear_monitor_data_commits (d : DB) :
  out (clear_monitor_data d) = Ok ()
  ∧ committed (clear_monitor_data d)
    = [delete_events d;
       delete_failures (delete_events d);
       delete_snapshots (delete_failures (delete_events d));
       final (clear_monitor_data d)]
  ∧ final (clear_monitor_data d)
    = delete_watch_accounts
        (delete_snapshots (delete_failures (delete_events d))).
Proof. repeat split; reflexivity. Qed.

(** While the monitor thread is alive the reset only flashes an error. *)
Lemma reset_rejected_while_running (a : App.State) :
  is_running (App.monitor a) = true →
  App.reset_monitor_data a
  = {| App.monitor := App.monitor a;
       App.flash_msg := Some "Stop the monitor before clearing data.";
       App.flash_kind := Some "error" |}.
Proof. intros Hrun. unfold App.reset_monitor_data. by rewrite Hrun. Qed.

(** With the monitor stopped the four tables are empty once the reset is over. *)
Lemma reset_when_stopped_empties (a : App.State) :
  is_running (App.monitor a) = false →
  let d := store (world (App.monitor (App.reset_monitor_data a))) in
  watch_accounts d = [] ∧ snapshots d = [] ∧ events d = [] ∧ failures d = [].
Proof.
  intros Hrun. unfold App.reset_monitor_data. rewrite Hrun.
  repeat split; reflexivity.
Qed.

(** C9, evaluated: the monitor is stopped and the store holds three registry
    rows and one event. The reset goes through, and the journal shows what it
    committed on the way: a first durable state in which the events are gone
    while the registry still has its three rows, two more, and only then the
    state in which the registry is empty too. *)
Theorem C9_reset_commits_each_delete :
  is_running (Samples.service false None) = false
  ∧ ∃ d1 d2 d3 d4,
      journal (world (App.monitor
        (App.reset_monitor_data
           {| App.monitor := Samples.service false None;
              App.flash_msg := None; App.flash_kind := None |})))
      = [d1; d2; d3; d4]
      ∧ events d1 = []
      ∧ watch_accounts d1 = watch_accounts Samples.db
      ∧ length (watch_accounts d1) = 3%nat
      ∧ watch_accounts d4 = [].
Proof.
  split; [reflexivity|].
  eexists _, _, _, _. split; [reflexivity|]. repeat split; reflexivity.
Qed.

(** C10: a data reset never touches the settings table. Whether the reset is
    rejected or carried out, the store holds the same settings afterwards, so
    every key reads as before; and each state the reset commits on the way
    holds them too. *)
Theorem C10_reset_keeps_settings (a : App.State) :
  settings (store (world (App.monitor (App.reset_monitor_data a))))
  = settings (store (world (App.monitor a)))
  ∧ (∀ key,
       get_setting key (store (world (App.monitor (App.reset_monitor_data a))))
       = get_setting key (store (world (App.monitor a))))
  ∧ Forall (λ d, settings d = settings (store (world (App.monitor a))))
      (committed (clear_monitor_data (store (world (App.monitor a))))).
Proof.
  assert (Hsame : settings (store (world (App.monitor (App.reset_monitor_data a))))
                  = settings (store (world (App.monitor a)))).
  { unfold App.reset_monitor_data.
    by destruct (is_running (App.monitor a)). }
  split; [exact Hsame|]. split.
  - intros key. unfold get_setting. by rewrite Hsame.
  - destruct (clear_monitor_data_commits (store (world (App.monitor a))))
      as (_ & -> & ->).
    repeat constructor.
Qed.

(** ** The scenarios of the specification, run on the model *)

(** alice has no prior snapshot and her check succeeds with 100 followers:
    one snapshot, no event, no last error. *)
Example scenario_first_check :
  let s1 := Samples.after (check_account Samples.env "alice") Samples.fresh in
  fst (check_account Samples.env "alice" Samples.fresh) = Ok true
  ∧ s_followers <$> snapshots (store (world s1)) = [Some 100%Z]
  ∧ events (store (world s1)) = []
  ∧ w_last_error <$> watch_accounts (store (world s1)) = [None].
Proof. repeat split; reflexivity. Qed.

(** Her second check returns 150 followers: a second snapshot and one event. *)
Example scenario_second_check :
  let s1 := Samples.after (check_account Samples.env "alice") Samples.fresh in
  let s2 := Samples.after (check_account Samples.env "alice") s1 in
  length (snapshots (store (world s2))) = 2%nat
  ∧ events (store (world s2))
    = [{| e_id := 1; e_username := "alice";
          e_detected_at := "2024-05-01T11:00:5";
          e_metric := "followers"; e_old_value := Some "100"%string;
          e_new_value := Some "150"%string; e_delta := Some 50%Z;
          e_message := "followers changed from 100 to 150 (+50)." |}].
Proof. split; reflexivity. Qed.

(** Adding a handle twice leaves one active row. *)
Example scenario_add_twice :
  let a0 := {| App.monitor := Samples.fresh; App.flash_msg := None;
               App.flash_kind := None |} in
  ∃ a1 a2,
    App.add_watch Samples.env "@Alice" a0 = Ok a1
    ∧ App.add_watch Samples.env "alice" a1 = Ok a2
    ∧ (λ r, (w_username r, w_active r))
        <$> watch_accounts (store (world (App.monitor a2)))
      = [("alice"%string, 1%Z)].
Proof. eexists _, _. repeat split; reflexivity. Qed.

(** A cycle over the sample registry checks alice and bob, not the
    deactivated carol, and reports one success and one failure. *)
Example scenario_cycle :
  fst (run_once Samples.env (Samples.service false None))
  = Ok {| status := "ok"; accounts := 2; checked := 1; failed := 1 |}.
Proof. reflexivity. Qed.

(** [check_account] does not validate the handle it is given: the
    validation error of the fetch is recorded like any other failure, and
    the malformed handle is registered as an active account. *)
Example scenario_malformed_handle_checked :
  let s1 := Samples.after (check_account Samples.env "not a handle!")
              Samples.fresh in
  fst (check_account Samples.env "not a handle!" Samples.fresh) = Ok false
  ∧ (λ r, (f_username r, f_error r)) <$> failures (store (world s1))
    = [("not a handle!"%string, "Please enter a valid TikTok username."%string)]
  ∧ (λ r, (w_username r, w_active r)) <$> watch_accounts (store (world s1))
    = [("not a handle!"%string, 1%Z)].
Proof. repeat split; reflexivity. Qed.

(** * Further properties of the code *)

Import Queries Inv.

(** ** ORDER BY *)

Section OrderBy.
Context {A : Type} (le : A → A → bool).

Lemma insert_by_perm (x : A) (l : list A) : insert_by le x l ≡ₚ x :: l.
Proof.
  induction l as [|y l IH]; simpl; [done|].
  destruct (le x y); [done|]. rewrite IH. apply Permutation_swap.
Qed.

Lemma order_by_perm (l : list A) : order_by le l ≡ₚ l.
Proof.
  unfold order_by. induction l as [|x l IH]; simpl; [done|].
  by rewrite insert_by_perm, IH.
Qed.

Hypothesis le_total : ∀ a b, le a b = false → le b a = true.

Lemma insert_by_sorted (x : A) (l : list A) :
  Sorted (λ a b, le a b = true) l →
  Sorted (λ a b, le a b = true) (insert_by le x l).
Proof.
  induction l as [|y l IH]; simpl; intros Hs.
  - by repeat constructor.
  - destruct (le x y) eqn:Hxy.
    + constructor; [done|]. by constructor.
    + apply Sorted_inv in Hs as [Hs Hhd]. constructor; [by apply IH|].
      destruct l as [|z l]; simpl.
      * constructor. by apply le_total.
      * destruct (le x z); constructor; [by apply le_total|].
        by apply HdRel_inv in Hhd.
Qed.

Lemma order_by_sorted (l : list A) : Sorted (λ a b, le a b = true) (order_by le l).
Proof.
  unfold order_by. induction l as [|x l IH]; simpl; [constructor|].
  by apply insert_by_sorted.
Qed.

End OrderBy.

Lemma nocase_le_total (a b : string) : nocase_le a b = false → nocase_le b a = true.
Proof.
  revert b. induction a as [|x a IH]; intros [|y b]; simpl; try done.
  destruct (N.ltb_spec (nocase_fold x) (nocase_fold y)) as [Hlt|Hge]; [done|].
  destruct (N.ltb_spec (nocase_fold y) (nocase_fold x)) as [Hlt'|Hge']; [done|].
  apply IH.
Qed.

(** X1: the listing of the registry holds exactly the registered rows (the
    active ones when asked for those), each as often as the table has it, in
    ascending order of the handles compared without regard to ASCII case. *)
Theorem list_watch_accounts_sorted (active_only : bool) (d : DB) :
  list_watch_accounts active_only d
  ≡ₚ filter (λ r, active_only = true → w_active r = 1%Z) (watch_accounts d)
  ∧ Sorted (λ r1 r2, nocase_le (w_username r1) (w_username r2) = true)
      (list_watch_accounts active_only d).
Proof.
  unfold list_watch_accounts. split.
  - rewrite order_by_perm. destruct active_only.
    + induction (watch_accounts d) as [|r rows IH]; [done|]. simpl.
      rewrite filter_cons. destruct (Z.eqb_spec (w_active r) 1) as [He|Hne].
      * rewrite decide_True by done. by rewrite IH.
      * rewrite decide_False by (intros H; by apply Hne, H). exact IH.
    + rewrite filter_all; [done|]. intros r _. discriminate.
  - apply (order_by_sorted
             (λ r1 r2, nocase_le (w_username r1) (w_username r2))).
    intros r1 r2. apply nocase_le_total.
Qed.

(** ** The registry *)

Lemma map_fixed {A} (g : A → A) (l : list A) :
  (∀ x, x ∈ l → g x = x) → map g l = l.
Proof.
  induction l as [|x l IH]; intros Hg; [done|]. simpl.
  rewrite Hg by left. f_equal. apply IH. intros y Hy. apply Hg. by right.
Qed.

Lemma find_account_None (username : string) (rows : list WatchRow) :
  find_account username rows = None ↔ username ∉ (w_username <$> rows).
Proof.
  unfold find_account. induction rows as [|r rows IH]; simpl.
  - split; [intros _; apply not_elem_of_nil|done].
  - rewrite not_elem_of_cons.
    destruct (String.eqb_spec (w_username r) username) as [->|Hne].
    + split; [done|]. by intros [? _].
    + rewrite IH. split; [by intros ?; split|by intros [_ ?]].
Qed.

Lemma add_watch_account_final (now username : string) (d : DB) :
  add_watch_account now username d
  = {| out := Ok ();
       final := snd (insert_account_set_active username now d);
       committed := [snd (insert_account_set_active username now d)] |}.
Proof. reflexivity. Qed.

Lemma set_active_fixed (r : WatchRow) : w_active r = 1%Z → set_active 1 r = r.
Proof. destruct r. simpl. by intros ->. Qed.

(** After the upsert every row of the handle is active. *)
Lemma insert_account_set_active_hits (now username : string) (d : DB) (r : WatchRow) :
  r ∈ watch_accounts (snd (insert_account_set_active username now d)) →
  w_username r = username → w_active r = 1%Z.
Proof.
  unfold insert_account_set_active. simpl.
  destruct (find_account username (watch_accounts d)) eqn:E; simpl.
  - intros (r0 & -> & Hin)%list_elem_of_fmap.
    destruct (String.eqb_spec (w_username r0) username); simpl; [done|].
    congruence.
  - apply find_account_None in E.
    intros [Hin | ->%list_elem_of_singleton]%elem_of_app; [|done].
    intros Hname. exfalso. apply E. apply list_elem_of_fmap. eauto.
Qed.

(** X2: [add_watch_account] always returns, in one commit; afterwards the
    handle is registered and active, an already registered handle keeping the
    rest of its row (its creation time, last check and last error), a new one
    being created at the time of the call; no other handle's row and no other
    table changes; and adding the handle once more, at any later time, leaves
    the database exactly as it is. *)
Theorem add_watch_account_idempotent (now later username : string) (d : DB) :
  let o := add_watch_account now username d in
  out o = Ok ()
  ∧ committed o = [final o]
  ∧ find_account username (watch_accounts (final o))
    = Some match find_account username (watch_accounts d) with
           | Some r => set_active 1 r
           | None => new_account username now
           end
  ∧ (∀ other, other ≠ username →
       find_account other (watch_accounts (final o))
       = find_account other (watch_accounts d))
  ∧ snapshots (final o) = snapshots d ∧ events (final o) = events d
  ∧ failures (final o) = failures d ∧ settings (final o) = settings d
  ∧ final (add_watch_account later username (final o)) = final o.
Proof.
  intros o. unfold o. rewrite !add_watch_account_final. cbn [out final committed].
  split; [done|]. split; [done|].
  assert (Hlook : ∀ other,
    find_account other
      (watch_accounts (snd (insert_account_set_active username now d)))
    = if decide (other = username) then
        Some match find_account username (watch_accounts d) with
             | Some r => set_active 1 r
             | None => new_account username now
             end
      else find_account other (watch_accounts d)).
  { intros other. unfold insert_account_set_active, update_account. simpl.
    destruct (find_account username (watch_accounts d)) as [r|] eqn:E; simpl.
    - destruct (decide (other = username)) as [->|Hne].
      + rewrite (find_account_update_same _ (set_active_username 1)).
        by rewrite E.
      + by rewrite (find_account_update_other _ (set_active_username 1)).
    - rewrite find_account_app. destruct (decide (other = username)) as [->|Hne].
      + rewrite E. simpl. by rewrite String.eqb_refl.
      + destruct (find_account other (watch_accounts d)); [done|]. simpl.
        destruct (String.eqb_spec username other); [congruence|done]. }
  split; [by rewrite Hlook, decide_True|].
  split; [intros other Hne; by rewrite Hlook, decide_False|].
  assert (Htables : ∀ d0,
    let d1 := snd (insert_account_set_active username now d0) in
    snapshots d1 = snapshots d0 ∧ events d1 = events d0
    ∧ failures d1 = failures d0 ∧ settings d1 = settings d0).
  { intros d0. unfold insert_account_set_active. simpl.
    by destruct (find_account username (watch_accounts d0)). }
  destruct (Htables d) as (Hs & He & Hf & Hset).
  repeat (split; [done|]).
  set (d1 := snd (insert_account_set_active username now d)) in *.
  unfold insert_account_set_active at 1. cbn [snd].
  rewrite Hlook, decide_True by done. unfold update_account. cbn [snd].
  rewrite map_fixed; [apply with_watch_accounts_same|].
  intros r Hr. destruct (String.eqb_spec (w_username r) username); [|done].
  apply set_active_fixed. by eapply insert_account_set_active_hits.
Qed.

Lemma elem_of_list_watch_accounts (r : WatchRow) (d : DB) :
  r ∈ list_watch_accounts true d ↔ r ∈ watch_accounts d ∧ w_active r = 1%Z.
Proof.
  unfold list_watch_accounts. rewrite order_by_perm.
  rewrite list_elem_of_In, filter_In, <- list_elem_of_In.
  by rewrite Z.eqb_eq.
Qed.

Lemma deactivate_final (username : string) (d : DB) :
  final (deactivate_watch_account username d)
  = snd (update_account (set_active 0) username d)
  ∧ committed (deactivate_watch_account username d)
    = [snd (update_account (set_active 0) username d)].
Proof. split; reflexivity. Qed.

(** X3: after [deactivate_watch_account] the handle is no longer among the
    active accounts, while every row of another handle is listed exactly when
    it was before; the handle's row is kept, all but its flag unchanged, and
    the other tables are untouched; adding the handle again brings the same
    row back as active. It is one commit. *)
Theorem deactivate_hides_handle (username now : string) (d : DB) :
  let o := deactivate_watch_account username d in
  committed o = [final o]
  ∧ (∀ r, r ∈ list_watch_accounts true (final o) → w_username r ≠ username)
  ∧ (∀ r, w_username r ≠ username →
       r ∈ list_watch_accounts true (final o)
       ↔ r ∈ list_watch_accounts true d)
  ∧ find_account username (watch_accounts (final o))
    = set_active 0 <$> find_account username (watch_accounts d)
  ∧ snapshots (final o) = snapshots d ∧ events (final o) = events d
  ∧ failures (final o) = failures d ∧ settings (final o) = settings d
  ∧ find_account username
      (watch_accounts (final (add_watch_account now username (final o))))
    = Some match find_account username (watch_accounts d) with
           | Some r => set_active 1 r
           | None => new_account username now
           end.
Proof.
  intros o. destruct (deactivate_final username d) as [Hfinal Hcommit].
  fold o in Hfinal, Hcommit. rewrite Hcommit, Hfinal.
  unfold update_account. cbn [snd].
  assert (Hfind : find_account username
      (watch_accounts (with_watch_accounts
        (map (λ r, if String.eqb (w_username r) username
                   then set_active 0 r else r) (watch_accounts d)) d))
    = set_active 0 <$> find_account username (watch_accounts d)).
  { apply (find_account_update_same _ (set_active_username 0)). }
  split; [done|]. split; [|split; [|split; [exact Hfind|]]].
  - intros r [Hin Hact]%elem_of_list_watch_accounts Hname.
    cbn in Hin. apply list_elem_of_fmap in Hin as (r0 & -> & _).
    destruct (String.eqb_spec (w_username r0) username) as [E|E]; simpl in *;
      [discriminate|done].
  - intros r Hname. rewrite !elem_of_list_watch_accounts. cbn.
    rewrite list_elem_of_fmap. split.
    + intros [(r0 & -> & Hin) Hact].
      destruct (String.eqb_spec (w_username r0) username); simpl in *; done.
    + intros [Hin Hact]. split; [|done]. exists r. split; [|done].
      destruct (String.eqb_spec (w_username r) username); done.
  - repeat (split; [done|]).
    rewrite add_watch_account_final. cbn [final].
    unfold insert_account_set_active, update_account. cbn [snd].
    rewrite Hfind.
    destruct (find_account username (watch_accounts d)) as [r|] eqn:E; simpl.
    + cbn. rewrite (find_account_update_same _ (set_active_username 1)).
      rewrite (find_account_update_same _ (set_active_username 0)), E.
      by destruct r.
    + cbn. rewrite find_account_app.
      rewrite (find_account_update_same _ (set_active_username 0)), E.
      simpl. by rewrite String.eqb_refl.
Qed.

(** ** [record_events] *)

Lemma insert_event_row_cases (username : value) (detected_at : string)
    (event : Event) (c : Conn) :
  (∃ e, insert_event_row username detected_at event c = (Raise e, c))
  ∨ (∃ mk,
       insert_event_row username detected_at event c
       = (Ok (), {| durable := durable c;
                    pending := Some (snd (insert_event mk (working c)));
                    commits := commits c |})
       ∧ ∀ id, e_id (mk id) = id ∧ row_of_event detected_at event (mk id)).
Proof.
  unfold insert_event_row, mbind, sql_mbind, sql_bind, lift, execute.
  destruct (_to_int (delta event)) as [di|?]; [|left; eauto].
  destruct (bind_param username) as [pu|?]; [|left; eauto].
  assert (Hstr : ∀ v, ∃ p, bind_param (str_or_none v) = Ok p
            ∧ text_column p = match v with VNone => None | _ => Some (str v) end).
  { intros [| | |]; simpl; eauto. }
  destruct (Hstr (old_value event)) as (po & -> & Ho).
  destruct (Hstr (new_value event)) as (pn & -> & Hn).
  destruct (bind_opt_int di) as [pd|?]; [|left; eauto].
  destruct (not_null _ (text_column pu)) as [eu|?]; [|left; eauto].
  right. eexists. split; [reflexivity|].
  intros id. unfold row_of_event. cbn -[str]. rewrite Ho, Hn.
  repeat split; [by destruct (old_value event) | by destruct (new_value event)].
Qed.

Lemma executemany_cases (username : value) (detected_at : string)
    (events : list Event) (c : Conn) :
  (∃ e c', executemany (insert_event_row username detected_at) events c
           = (Raise e, c')
           ∧ durable c' = durable c ∧ commits c' = commits c)
  ∨ (∃ mks,
       executemany (insert_event_row username detected_at) events c
       = (Ok (), match events with
                 | [] => c
                 | _ => {| durable := durable c;
                           pending := Some (insert_events mks (working c));
                           commits := commits c |}
                 end)
       ∧ Forall2 (λ mk event,
            ∀ id, e_id (mk id) = id ∧ row_of_event detected_at event (mk id))
           mks events).
Proof.
  revert c. induction events as [|event events IH]; intros c.
  - right. exists []. split; [done|constructor].
  - cbn [executemany]. unfold mbind, sql_mbind, sql_bind.
    destruct (insert_event_row_cases username detected_at event c)
      as [[e ->] | (mk & -> & Hmk)]; [left; eauto|].
    match goal with |- context [executemany _ events ?c1] =>
      destruct (IH c1) as [(e & c' & -> & Hd & Hc) | (mks & -> & Hall)]
    end.
    + left. eauto.
    + right. exists (mk :: mks). split; [|by constructor].
      destruct events; [|done].
      by apply Forall2_nil_inv_r in Hall as ->.
Qed.

Lemma insert_events_effect {E} (Q : E → EventRow → Prop)
    (mks : list (Z → EventRow)) (evs : list E) (d : DB) :
  Forall2 (λ mk ev, ∀ id, e_id (mk id) = id ∧ Q ev (mk id)) mks evs →
  ∃ rows,
    events (insert_events mks d) = events d ++ rows
    ∧ Forall2 (λ row ev, Q ev row) rows evs
    ∧ e_id <$> rows = seqZ (seq_events d + 1) (Z.of_nat (length evs))
    ∧ seq_events (insert_events mks d)
      = (seq_events d + Z.of_nat (length evs))%Z
    ∧ watch_accounts (insert_events mks d) = watch_accounts d
    ∧ snapshots (insert_events mks d) = snapshots d
    ∧ failures (insert_events mks d) = failures d
    ∧ settings (insert_events mks d) = settings d
    ∧ seq_snapshots (insert_events mks d) = seq_snapshots d
    ∧ seq_failures (insert_events mks d) = seq_failures d.
Proof.
  intros Hall. revert d. induction Hall as [|mk ev mks evs Hmk Hall IH]; intros d.
  - exists []. rewrite app_nil_r. cbn. repeat split; try done. lia.
  - change (insert_events (mk :: mks) d)
      with (insert_events mks (snd (insert_event mk d))).
    set (d1 := snd (insert_event mk d)).
    destruct (IH d1)
      as (rows & Hev & Hrows & Hids & Hseq & Hw & Hs & Hf & Hset & Hss & Hsf).
    exists (mk (seq_events d + 1)%Z :: rows).
    rewrite Hev, Hseq, Hw, Hs, Hf, Hset, Hss, Hsf. subst d1. cbn [insert_event snd
      watch_accounts snapshots events failures settings seq_snapshots
      seq_events seq_failures] in *.
    split; [by rewrite <- app_assoc|].
    split; [constructor; [apply Hmk|done]|].
    split.
    + cbn [fmap list_fmap length]. rewrite Hids.
      rewrite (seqZ_cons (seq_events d + 1)) by lia.
      destruct (Hmk (seq_events d + 1)%Z) as [-> _].
      do 2 f_equal; lia.
    + repeat split; try done. cbn [length]. lia.
Qed.

Lemma record_events_cases (now : string) (username : value)
    (evs : list Event) (d : DB) :
  let o := record_events now username evs d in
  (∃ e, out o = Raise e ∧ final o = d ∧ committed o = [])
  ∨ (∃ mks,
       out o = Ok () ∧ final o = insert_events mks d
       ∧ committed o = match evs with [] => [] | _ => [final o] end
       ∧ Forall2 (λ mk ev,
            ∀ id, e_id (mk id) = id ∧ row_of_event now ev (mk id)) mks evs).
Proof.
  unfold record_events. destruct evs as [|ev evs].
  - right. exists []. repeat split. constructor.
  - unfold with_connect.
    destruct (executemany_cases username now (ev :: evs)
                {| durable := d; pending := None; commits := [] |})
      as [(e & c' & -> & Hd & Hc) | (mks & -> & Hall)].
    + left. exists e. cbn in *. by rewrite Hd, Hc.
    + right. exists mks. by repeat split.
Qed.

(** X4: [record_events] stores all of the events it is given or none. When
    it raises, the database is as before and nothing was committed. When it
    returns, the event table has grown by one row per event, in the order
    given, with consecutive ids from the next free one, stamped with the time
    of the call and carrying each event's metric, message and stringified old
    and new values; the other tables are untouched; and it took one commit, or
    none at all for an empty list. *)
Theorem record_events_all_or_nothing (now : string) (username : value)
    (evs : list Event) (d : DB) :
  let o := record_events now username evs d in
  (∀ e, out o = Raise e → final o = d ∧ committed o = [])
  ∧ (out o = Ok () →
     ∃ rows,
       events (final o) = events d ++ rows
       ∧ Forall2 (λ row ev, row_of_event now ev row) rows evs
       ∧ e_id <$> rows = seqZ (seq_events d + 1) (Z.of_nat (length evs))
       ∧ watch_accounts (final o) = watch_accounts d
       ∧ snapshots (final o) = snapshots d
       ∧ failures (final o) = failures d
       ∧ settings (final o) = settings d
       ∧ committed o = match evs with [] => [] | _ => [final o] end).
Proof.
  intros o.
  destruct (record_events_cases now username evs d)
    as [(e & Hout & Hfinal & Hcommit) | (mks & Hout & Hfinal & Hcommit & Hall)];
    fold o in Hout, Hfinal, Hcommit.
  - split; [done|]. rewrite Hout. discriminate.
  - split; [rewrite Hout; discriminate|]. intros _.
    destruct (insert_events_effect (row_of_event now) mks evs d Hall)
      as (rows & Hev & Hrows & Hids & _ & Hw & Hs & Hf & Hset & _).
    exists rows. rewrite Hcommit, Hfinal. by repeat split.
Qed.

Lemma record_events_all_or_nothing_witness :
  out (record_events "2024-05-01T12:00:00+00:00" (VStr "alice")
         [numeric_event "followers" 100 150] Samples.db) = Ok ()
  ∧ ∃ rows,
      events (final (record_events "2024-05-01T12:00:00+00:00" (VStr "alice")
                       [numeric_event "followers" 100 150] Samples.db))
      = (events Samples.db ++ rows)%list
      ∧ length rows = 1%nat.
Proof.
  assert (Hout : out (record_events "2024-05-01T12:00:00+00:00" (VStr "alice")
                        [numeric_event "followers" 100 150] Samples.db) = Ok ())
    by reflexivity.
  split; [exact Hout|].
  destruct (record_events_all_or_nothing "2024-05-01T12:00:00+00:00"
              (VStr "alice") [numeric_event "followers" 100 150] Samples.db)
    as [_ Hok].
  destruct (Hok Hout) as (rows & Hrows & Hall & _).
  exists rows. split; [exact Hrows|]. exact (Forall2_length _ _ _ Hall).
Defined.

(** ** The invariants of the database *)

Lemma ids_below_nil (seq : Z) : ids_below seq [].
Proof. split; constructor. Qed.

Lemma ids_below_snoc (seq : Z) (ids : list Z) :
  ids_below seq ids → ids_below (seq + 1) (ids ++ [(seq + 1)%Z]).
Proof.
  intros [Hsorted Hle]. split.
  - apply StronglySorted_app. split; [|split; [done|]].
    + intros i j Hi ->%list_elem_of_singleton.
      rewrite Forall_forall in Hle. specialize (Hle i Hi). lia.
    + repeat constructor.
  - apply Forall_app. split; [|by repeat constructor; lia].
    eapply Forall_impl; [exact Hle|]. intros i Hi. simpl in Hi. lia.
Qed.

Lemma ids_below_seqZ (seq : Z) (ids : list Z) (n : nat) :
  ids_below seq ids →
  ids_below (seq + Z.of_nat n) (ids ++ seqZ (seq + 1) (Z.of_nat n)).
Proof.
  revert seq ids. induction n as [|n IH]; intros seq ids Hok.
  - rewrite seqZ_nil by lia. rewrite app_nil_r.
    by replace (seq + Z.of_nat 0)%Z with seq by lia.
  - rewrite seqZ_cons by lia.
    replace (Z.pred (Z.of_nat (S n))) with (Z.of_nat n) by lia.
    replace (seq + Z.of_nat (S n))%Z with (seq + 1 + Z.of_nat n)%Z by lia.
    change (ids ++ (seq + 1)%Z :: seqZ (Z.succ (seq + 1)) (Z.of_nat n))
      with (ids ++ [(seq + 1)%Z] ++ seqZ (Z.succ (seq + 1)) (Z.of_nat n)).
    rewrite app_assoc. apply IH. by apply ids_below_snoc.
Qed.

Lemma update_account_handles (f : WatchRow → WatchRow) (username : string)
    (rows : list WatchRow) :
  (∀ r, w_username (f r) = w_username r) →
  w_username <$> map (λ r, if String.eqb (w_username r) username
                           then f r else r) rows
  = w_username <$> rows.
Proof.
  intros Hf. induction rows as [|r rows IH]; [done|]. cbn. f_equal; [|exact IH].
  destruct (String.eqb (w_username r) username); [apply Hf|done].
Qed.

Lemma insert_account_do_nothing_ok (username now : string) (d : DB) :
  db_ok d → db_ok (snd (insert_account_do_nothing username now d)).
Proof.
  intros (Hu & Hrest). unfold insert_account_do_nothing. cbn [snd].
  destruct (find_account username (watch_accounts d)) eqn:E; [done|].
  split; [|exact Hrest]. unfold unique_handles in *.
  cbn [with_watch_accounts watch_accounts].
  rewrite fmap_app. apply NoDup_app. split; [done|]. split.
  - intros u Hin ->%list_elem_of_singleton. by apply find_account_None in E.
  - cbn. apply NoDup_singleton.
Qed.

Lemma update_account_ok (f : WatchRow → WatchRow) (username : string) (d : DB) :
  (∀ r, w_username (f r) = w_username r) →
  db_ok d → db_ok (snd (update_account f username d)).
Proof.
  intros Hf (Hu & Hrest). split; [|exact Hrest].
  unfold unique_handles in *. cbn [update_account snd with_watch_accounts
    watch_accounts]. by rewrite update_account_handles.
Qed.

Lemma insert_snapshot_ok (mk : Z → SnapshotRow) (d : DB) :
  (∀ id, s_id (mk id) = id) → db_ok d → db_ok (snd (insert_snapshot mk d)).
Proof.
  intros Hmk (Hu & Hs & He & Hf).
  split; [exact Hu|]. split; [|by split].
  cbn [insert_snapshot snd snapshots seq_snapshots].
  rewrite fmap_app. cbn [fmap list_fmap]. rewrite Hmk.
  by apply ids_below_snoc.
Qed.

Lemma insert_failure_ok (mk : Z → FailureRow) (d : DB) :
  (∀ id, f_id (mk id) = id) → db_ok d → db_ok (snd (insert_failure mk d)).
Proof.
  intros Hmk (Hu & Hs & He & Hf).
  split; [exact Hu|]. split; [exact Hs|]. split; [exact He|].
  cbn [insert_failure snd failures seq_failures].
  rewrite fmap_app. cbn [fmap list_fmap]. rewrite Hmk.
  by apply ids_below_snoc.
Qed.

Lemma insert_events_ok (mks : list (Z → EventRow)) (evs : list Event)
    (now : string) (d : DB) :
  Forall2 (λ mk ev, ∀ id, e_id (mk id) = id ∧ row_of_event now ev (mk id))
    mks evs →
  db_ok d → db_ok (insert_events mks d).
Proof.
  intros Hall (Hu & Hs & He & Hf).
  destruct (insert_events_effect (row_of_event now) mks evs d Hall)
    as (rows & Hev & _ & Hids & Hseq & Hw & Hsn & Hfl & _ & Hss & Hsf).
  unfold db_ok, unique_handles.
  rewrite Hw, Hsn, Hfl, Hss, Hsf, Hev, Hseq, fmap_app, Hids.
  split; [exact Hu|]. split; [exact Hs|]. split; [|exact Hf].
  by apply ids_below_seqZ.
Qed.

(** What each writing method leaves behind satisfies the invariant, in its
    final state and in every state it commits. *)
Lemma add_watch_account_ok (now username : string) (d : DB) :
  db_ok d →
  db_ok (final (add_watch_account now username d))
  ∧ Forall db_ok (committed (add_watch_account now username d)).
Proof.
  intros Hok. rewrite add_watch_account_final. cbn [final committed].
  assert (db_ok (snd (insert_account_set_active username now d))) as H.
  { unfold insert_account_set_active. cbn [snd].
    destruct (find_account username (watch_accounts d)) eqn:E.
    - by apply update_account_ok.
    - pose proof (insert_account_do_nothing_ok username now d Hok) as H.
      unfold insert_account_do_nothing in H. by rewrite E in H. }
  split; [done|by apply Forall_singleton].
Qed.

Lemma deactivate_watch_account_ok (username : string) (d : DB) :
  db_ok d →
  db_ok (final (deactivate_watch_account username d))
  ∧ Forall db_ok (committed (deactivate_watch_account username d)).
Proof.
  intros Hok. destruct (deactivate_final username d) as [-> ->].
  assert (db_ok (snd (update_account (set_active 0) username d)))
    by by apply update_account_ok.
  split; [done|by apply Forall_singleton].
Qed.

Lemma save_snapshot_ok_inv (now : string) (profile : gmap string value) (d : DB) :
  db_ok d →
  db_ok (final (save_snapshot now profile d))
  ∧ Forall db_ok (committed (save_snapshot now profile d)).
Proof.
  intros Hok.
  destruct (save_snapshot_cases now profile d)
    as [(e & _ & -> & ->) | (u & mk & _ & _ & -> & Hfinal & Hmk)].
  - split; [done|constructor].
  - assert (db_ok (final (save_snapshot now profile d))).
    { rewrite Hfinal. apply update_account_ok; [done|].
      apply insert_snapshot_ok; [intros id; apply Hmk|].
      by apply insert_account_do_nothing_ok. }
    split; [done|by apply Forall_singleton].
Qed.

Lemma record_failure_ok (now username error : string) (d : DB) :
  db_ok d →
  db_ok (final (record_failure now username error d))
  ∧ Forall db_ok (committed (record_failure now username error d)).
Proof.
  intros Hok.
  assert (db_ok (final (record_failure now username error d))).
  { change (final (record_failure now username error d))
      with (snd (update_account (set_checked now (Some error)) username
                   (snd (insert_failure
                           (λ id, {| f_id := id; f_username := username;
                                     f_checked_at := now; f_error := error |})
                           (snd (insert_account_do_nothing username now d)))))).
    apply update_account_ok; [done|]. apply insert_failure_ok; [done|].
    by apply insert_account_do_nothing_ok. }
  split; [done|]. destruct (record_failure_effect now username error d)
    as (_ & -> & _). by apply Forall_singleton.
Qed.

Lemma record_events_ok (now : string) (username : value) (evs : list Event)
    (d : DB) :
  db_ok d →
  db_ok (final (record_events now username evs d))
  ∧ Forall db_ok (committed (record_events now username evs d)).
Proof.
  intros Hok.
  destruct (record_events_cases now username evs d)
    as [(e & _ & -> & ->) | (mks & _ & Hfinal & -> & Hall)].
  - split; [done|constructor].
  - assert (db_ok (final (record_events now username evs d))).
    { rewrite Hfinal. by eapply insert_events_ok. }
    split; [done|]. destruct evs; [constructor|by apply Forall_singleton].
Qed.

Lemma delete_statements_ok (d : DB) :
  db_ok d →
  db_ok (delete_events d) ∧ db_ok (delete_failures d)
  ∧ db_ok (delete_snapshots d) ∧ db_ok (delete_watch_accounts d).
Proof.
  intros (Hu & Hs & He & Hf). unfold db_ok, unique_handles. cbn.
  pose proof ids_below_nil. pose proof (NoDup_nil_2 (A := string)).
  repeat match goal with |- _ ∧ _ => split end; auto.
Qed.

Lemma clear_monitor_data_ok (d : DB) :
  db_ok d →
  db_ok (final (clear_monitor_data d))
  ∧ Forall db_ok (committed (clear_monitor_data d)).
Proof.
  intros Hok.
  destruct (clear_monitor_data_commits d) as (_ & -> & ->).
  pose proof (proj1 (delete_statements_ok _ Hok)) as H1.
  pose proof (proj1 (proj2 (delete_statements_ok _ H1))) as H2.
  pose proof (proj1 (proj2 (proj2 (delete_statements_ok _ H2)))) as H3.
  pose proof (proj2 (proj2 (proj2 (delete_statements_ok _ H3)))) as H4.
  split; [done|]. by repeat (apply Forall_cons; split; [done|]).
Qed.

(** X5: every writing method of the store keeps the handles of the registry
    unique and the ids of the snapshot, event and failure tables increasing
    and below their AUTOINCREMENT mark, whether it returns or raises; so do
    all the states the data reset commits on its way; and the empty database
    satisfies both. *)
Theorem writers_keep_db_ok (now : string) (d : DB) :
  db_ok empty_db
  ∧ (db_ok d →
     (∀ username, db_ok (final (add_watch_account now username d)))
     ∧ (∀ username, db_ok (final (deactivate_watch_account username d)))
     ∧ (∀ profile, db_ok (final (save_snapshot now profile d)))
     ∧ (∀ username evs, db_ok (final (record_events now username evs d)))
     ∧ (∀ username error, db_ok (final (record_failure now username error d)))
     ∧ (∀ key v, db_ok (final (set_setting now key v d)))
     ∧ db_ok (final (clear_monitor_data d))
     ∧ Forall db_ok (committed (clear_monitor_data d))).
Proof.
  split.
  - unfold db_ok, unique_handles. cbn.
    pose proof ids_below_nil. pose proof (NoDup_nil_2 (A := string)).
    repeat match goal with |- _ ∧ _ => split end; auto.
  - intros Hok.
    split; [|split; [|split; [|split; [|split; [|split; [|split]]]]]].
    + intros u. by apply add_watch_account_ok.
    + intros u. by apply deactivate_watch_account_ok.
    + intros p. by apply save_snapshot_ok_inv.
    + intros u evs. by apply record_events_ok.
    + intros u e. by apply record_failure_ok.
    + intros key v. exact Hok.
    + by apply clear_monitor_data_ok.
    + by apply clear_monitor_data_ok.
Qed.

Lemma db_ok_samples : db_ok Samples.db.
Proof.
  unfold db_ok, unique_handles, ids_below. cbn.
  repeat match goal with |- _ ∧ _ => split end;
    by apply (bool_decide_unpack _); vm_compute.
Qed.

Lemma writers_keep_db_ok_witness :
  db_ok Samples.db
  ∧ db_ok (final (save_snapshot "2024-05-01T12:00:00+00:00"
                    Samples.alice_150 Samples.db)).
Proof.
  split; [exact db_ok_samples|].
  destruct (writers_keep_db_ok "2024-05-01T12:00:00+00:00" Samples.db)
    as [_ Hkeep].
  destruct (Hkeep db_ok_samples) as (_ & _ & Hsave & _).
  exact (Hsave Samples.alice_150).
Defined.

(** ** The latest snapshot *)

Lemma latest_row_snoc (username : string) (rows : list SnapshotRow)
    (r : SnapshotRow) :
  latest_row username (rows ++ [r])
  = if String.eqb (s_username r) username then
      match latest_row username rows with
      | Some b => if (s_id b <? s_id r)%Z then Some r else Some b
      | None => Some r
      end
    else latest_row username rows.
Proof.
  unfold latest_row. rewrite foldl_app. cbn [foldl].
  destruct (String.eqb (s_username r) username); [|done].
  by destruct (foldl _ None rows).
Qed.

Lemma latest_row_spec (username : string) (rows : list SnapshotRow) :
  match latest_row username rows with
  | Some r =>
      r ∈ rows ∧ s_username r = username
      ∧ ∀ r', r' ∈ rows → s_username r' = username → (s_id r' ≤ s_id r)%Z
  | None => ∀ r', r' ∈ rows → s_username r' ≠ username
  end.
Proof.
  induction rows as [|r rows IH] using rev_ind.
  - cbn. intros r' Hr'. by apply elem_of_nil in Hr'.
  - rewrite latest_row_snoc.
    destruct (String.eqb_spec (s_username r) username) as [Hname|Hname].
    + destruct (latest_row username rows) as [b|].
      * destruct IH as (Hin & Hbname & Hmax).
        destruct (Z.ltb_spec (s_id b) (s_id r)) as [Hlt|Hge].
        -- split; [set_solver|]. split; [done|].
           intros r' [Hr'| ->%list_elem_of_singleton]%elem_of_app Hn; [|lia].
           specialize (Hmax r' Hr' Hn). lia.
        -- split; [set_solver|]. split; [done|].
           intros r' [Hr'| ->%list_elem_of_singleton]%elem_of_app Hn; [|lia].
           by apply Hmax.
      * split; [set_solver|]. split; [done|].
        intros r' [Hr'| ->%list_elem_of_singleton]%elem_of_app Hn; [|lia].
        by destruct (IH r' Hr').
    + destruct (latest_row username rows) as [b|].
      * destruct IH as (Hin & Hbname & Hmax).
        split; [set_solver|]. split; [done|].
        intros r' [Hr'| ->%list_elem_of_singleton]%elem_of_app Hn; [|done].
        by apply Hmax.
      * intros r' [Hr'| ->%list_elem_of_singleton]%elem_of_app; [|done].
        by apply IH.
Qed.

(** X6: [get_latest_snapshot] answers with a snapshot of the handle asked
    for whose id no other snapshot of that handle exceeds, as the dictionary
    of its columns; it answers [None] exactly when the handle has no snapshot. *)
Theorem get_latest_snapshot_greatest (username : string) (d : DB) :
  match get_latest_snapshot username d with
  | Some dict =>
      ∃ r, dict = snapshot_dict r ∧ r ∈ snapshots d ∧ s_username r = username
           ∧ ∀ r', r' ∈ snapshots d → s_username r' = username →
                   (s_id r' ≤ s_id r)%Z
  | None => ∀ r', r' ∈ snapshots d → s_username r' ≠ username
  end.
Proof.
  unfold get_latest_snapshot.
  pose proof (latest_row_spec username (snapshots d)) as Hspec.
  destruct (latest_row username (snapshots d)) as [r|]; cbn; [|exact Hspec].
  exists r. by split.
Qed.

(** ** Reading back what was saved *)

Lemma bind_opt_int_column (o : option Z) (p : sql_value) :
  bind_opt_int o = Ok p → integer_column p = o.
Proof.
  destruct o as [z|]; cbn; [|by intros [= <-]].
  unfold bind_int. destruct (_ && _); [by intros [= <-]|discriminate].
Qed.

Lemma bind_param_text (v : value) (p : sql_value) :
  text_like v = true → bind_param v = Ok p → opt_text (text_column p) = v.
Proof. destruct v; cbn; try discriminate; by intros _ [= <-]. Qed.

Ltac sql_step_eq r H :=
  destruct r as [?|?] eqn:H; [cbn [fst snd] | discriminate].

(** The row a successful [save_snapshot] appends, column by column. *)
Lemma save_snapshot_row (now : string) (profile : gmap string value) (d : DB) :
  out (save_snapshot now profile d) = Ok () →
  ∃ u row,
    profile !! "username" = Some u
    ∧ snapshots (final (save_snapshot now profile d)) = snapshots d ++ [row]
    ∧ s_id row = (seq_snapshots d + 1)%Z
    ∧ s_username row = str u
    ∧ s_checked_at row = now
    ∧ _to_int (get profile "followers") = Ok (s_followers row)
    ∧ _to_int (get profile "following") = Ok (s_following row)
    ∧ _to_int (get profile "likes") = Ok (s_likes row)
    ∧ _to_int (get profile "videos_count") = Ok (s_videos_count row)
    ∧ s_verified row = (if truthy (get profile "verified") then 1 else 0)%Z
    ∧ (text_like (get profile "nickname") = true →
       opt_text (s_nickname row) = get profile "nickname")
    ∧ (text_like (get profile "bio") = true →
       opt_text (s_bio row) = get profile "bio").
Proof.
  unfold save_snapshot.
  destruct (profile !! "username") as [u|] eqn:Hu; [|discriminate].
  unfold with_connect, mbind, sql_mbind, sql_bind, lift, execute,
    mret, sql_mret, sql_ret.
  cbn [insert_account_do_nothing fst snd].
  sql_step_eq (_to_int (get profile "followers")) E1.
  sql_step_eq (_to_int (get profile "following")) E2.
  sql_step_eq (_to_int (get profile "likes")) E3.
  sql_step_eq (_to_int (get profile "videos_count")) E4.
  sql_step_eq (bind_param (get profile "nickname")) En.
  sql_step_eq (bind_param (get profile "bio")) Eb.
  match goal with |- context [bind_opt_int ?o] =>
    sql_step_eq (bind_opt_int o) B1 end.
  match goal with |- context [bind_opt_int ?o] =>
    sql_step_eq (bind_opt_int o) B2 end.
  match goal with |- context [bind_opt_int ?o] =>
    sql_step_eq (bind_opt_int o) B3 end.
  match goal with |- context [bind_opt_int ?o] =>
    sql_step_eq (bind_opt_int o) B4 end.
  match goal with |- context [bind_param ?v] =>
    sql_step_eq (bind_param v) Ep end.
  match goal with |- context [not_null ?c ?o] =>
    sql_step_eq (not_null c o) Eu end.
  intros _. eexists u, _. split; [reflexivity|].
  split.
  { cbn. destruct (find_account (str u) (watch_accounts d)); reflexivity. }
  cbn [s_id s_username s_checked_at s_followers s_following s_likes
       s_videos_count s_verified s_nickname s_bio].
  apply bind_opt_int_column in B1, B2, B3, B4. rewrite B1, B2, B3, B4.
  split.
  { destruct (find_account (str u) (watch_accounts d)); reflexivity. }
  repeat (split; [done|]).
  split; intros Ht; by apply bind_param_text.
Qed.

Lemma _as_int_is_to_int (v : value) : _as_int v = _to_int v.
Proof. by destruct v. Qed.

Lemma _as_int_opt_integer (o : option Z) : _as_int (opt_integer o) = Ok o.
Proof. by destruct o. Qed.

Lemma eqb_refl (v : value) : eqb v v = true.
Proof.
  destruct v as [|[]|z|t]; cbn; try done.
  - apply Z.eqb_refl.
  - apply String.eqb_refl.
Qed.

Lemma snapshot_dict_columns (r : SnapshotRow) :
  get (snapshot_dict r) "followers" = opt_integer (s_followers r)
  ∧ get (snapshot_dict r) "following" = opt_integer (s_following r)
  ∧ get (snapshot_dict r) "likes" = opt_integer (s_likes r)
  ∧ get (snapshot_dict r) "videos_count" = opt_integer (s_videos_count r)
  ∧ get (snapshot_dict r) "nickname" = opt_text (s_nickname r)
  ∧ get (snapshot_dict r) "bio" = opt_text (s_bio r)
  ∧ get (snapshot_dict r) "verified" = VInt (s_verified r)
  ∧ get (snapshot_dict r) "checked_at" = VStr (s_checked_at r)
  ∧ get (snapshot_dict r) "username" = VStr (s_username r).
Proof. repeat split; reflexivity. Qed.

(** A numeric field held by a row read back and by the profile it was
    written from contributes no event. *)
Lemma numeric_step_saved (previous current : gmap string value)
    (field : string) (o : option Z) :
  get previous field = opt_integer o →
  _to_int (get current field) = Ok o →
  Spec.numeric_step previous current field = [].
Proof.
  intros Hp Hc. unfold Spec.numeric_step.
  rewrite Hp, _as_int_opt_integer, _as_int_is_to_int, Hc.
  destruct o as [z|]; [|done]. by rewrite Z.eqb_refl.
Qed.

(** X7: a profile that has just been saved is what [get_latest_snapshot]
    returns for its handle, and comparing that snapshot with the very same
    profile detects no change, provided the nickname and the bio are strings
    or absent: re-checking an account whose profile did not move records no
    event. (The database is assumed to satisfy its id invariant.) *)
Theorem saved_profile_reads_back_unchanged
    (now : string) (profile : gmap string value) (d : DB) :
  db_ok d →
  out (save_snapshot now profile d) = Ok () →
  text_like (get profile "nickname") = true →
  text_like (get profile "bio") = true →
  ∃ u previous,
    profile !! "username" = Some u
    ∧ get_latest_snapshot (str u) (final (save_snapshot now profile d))
      = Some previous
    ∧ get previous "username" = VStr (str u)
    ∧ get previous "checked_at" = VStr now
    ∧ detect_profile_changes (Some previous) profile = Ok [].
Proof.
  intros (_ & [_ Hids] & _) Hout Hnick Hbio.
  destruct (save_snapshot_row now profile d Hout)
    as (u & row & Hu & Hsnap & Hid & Hname & Htime
        & Hf1 & Hf2 & Hf3 & Hf4 & Hver & Hn & Hb).
  exists u, (snapshot_dict row).
  destruct (snapshot_dict_columns row)
    as (C1 & C2 & C3 & C4 & C5 & C6 & C7 & C8 & C9).
  split; [done|]. split.
  - unfold get_latest_snapshot. rewrite Hsnap, latest_row_snoc, Hname.
    rewrite String.eqb_refl.
    pose proof (latest_row_spec (str u) (snapshots d)) as Hspec.
    destruct (latest_row (str u) (snapshots d)) as [b|]; [|done].
    destruct Hspec as (Hin & _ & _).
    rewrite Forall_forall in Hids.
    assert (s_id b ≤ seq_snapshots d)%Z as Hle.
    { apply Hids. apply list_elem_of_fmap. eauto. }
    destruct (Z.ltb_spec (s_id b) (s_id row)); [done|lia].
  - split; [by rewrite C9, Hname|]. split; [by rewrite C8, Htime|].
    rewrite detect_profile_changes_steps.
    unfold NUMERIC_FIELDS, TEXT_FIELDS, BOOLEAN_FIELDS. cbn [flat_map].
    rewrite (numeric_step_saved _ _ "followers" _ C1 Hf1).
    rewrite (numeric_step_saved _ _ "following" _ C2 Hf2).
    rewrite (numeric_step_saved _ _ "likes" _ C3 Hf3).
    rewrite (numeric_step_saved _ _ "videos_count" _ C4 Hf4).
    unfold Spec.text_step, Spec.boolean_step.
    rewrite C5, C6, C7, (Hn Hnick), (Hb Hbio), !eqb_refl, Hver.
    by destruct (truthy (get profile "verified")).
Qed.

Lemma saved_profile_reads_back_unchanged_witness :
  db_ok Samples.db
  ∧ ∃ previous,
      get_latest_snapshot "alice"
        (final (save_snapshot "2024-05-01T12:00:00+00:00"
                  Samples.alice_150 Samples.db)) = Some previous
      ∧ detect_profile_changes (Some previous) Samples.alice_150 = Ok [].
Proof.
  split; [exact db_ok_samples|].
  destruct (saved_profile_reads_back_unchanged "2024-05-01T12:00:00+00:00"
              Samples.alice_150 Samples.db db_ok_samples eq_refl eq_refl eq_refl)
    as (u & previous & Hu & Hlatest & _ & _ & Hdetect).
  exists previous. split; [|exact Hdetect].
  injection Hu as <-. exact Hlatest.
Defined.

(** ** The recency queries *)

Section NewestFirst.
Context {A : Type} (id : A → Z).

Lemma insert_by_last (le : A → A → bool) (x : A) (l : list A) :
  (∀ y, y ∈ l → le x y = false) → insert_by le x l = l ++ [x].
Proof.
  induction l as [|y l IH]; intros Hl; [done|]. cbn.
  rewrite Hl by left. f_equal. apply IH. intros z Hz. apply Hl. by right.
Qed.

(** Rows stored with increasing ids come out of ORDER BY id DESC reversed. *)
Lemma order_by_desc_reverse (l : list A) :
  StronglySorted Z.lt (id <$> l) →
  order_by (λ a b, (id b <=? id a)%Z) l = reverse l.
Proof.
  unfold order_by. induction l as [|x l IH]; [done|].
  rewrite fmap_cons, StronglySorted_cons. intros [Hx Hl].
  cbn [foldr]. rewrite IH by done. rewrite reverse_cons.
  apply insert_by_last. intros y Hy. rewrite elem_of_reverse in Hy.
  rewrite Forall_forall in Hx.
  assert (id x < id y)%Z.
  { apply Hx. apply list_elem_of_fmap. by exists y. }
  apply Z.leb_gt. lia.
Qed.

Lemma newest_first_reverse (limit : Z) (l : list A) :
  StronglySorted Z.lt (id <$> l) →
  (int64_min ≤ limit ≤ int64_max)%Z →
  newest_first id limit l
  = Ok (if (limit <? 0)%Z then reverse l
        else take (Z.to_nat limit) (reverse l)).
Proof.
  intros Hl [Hlo Hhi]. unfold newest_first, bind_int, sql_limit.
  rewrite (proj2 (Z.leb_le _ _) Hlo), (proj2 (Z.leb_le _ _) Hhi). cbn.
  by rewrite order_by_desc_reverse.
Qed.

Lemma newest_first_overflow (limit : Z) (l : list A) :
  ¬ (int64_min ≤ limit ≤ int64_max)%Z →
  ∃ e, newest_first id limit l = Raise e.
Proof.
  intros Hout. unfold newest_first, bind_int.
  destruct (Z.leb_spec int64_min limit), (Z.leb_spec limit int64_max);
    cbn; eauto. lia.
Qed.

End NewestFirst.

Lemma sorted_ids_filter {A} (id : A → Z) (p : A → bool) (l : list A) :
  StronglySorted Z.lt (id <$> l) → StronglySorted Z.lt (id <$> List.filter p l).
Proof.
  induction l as [|x l IH]; [done|].
  rewrite fmap_cons, StronglySorted_cons. intros [Hx Hl]. cbn.
  destruct (p x); [|by apply IH].
  rewrite fmap_cons, StronglySorted_cons. split; [|by apply IH].
  rewrite Forall_forall in Hx |- *. intros i (y & -> & Hy)%list_elem_of_fmap.
  apply Hx, list_elem_of_fmap. exists y. split; [done|].
  apply list_elem_of_In in Hy. apply filter_In in Hy as [Hy _].
  by apply list_elem_of_In.
Qed.

Lemma filter_by_username (username : string) (rows : list SnapshotRow) :
  List.filter (λ r, String.eqb (s_username r) username) rows
  = filter (λ r, s_username r = username) rows.
Proof.
  induction rows as [|r rows IH]; [done|]. cbn [List.filter].
  rewrite filter_cons.
  destruct (String.eqb_spec (s_username r) username) as [E|E].
  - rewrite decide_True by done. by f_equal.
  - by rewrite decide_False.
Qed.

(** X8: on a database satisfying the id invariant, and for a limit SQLite
    can take, the three recency queries return the rows in the reverse of the
    order in which they were written, newest first, cut to the first [limit]
    rows, or uncut when the limit is negative; [get_snapshots] does so for the
    snapshots of the handle asked for only. In particular a limit of zero or
    more bounds the number of rows returned. *)
Theorem recency_queries_newest_first (username : string) (limit : Z) (d : DB) :
  db_ok d →
  (int64_min ≤ limit ≤ int64_max)%Z →
  let cut {A} (rows : list A) : list A :=
    if (limit <? 0)%Z then reverse rows
    else take (Z.to_nat limit) (reverse rows) in
  get_recent_events limit d = Ok (cut (events d))
  ∧ get_recent_failures limit d = Ok (cut (failures d))
  ∧ get_snapshots username limit d
    = Ok (cut (filter (λ r, s_username r = username) (snapshots d)))
  ∧ ((0 ≤ limit)%Z →
     (length (cut (events d)) ≤ Z.to_nat limit)%nat
     ∧ (length (cut (failures d)) ≤ Z.to_nat limit)%nat
     ∧ (length (cut (filter (λ r, s_username r = username) (snapshots d)))
        ≤ Z.to_nat limit)%nat).
Proof.
  intros (_ & [Hs _] & [He _] & [Hf _]) Hlimit cut.
  pose proof (filter_by_username username (snapshots d)) as Hfilter.
  split; [by apply newest_first_reverse|].
  split; [by apply newest_first_reverse|].
  split.
  - unfold get_snapshots. rewrite <- Hfilter.
    apply newest_first_reverse; [|done]. by apply sorted_ids_filter.
  - intros Hpos. unfold cut.
    destruct (Z.ltb_spec limit 0); [lia|].
    rewrite !length_take. lia.
Qed.

Lemma recency_queries_newest_first_witness :
  db_ok Samples.db
  ∧ (int64_min ≤ 1 ≤ int64_max)%Z
  ∧ get_recent_events 1 Samples.db = Ok (take 1 (reverse (events Samples.db))).
Proof.
  assert (Hr : (int64_min ≤ 1 ≤ int64_max)%Z)
    by (split; vm_compute; discriminate).
  split; [exact db_ok_samples|]. split; [exact Hr|].
  apply (recency_queries_newest_first "alice" 1 Samples.db db_ok_samples Hr).
Defined.

(** ** The cycle *)

Lemma frames_bind {A B} (m : M A) (k : A → M B) :
  frames m → (∀ a, frames (k a)) → frames (m ≫= k).
Proof.
  intros Hm Hk s. unfold mbind, m_mbind, m_bind.
  destruct (Hm s) as [w Hw]. destruct (m s) as [[a|e] s1]; cbn in Hw; subst s1.
  - destruct (Hk a (set_world w s)) as [w' Hw']. exists w'. by rewrite Hw'.
  - by exists w.
Qed.

Lemma frames_ret {A} (a : A) : frames (mret a : M A).
Proof. intros s. exists (world s). by destruct s. Qed.

Lemma frames_store_write {A} (env : Env) (op : string → DB → Outcome A) :
  frames (store_write env op).
Proof. intros s. by eexists. Qed.

Lemma frames_store_read {A} (q : DB → A) : frames (store_read q).
Proof. intros s. exists (world s). by destruct s. Qed.

Lemma frames_try_fetch (env : Env) (username : string) :
  frames (try_fetch env username).
Proof. intros s. by eexists. Qed.

Lemma frames_lift_result {A} (r : result A) : frames (lift_result r).
Proof. intros s. exists (world s). by destruct s. Qed.

Lemma frames_check_account (env : Env) (username : string) :
  frames (check_account env username).
Proof.
  unfold check_account.
  apply frames_bind; [apply frames_store_read|]. intros previous.
  apply frames_bind; [apply frames_try_fetch|]. intros [current|exc].
  - apply frames_bind; [apply frames_store_write|]. intros _.
    apply frames_bind; [apply frames_lift_result|]. intros evs.
    apply frames_bind; [apply frames_lift_result|]. intros canonical.
    apply frames_bind; [apply frames_store_write|]. intros _.
    apply frames_ret.
  - destruct exc;
      (apply frames_bind; [apply frames_store_write|]; intros _;
       apply frames_ret).
Qed.

Lemma frames_check_loop (env : Env) (accounts : list WatchRow) (c f : Z) :
  frames (check_loop env accounts c f).
Proof.
  revert c f. induction accounts as [|a accounts IH]; intros c f.
  - apply frames_ret.
  - cbn [check_loop]. apply frames_bind; [apply frames_check_account|].
    intros [|]; apply IH.
Qed.

(** The calls a method makes to the environment only add up. *)
Lemma check_account_calls (env : Env) (username : string) (s : Service) :
  (calls (world s) < calls (world (snd (check_account env username s))))%nat.
Proof.
  unfold check_account, mbind, m_mbind, m_bind, store_read, try_fetch,
    store_write, lift_result, mret, m_mret.
  cbn -[record_failure save_snapshot record_events detect_profile_changes].
  destruct (Scraper.fetch_tiktok_profile _ username) as [current|exc].
  - destruct (out (save_snapshot _ current _));
      cbn -[record_failure save_snapshot record_events detect_profile_changes];
      [|lia].
    destruct (detect_profile_changes _ current);
      cbn -[record_failure save_snapshot record_events detect_profile_changes];
      [|lia].
    destruct (subscript current "username");
      cbn -[record_failure save_snapshot record_events detect_profile_changes];
      [|lia].
    destruct (out (record_events _ _ _ _));
      cbn -[record_failure save_snapshot record_events detect_profile_changes];
      lia.
  - destruct exc;
      cbn -[record_failure save_snapshot record_events detect_profile_changes];
      destruct (out (record_failure _ _ _ _));
      cbn -[record_failure save_snapshot record_events detect_profile_changes];
      lia.
Qed.

Lemma check_loop_calls (env : Env) (accounts : list WatchRow) (c f : Z)
    (s : Service) :
  (calls (world s) ≤ calls (world (snd (check_loop env accounts c f s))))%nat.
Proof.
  revert c f s. induction accounts as [|a accounts IH]; intros c f s; [done|].
  cbn [check_loop]. unfold mbind, m_mbind, m_bind.
  pose proof (check_account_calls env (w_username a) s) as Hstep.
  destruct (check_account env (w_username a) s) as [[[|]|e] s1]; cbn in *.
  - specialize (IH (c + 1)%Z f s1). lia.
  - specialize (IH c (f + 1)%Z s1). lia.
  - lia.
Qed.

Lemma check_loop_counts (env : Env) (accounts : list WatchRow) (c f : Z)
    (s : Service) :
  match fst (check_loop env accounts c f s) with
  | Ok (c', f') =>
      (c' + f' = c + f + Z.of_nat (length accounts))%Z ∧ (c ≤ c')%Z ∧ (f ≤ f')%Z
  | Raise _ => True
  end.
Proof.
  revert c f s. induction accounts as [|a accounts IH]; intros c f s.
  - cbn. lia.
  - cbn [check_loop]. unfold mbind, m_mbind, m_bind.
    destruct (check_account env (w_username a) s) as [[[|]|e] s1]; [..|done].
    + specialize (IH (c + 1)%Z f s1).
      destruct (fst (check_loop env accounts (c + 1) f s1)) as [[c' f']|];
        [|done]. cbn [length]. lia.
    + specialize (IH c (f + 1)%Z s1).
      destruct (fst (check_loop env accounts c (f + 1) s1)) as [[c' f']|];
        [|done]. cbn [length]. lia.
Qed.

Lemma run_cycle_spec (env : Env) (s : Service) :
  ∃ w, (calls (world s) ≤ calls w)%nat ∧
    match fst (run_cycle env s) with
    | Ok m =>
        snd (run_cycle env s) = set_last_run_summary m (set_world w s)
        ∧ status m = "ok"
        ∧ accounts m
          = Z.of_nat (length (list_watch_accounts true (store (world s))))
        ∧ (checked m + failed m = accounts m)%Z
        ∧ (0 ≤ checked m)%Z ∧ (0 ≤ failed m)%Z
    | Raise _ => snd (run_cycle env s) = set_world w s
    end.
Proof.
  unfold run_cycle, mbind, m_mbind, m_bind, store_read, modify, mret, m_mret.
  set (active := list_watch_accounts true (store (world s))).
  destruct (frames_check_loop env active 0 0 s) as [w Hw].
  pose proof (check_loop_calls env active 0 0 s) as Hcalls.
  pose proof (check_loop_counts env active 0 0 s) as Hcounts.
  exists w. rewrite Hw in Hcalls. split; [exact Hcalls|].
  destruct (check_loop env active 0 0 s) as [[[c f]|e] s1];
    cbn in Hw, Hcounts |- *; subst s1; [|done].
  repeat split; try done; lia.
Qed.

(** X9: a call of [run_once] that finds the guard free always releases it
    again, whether the cycle returns or an account check raises. It stamps the
    start with the clock reading taken on entry and the finish with the last
    clock reading it takes, touches neither the interval, the stop flag nor
    the thread, and, when the cycle returns, reports status ok, counts as
    accounts the active handles listed when it began, splits that number into
    checked and failed, and keeps the summary as the last one; when the cycle
    raises, the previous summary stays. *)
Theorem run_once_releases_guard (env : Env) (s : Service) :
  run_lock s = false →
  ∀ r s', run_once env s = (r, s') →
    run_lock s' = false
    ∧ last_run_started_at s' = Some (clock env (calls (world s)))
    ∧ (∃ n, (calls (world s) < n)%nat ∧ calls (world s') = S n
            ∧ last_run_finished_at s' = Some (clock env n))
    ∧ interval_seconds s' = interval_seconds s
    ∧ stop_event s' = stop_event s
    ∧ thread s' = thread s
    ∧ match r with
      | Ok m =>
          status m = "ok"
          ∧ accounts m
            = Z.of_nat (length (list_watch_accounts true (store (world s))))
          ∧ (checked m + failed m = accounts m)%Z
          ∧ (0 ≤ checked m)%Z ∧ (0 ≤ failed m)%Z
          ∧ last_run_summary s' = Some m
      | Raise _ => last_run_summary s' = last_run_summary s
      end.
Proof.
  intros Hfree r s'. unfold run_once, utc_now_iso. rewrite Hfree.
  set (s3 := set_last_run_started_at _ _).
  destruct (run_cycle_spec env s3) as (w & Hcalls & Hcycle).
  destruct (run_cycle env s3) as [r0 s4]. cbn [fst snd] in Hcycle.
  intros [= <- <-].
  assert (Hs4 : ∃ s4', s4 = s4' ∧ world s4 = w ∧ run_lock s4 = true
            ∧ last_run_started_at s4 = Some (clock env (calls (world s)))
            ∧ interval_seconds s4 = interval_seconds s
            ∧ stop_event s4 = stop_event s ∧ thread s4 = thread s).
  { exists s4. destruct r0 as [m|e].
    - destruct Hcycle as (-> & _). by repeat split.
    - rewrite Hcycle. by repeat split. }
  destruct Hs4 as (_ & _ & Hw & _ & Hstart & Hint & Hstop & Hthread).
  cbn [run_lock last_run_started_at last_run_finished_at interval_seconds
       stop_event thread world set_run_lock set_last_run_finished_at
       set_world tick calls].
  split; [done|]. split; [done|]. split.
  { exists (calls (world s4)). rewrite Hw. repeat split.
    subst s3. cbn in Hcalls. lia. }
  repeat (split; [done|]).
  destruct r0 as [m|e].
  - destruct Hcycle as (-> & Hst & Hacc & Hsum & Hc & Hf).
    cbn. repeat split; try done.
  - rewrite Hcycle. done.
Qed.

Lemma run_once_releases_guard_witness :
  run_lock (Samples.service false None) = false
  ∧ run_lock (snd (run_once Samples.env (Samples.service false None))) = false.
Proof.
  split; [reflexivity|].
  eapply (run_once_releases_guard Samples.env (Samples.service false None)
            eq_refl).
  apply surjective_pairing.
Defined.

Lemma check_loop_all_fail (env : Env) (accounts : list WatchRow) (c f : Z)
    (s : Service) :
  (∀ n u, ∃ e, Scraper.fetch_tiktok_profile (remote env n) u = Raise e) →
  ∃ s',
    check_loop env accounts c f s
    = (Ok (c, (f + Z.of_nat (length accounts))%Z), s')
    ∧ f_username <$> failures (store (world s'))
      = (f_username <$> failures (store (world s))) ++ (w_username <$> accounts)
    ∧ snapshots (store (world s')) = snapshots (store (world s))
    ∧ events (store (world s')) = events (store (world s))
    ∧ settings (store (world s')) = settings (store (world s)).
Proof.
  intros Hfail. revert c f s.
  induction accounts as [|a accounts IH]; intros c f s.
  - exists s. cbn [check_loop length fmap list_fmap Z.of_nat].
    rewrite Z.add_0_r, app_nil_r. by repeat split.
  - replace (f + Z.of_nat (length (a :: accounts)))%Z
      with (f + 1 + Z.of_nat (length accounts))%Z by (cbn [length]; lia).
    cbn [check_loop]. unfold mbind, m_mbind, m_bind.
    destruct (Hfail (calls (world s)) (w_username a)) as [e He].
    rewrite (check_account_failure_branch env s (w_username a) e He).
    set (s1 := snd (store_write env _ _)).
    destruct (record_failure_effect (clock env (S (calls (world s))))
                (w_username a) (Spec.failure_text e) (store (world s)))
      as (_ & _ & Hf1 & Hs1 & He1 & Hset1 & _).
    destruct (IH c (f + 1)%Z s1) as (s' & Hloop & Hf & Hs & Hev & Hset).
    exists s'. rewrite Hloop, Hf, Hs, Hev, Hset.
    subst s1. unfold store_write. cbn -[record_failure].
    rewrite Hf1, Hs1, He1, Hset1, fmap_app. cbn [fmap list_fmap f_username].
    rewrite <- app_assoc. by repeat split.
Qed.

(** X10: when every fetch of a cycle raises, the cycle still completes: it
    reports all the active accounts as failed and none as checked, and leaves
    one new failure row per active account, in the order of the listing, with
    no snapshot, event or setting written. *)
Theorem cycle_survives_failing_fetches (env : Env) (s : Service) :
  (∀ n u, ∃ e, Scraper.fetch_tiktok_profile (remote env n) u = Raise e) →
  run_lock s = false →
  let active := list_watch_accounts true (store (world s)) in
  ∃ s',
    run_once env s
    = (Ok {| status := "ok"; accounts := Z.of_nat (length active);
             checked := 0; failed := Z.of_nat (length active) |}, s')
    ∧ f_username <$> failures (store (world s'))
      = (f_username <$> failures (store (world s))) ++ (w_username <$> active)
    ∧ snapshots (store (world s')) = snapshots (store (world s))
    ∧ events (store (world s')) = events (store (world s))
    ∧ settings (store (world s')) = settings (store (world s)).
Proof.
  intros Hfail Hfree active.
  unfold run_once, utc_now_iso. rewrite Hfree.
  set (s3 := set_last_run_started_at _ _).
  unfold run_cycle, mbind, m_mbind, m_bind, store_read, modify, mret, m_mret.
  change (list_watch_accounts true (store (world s3))) with active.
  destruct (check_loop_all_fail env active 0 0 s3 Hfail)
    as (s4 & -> & Hf & Hs & Hev & Hset).
  eexists. split; [reflexivity|]. cbn. by rewrite Hf, Hs, Hev, Hset.
Qed.

Lemma cycle_survives_failing_fetches_witness :
  run_lock (Samples.service false None) = false
  ∧ fst (run_once Cases.offline (Samples.service false None))
    = Ok {| status := "ok"; accounts := 2; checked := 0; failed := 2 |}.
Proof.
  split; [reflexivity|].
  destruct (cycle_survives_failing_fetches Cases.offline
              (Samples.service false None)) as (s' & -> & _).
  - intros n u. unfold Scraper.fetch_tiktok_profile.
    destruct (Scraper.normalize_username u); cbn; eauto.
  - reflexivity.
  - reflexivity.
Defined.

(** ** A successful check *)

(** X11: when the store holds no snapshot under the handle [check_account]
    is called with, and the fetch delivers a profile that can be stored, the
    check returns [True], appends exactly one snapshot (filed under the
    profile's own handle and stamped with the time of the write), records no
    event and no failure, clears the last error of the profile's handle, and
    commits once. This is the first check of an account, and also every check
    made under a handle that differs from the one the site reports. *)
Theorem check_without_previous_records_no_event
    (env : Env) (s : Service) (username : string)
    (current : gmap string value) :
  Scraper.fetch_tiktok_profile (remote env (calls (world s))) username
  = Ok current →
  Spec.storable current = true →
  get_latest_snapshot username (store (world s)) = None →
  ∃ s' u row,
    check_account env username s = (Ok true, s')
    ∧ current !! "username" = Some u
    ∧ snapshots (store (world s')) = snapshots (store (world s)) ++ [row]
    ∧ s_username row = str u
    ∧ s_checked_at row = clock env (S (calls (world s)))
    ∧ events (store (world s')) = events (store (world s))
    ∧ failures (store (world s')) = failures (store (world s))
    ∧ (∃ r, find_account (str u) (watch_accounts (store (world s'))) = Some r
            ∧ w_last_error r = None)
    ∧ journal (world s') = journal (world s) ++ [store (world s')].
Proof.
  intros Hfetch Hstorable Hprev.
  set (now := clock env (S (calls (world s)))).
  pose proof (save_snapshot_ok now current (store (world s)) Hstorable) as Hout.
  destruct (save_snapshot_row now current (store (world s)) Hout)
    as (u & row & Hu & Hsnap & _ & Hname & Htime & _).
  destruct (save_snapshot_cases now current (store (world s)))
    as [(e & Hraise & _) | (u' & mk & Hu' & _ & Hcommit & Hfinal & _)];
    [congruence|].
  assert (u' = u) as -> by congruence.
  exists (snd (check_account env username s)), u, row.
  unfold check_account, mbind, m_mbind, m_bind, store_read, try_fetch,
    store_write, lift_result, subscript, mret, m_mret.
  cbn -[save_snapshot record_events detect_profile_changes
        Scraper.fetch_tiktok_profile].
  rewrite Hfetch, Hprev. unfold set_world, tick.
  cbn [world store journal calls]. fold now. rewrite Hout.
  cbn -[save_snapshot]. rewrite Hu. cbn -[save_snapshot].
  rewrite app_nil_r.
  split; [done|]. split; [done|]. split; [done|]. split; [done|].
  split; [done|].
  assert (Htables : events (final (save_snapshot now current (store (world s))))
                    = events (store (world s))
                    ∧ failures (final (save_snapshot now current (store (world s))))
                      = failures (store (world s))).
  { rewrite Hfinal. unfold insert_account_do_nothing. cbn.
    by destruct (find_account (str u) (watch_accounts (store (world s)))). }
  destruct Htables as [Hev Hfl].
  split; [done|]. split; [done|]. split.
  - eexists. split.
    + rewrite Hfinal.
      etrans; [exact (bookkeeping_lookup (str u) now None (str u)
                        (store (world s)))|].
      by rewrite decide_True.
    + done.
  - by rewrite Hcommit.
Qed.

Lemma check_without_previous_records_no_event_witness :
  get_latest_snapshot "alice" (store (world (Samples.service false None))) = None
  ∧ ∃ s', check_account Samples.env "alice" (Samples.service false None)
          = (Ok true, s')
          ∧ events (store (world s')) = events Samples.db.
Proof.
  split; [reflexivity|].
  destruct (check_without_previous_records_no_event Samples.env
              (Samples.service false None) "alice" Samples.alice_100
              eq_refl eq_refl eq_refl)
    as (s' & u & row & Hrun & _ & _ & _ & _ & Hev & _).
  exists s'. by split.
Defined.

(** ** The invariant along the service's methods *)

Lemma keeps_bind {A B} (m : M A) (k : A → M B) :
  keeps m → (∀ a, keeps (k a)) → keeps (m ≫= k).
Proof.
  intros Hm Hk s Hs. unfold mbind, m_mbind, m_bind.
  specialize (Hm s Hs). destruct (m s) as [[a|e] s1]; cbn in Hm |- *; [|done].
  by apply Hk.
Qed.

Lemma keeps_ret {A} (a : A) : keeps (mret a : M A).
Proof. by intros s Hs. Qed.

Lemma keeps_store_write {A} (env : Env) (op : string → DB → Outcome A) :
  (∀ now d, db_ok d →
     db_ok (final (op now d)) ∧ Forall db_ok (committed (op now d))) →
  keeps (store_write env op).
Proof.
  intros Hop s [Hdb Hj]. unfold store_write, svc_ok. cbn.
  destruct (Hop (clock env (calls (world s))) (store (world s)) Hdb) as [H1 H2].
  split; [done|]. apply Forall_app. by split.
Qed.

Lemma keeps_check_account (env : Env) (username : string) :
  keeps (check_account env username).
Proof.
  unfold check_account.
  apply keeps_bind; [by intros s Hs|]. intros previous.
  apply keeps_bind; [by intros s Hs|]. intros [current|exc].
  - apply keeps_bind.
    { apply keeps_store_write. intros now d. apply save_snapshot_ok_inv. }
    intros _. apply keeps_bind; [by intros s Hs|]. intros evs.
    apply keeps_bind; [by intros s Hs|]. intros canonical.
    apply keeps_bind; [|intros _; apply keeps_ret].
    apply keeps_store_write. intros now d. apply record_events_ok.
  - destruct exc;
      (apply keeps_bind; [|intros _; apply keeps_ret];
       apply keeps_store_write; intros now d; apply record_failure_ok).
Qed.

Lemma keeps_check_loop (env : Env) (accounts : list WatchRow) (c f : Z) :
  keeps (check_loop env accounts c f).
Proof.
  revert c f. induction accounts as [|a accounts IH]; intros c f.
  - apply keeps_ret.
  - cbn [check_loop]. apply keeps_bind; [apply keeps_check_account|].
    intros [|]; apply IH.
Qed.

Lemma keeps_run_once (env : Env) : keeps (run_once env).
Proof.
  intros s Hs. unfold run_once, utc_now_iso.
  destruct (run_lock s); [done|].
  set (s3 := set_last_run_started_at _ _).
  assert (Hs3 : svc_ok s3) by done.
  assert (Hcycle : keeps (run_cycle env)).
  { unfold run_cycle. apply keeps_bind; [by intros s0 Hs0|]. intros accounts.
    apply keeps_bind; [apply keeps_check_loop|]. intros counts.
    apply keeps_bind; [by intros s0 Hs0|]. intros _. apply keeps_ret. }
  specialize (Hcycle s3 Hs3). by destruct (run_cycle env s3).
Qed.

(** X12: if the database behind the service and all the states committed to
    it so far have unique handles and well-ordered ids, the same holds after
    [check_account], after [run_once], after the data reset and after the
    removal of a handle from the dashboard, whatever the site answers and
    whether these calls return or raise. *)
Theorem service_keeps_db_ok (env : Env) (s : Service) :
  svc_ok s →
  (∀ username, svc_ok (snd (check_account env username s)))
  ∧ svc_ok (snd (run_once env s))
  ∧ (∀ a, App.monitor a = s → svc_ok (App.monitor (App.reset_monitor_data a)))
  ∧ (∀ a form_value, App.monitor a = s →
       svc_ok (App.monitor (App.remove_watch form_value a))).
Proof.
  intros Hs. split; [|split; [|split]].
  - intros username. by apply keeps_check_account.
  - by apply keeps_run_once.
  - intros a <-. unfold App.reset_monitor_data.
    destruct (is_running (App.monitor a)); [done|].
    destruct Hs as [Hdb Hj].
    destruct (clear_monitor_data_ok _ Hdb) as [H1 H2].
    split; [done|]. cbn. apply Forall_app. by split.
  - intros a form_value <-. unfold App.remove_watch.
    destruct (String.eqb _ ""); [done|].
    destruct Hs as [Hdb Hj].
    match goal with |- context [deactivate_watch_account ?u ?d] =>
      destruct (deactivate_watch_account_ok u d Hdb) as [H1 H2];
      destruct (out (deactivate_watch_account u d)) as [[|]|]
    end; (split; [done|]; cbn; apply Forall_app; by split).
Qed.

Lemma service_keeps_db_ok_witness :
  svc_ok (Samples.service false None)
  ∧ svc_ok (snd (run_once Samples.env (Samples.service false None))).
Proof.
  assert (Hs : svc_ok (Samples.service false None)).
  { split; [exact db_ok_samples|constructor]. }
  split; [exact Hs|].
  destruct (service_keeps_db_ok Samples.env (Samples.service false None) Hs)
    as (_ & Hrun & _).
  exact Hrun.
Defined.

(** ** Decimal strings *)

Lemma pretty_N_char_digit (x : N) :
  (x < 10)%N →
  is_digit (pretty_N_char x) = true
  ∧ digit_val (pretty_N_char x) = Z.of_N x
  ∧ is_int_space (pretty_N_char x) = false.
Proof.
  intros Hx.
  assert (x = 0 ∨ x = 1 ∨ x = 2 ∨ x = 3 ∨ x = 4 ∨ x = 5 ∨ x = 6 ∨ x = 7
          ∨ x = 8 ∨ x = 9)%N as Hcases by lia.
  repeat (destruct Hcases as [->|Hcases]; [by vm_compute|]).
  subst. by vm_compute.
Qed.

(** Reading the digits [pretty_N_go] writes in front of [s] shifts the
    accumulator and adds the number written. *)
Lemma int_digits_pretty_go (n : N) :
  (0 < n)%N →
  ∃ k, (0 ≤ k)%Z ∧ ∀ s acc prev,
    int_digits (pretty_N_go n s) acc prev
    = int_digits s (acc * 10 ^ k + Z.of_N n) true.
Proof.
  induction (N.lt_wf_0 n) as [n _ IH]. intros Hn.
  destruct (pretty_N_char_digit (n `mod` 10)) as (Hd & Hv & _).
  { by apply N.mod_lt. }
  destruct (decide (n `div` 10 = 0)%N) as [Hz|Hnz].
  - exists 1%Z. split; [lia|]. intros s acc prev.
    rewrite pretty_N_go_step, Hz, pretty_N_go_0 by done.
    cbn [int_digits]. rewrite Hd, Hv. f_equal.
    rewrite N.mod_small by (apply N.div_small_iff; [done|exact Hz]). lia.
  - destruct (IH (n `div` 10)%N) as (k & Hk & Hgo).
    { by apply N.div_lt. }
    { by apply N.neq_0_lt_0. }
    exists (k + 1)%Z. split; [lia|]. intros s acc prev.
    rewrite pretty_N_go_step, Hgo by done.
    cbn [int_digits]. rewrite Hd, Hv. f_equal.
    rewrite Z.pow_add_r by lia.
    pose proof (N.div_mod n 10) as Hdm.
    assert (Z.of_N n = 10 * Z.of_N (n `div` 10) + Z.of_N (n `mod` 10))%Z
      by lia.
    lia.
Qed.

Lemma pretty_go_head (n : N) (s : string) :
  (0 < n)%N → ∃ c r, pretty_N_go n s = String c r ∧ is_digit c = true.
Proof.
  revert s. induction (N.lt_wf_0 n) as [n _ IH]. intros s Hn.
  rewrite pretty_N_go_step by done.
  destruct (decide (n `div` 10 = 0)%N) as [Hz|Hnz].
  - rewrite Hz, pretty_N_go_0. eexists _, _. split; [done|].
    apply pretty_N_char_digit. by apply N.mod_lt.
  - apply IH; [by apply N.div_lt|by apply N.neq_0_lt_0].
Qed.

Lemma pretty_go_no_space (n : N) (s : string) :
  Scraper.all_chars (λ c, negb (is_int_space c)) (pretty_N_go n s)
  = Scraper.all_chars (λ c, negb (is_int_space c)) s.
Proof.
  revert s. induction (N.lt_wf_0 n) as [n _ IH]. intros s.
  destruct (decide (0 < n)%N) as [Hn|Hn].
  - rewrite pretty_N_go_step by done. rewrite IH by (by apply N.div_lt).
    cbn. destruct (pretty_N_char_digit (n `mod` 10)) as (_ & _ & ->); [|done].
    by apply N.mod_lt.
  - assert (n = 0%N) as -> by lia. by rewrite pretty_N_go_0.
Qed.

Lemma int_of_str_unsigned (c : ascii) (r : string) :
  is_digit c = true →
  strip_by is_int_space (String c r) = String c r →
  int_of_str (String c r) = int_digits (String c r) 0 false.
Proof.
  intros Hc Hs. unfold int_of_str. rewrite Hs.
  destruct c as [[] [] [] [] [] [] [] []]; try reflexivity;
    by vm_compute in Hc.
Qed.

(** What [str] writes of an integer, [int] reads back. *)
Lemma int_of_str_pretty (z : Z) : int_of_str (pretty z) = Some z.
Proof.
  assert (Hpos : ∀ q : positive,
    Scraper.all_chars (λ c, negb (is_int_space c)) (pretty (Npos q)) = true
    ∧ ∃ c r, pretty (Npos q) = String c r ∧ is_digit c = true
             ∧ int_digits (String c r) 0 false = Some (Zpos q)).
  { intros q. unfold pretty, pretty_N. rewrite decide_False by done. split.
    - by rewrite pretty_go_no_space.
    - destruct (pretty_go_head (Npos q) "") as (c & r & Heq & Hc); [done|].
      exists c, r. split; [done|]. split; [done|]. rewrite <- Heq.
      destruct (int_digits_pretty_go (Npos q)) as (k & _ & Hgo); [done|].
      rewrite Hgo. cbn. done. }
  destruct z as [|q|q].
  - reflexivity.
  - destruct (Hpos q) as (Hclean & c & r & Heq & Hc & Hval).
    change (pretty (Zpos q)) with (pretty (Npos q)). rewrite Heq.
    rewrite int_of_str_unsigned; [done|done|].
    rewrite <- Heq. by apply strip_by_clean.
  - destruct (Hpos q) as (Hclean & c & r & Heq & Hc & Hval).
    change (pretty (Zneg q)) with (String "-" (pretty (Npos q))).
    unfold int_of_str. rewrite strip_by_clean by (cbn; by rewrite Hclean).
    rewrite Heq, Hval. done.
Qed.

(** So the decimal text of an integer parses as that integer. *)
Lemma parsed_integer_decimal (z : Z) :
  Spec.parsed_integer (VStr (pretty z)) = Some z.
Proof. apply int_of_str_pretty. Qed.

(** ** The settings *)

Import SettingsInv.

Lemma item_elem_of {V} (d : list (string * V)) (key : string) (v : V) :
  Settings.item d key = Ok v → (key, v) ∈ d.
Proof.
  unfold Settings.item.
  destruct (List.find _ d) as [[k v']|] eqn:E; [|discriminate].
  intros [= <-]. apply find_some in E as [Hin Hk]. cbn in Hk.
  apply String.eqb_eq in Hk as ->. by apply list_elem_of_In.
Qed.

(** The definitions come in two shapes. *)
Lemma definition_shapes (e : Settings.EnvDefaults) (key : string)
    (definition : Settings.SettingDef) :
  (key, definition) ∈ Settings.SETTING_DEFINITIONS e →
  Settings.item (Settings.SETTING_DEFINITIONS e) key = Ok definition
  ∧ ((Settings.type definition = "bool"
      ∧ ∃ b, Settings.default definition = VBool b)
     ∨ (Settings.type definition = "int"
        ∧ ∃ lo hi, Settings.min definition = Some lo
                   ∧ Settings.max definition = Some hi)).
Proof.
  unfold Settings.SETTING_DEFINITIONS. intros Hin.
  repeat (apply elem_of_cons in Hin as [[= -> ->]|Hin];
          [split; [reflexivity|]; cbn; eauto 10|]).
  by apply elem_of_nil in Hin.
Qed.

Lemma parse_setting_valid (e : Settings.EnvDefaults) (key : string)
    (definition : Settings.SettingDef) (raw : value) :
  (key, definition) ∈ Settings.SETTING_DEFINITIONS e →
  match Settings._parse_setting_value e key raw with
  | Ok v => valid_value definition v = true
  | Raise exc =>
      Settings.is_value_error exc = true ∧ Settings.type definition = "int"
  end.
Proof.
  intros Hin. destruct (definition_shapes e key definition Hin)
    as [Hitem [[Htype _] | (Htype & lo & hi & Hlo & Hhi)]];
    unfold Settings._parse_setting_value, valid_value;
    rewrite Hitem; cbn [bind]; rewrite Htype; cbn [String.eqb Ascii.eqb Bool.eqb].
  - by destruct raw.
  - rewrite Hlo, Hhi. cbn [from_option id].
    destruct (int raw) as [parsed|exc] eqn:Hint.
    + destruct (Z.ltb_spec parsed lo), (Z.ltb_spec hi parsed); cbn; try done.
      apply andb_true_iff. split; apply Z.leb_le; lia.
    + destruct raw as [| | |t]; cbn in Hint; try discriminate.
      * by injection Hint as <-.
      * destruct (int_of_str t); [discriminate|]. by injection Hint as <-.
Qed.

Lemma serialize_parse_valid (e : Settings.EnvDefaults) (key : string)
    (definition : Settings.SettingDef) (v : value) :
  (key, definition) ∈ Settings.SETTING_DEFINITIONS e →
  valid_value definition v = true →
  ∃ t, Settings._serialize_setting_value e key v = Ok t
       ∧ Settings._parse_setting_value e key (VStr t) = Ok v.
Proof.
  intros Hin. destruct (definition_shapes e key definition Hin)
    as [Hitem [[Htype _] | (Htype & lo & hi & Hlo & Hhi)]];
    unfold Settings._serialize_setting_value, Settings._parse_setting_value,
      valid_value;
    rewrite Hitem; cbn [bind]; rewrite Htype; cbn [String.eqb Ascii.eqb Bool.eqb].
  - destruct v as [|[]| |]; try discriminate; intros _; eexists;
      (split; [reflexivity|]); by vm_compute.
  - destruct v as [| |z|]; try discriminate. rewrite Hlo, Hhi.
    cbn [from_option id str int]. intros [H1 H2]%andb_true_iff.
    apply Z.leb_le in H1, H2. eexists. split; [reflexivity|].
    rewrite int_of_str_pretty.
    destruct (Z.ltb_spec z lo), (Z.ltb_spec hi z); cbn; try done; lia.
Qed.

(** X13: for every defined setting, [_parse_setting_value] either returns a
    valid value (a bool for a bool setting, an int within the setting's bounds
    for an int one) or raises a ValueError, the latter for int settings only;
    and every valid value, once written by [_serialize_setting_value], is read
    back by [_parse_setting_value] as itself. *)
Theorem setting_values_round_trip (e : Settings.EnvDefaults) (key : string)
    (definition : Settings.SettingDef) (raw : value) :
  (key, definition) ∈ Settings.SETTING_DEFINITIONS e →
  match Settings._parse_setting_value e key raw with
  | Ok v =>
      valid_value definition v = true
      ∧ ∃ t, Settings._serialize_setting_value e key v = Ok t
             ∧ Settings._parse_setting_value e key (VStr t) = Ok v
  | Raise exc =>
      Settings.is_value_error exc = true ∧ Settings.type definition = "int"
  end.
Proof.
  intros Hin. pose proof (parse_setting_valid e key definition raw Hin) as Hv.
  destruct (Settings._parse_setting_value e key raw) as [v|exc]; [|done].
  split; [done|]. by eapply serialize_parse_valid.
Qed.

Lemma setting_values_round_trip_witness :
  ∃ definition,
    ("monitor_interval_seconds", definition)
    ∈ Settings.SETTING_DEFINITIONS sample_defaults
    ∧ Settings._parse_setting_value sample_defaults
        "monitor_interval_seconds" (VStr " 1_200 ") = Ok (VInt 1200)
    ∧ valid_value definition (VInt 1200) = true.
Proof.
  eexists. split; [do 2 right; left|].
  split; [reflexivity|].
  match goal with |- valid_value ?d _ = _ =>
    pose proof (setting_values_round_trip sample_defaults
                  "monitor_interval_seconds" d (VStr " 1_200 ")) as H
  end.
  apply H. do 2 right. left.
Defined.

(** ** The list limits *)

(** [_resolve_limit] never returns both a limit and an error, nor neither. *)
Lemma resolve_limit_cases (limit_raw : option string)
    (default_limit max_limit : Z) :
  match Settings._resolve_limit limit_raw default_limit max_limit with
  | (Some limit, None) =>
      (limit = default_limit ∧ (limit_raw = None ∨ limit_raw = Some ""))
      ∨ ((1 ≤ limit ≤ max_limit)%Z
         ∧ ∃ raw, limit_raw = Some raw ∧ int_of_str raw = Some limit)
  | (None, Some error) =>
      ∃ raw, limit_raw = Some raw ∧ raw ≠ ""
        ∧ match int_of_str raw with
          | None => error = "limit must be an integer."
          | Some limit => ¬ (1 ≤ limit ≤ max_limit)%Z
          end
  | _ => False
  end.
Proof.
  unfold Settings._resolve_limit.
  destruct limit_raw as [raw|]; [|left; auto].
  destruct (String.eqb_spec raw "") as [->|Hne]; [left; auto|].
  destruct (int_of_str raw) as [limit|] eqn:Hint.
  - destruct (Z.ltb_spec limit 1), (Z.ltb_spec max_limit limit); cbn;
      try (exists raw; rewrite Hint; repeat split; try done; lia).
    right. split; [lia|]. eauto.
  - exists raw. by rewrite Hint.
Qed.

Lemma settings_valid_int (e : Settings.EnvDefaults) (state : gmap string value)
    (key : string) (definition : Settings.SettingDef) (lo hi : Z) :
  settings_valid e state →
  (key, definition) ∈ Settings.SETTING_DEFINITIONS e →
  Settings.type definition = "int" →
  Settings.min definition = Some lo → Settings.max definition = Some hi →
  ∃ z, state !! key = Some (VInt z) ∧ (lo ≤ z ≤ hi)%Z.
Proof.
  intros Hvalid Hin Htype Hlo Hhi.
  destruct (Hvalid key definition Hin) as (v & Hv & Hok).
  unfold valid_value in Hok. rewrite Htype, Hlo, Hhi in Hok. cbn in Hok.
  destruct v as [| |z|]; try discriminate.
  apply andb_true_iff in Hok as [H1%Z.leb_le H2%Z.leb_le]. eauto.
Qed.

(** With valid settings, the three limit settings are integers within their
    bounds. *)
Lemma limit_settings (e : Settings.EnvDefaults) (state : gmap string value) :
  settings_valid e state →
  ∃ mx df hd,
    state !! "api_max_limit" = Some (VInt mx) ∧ (1 ≤ mx ≤ 5000)%Z
    ∧ state !! "api_default_limit" = Some (VInt df) ∧ (1 ≤ df ≤ 2000)%Z
    ∧ state !! "history_default_limit" = Some (VInt hd) ∧ (1 ≤ hd ≤ 2000)%Z.
Proof.
  intros Hvalid.
  edestruct (settings_valid_int e state "api_max_limit") as (mx & Hmx & ?);
    [done|do 7 right; left|reflexivity..|].
  edestruct (settings_valid_int e state "api_default_limit") as (df & Hdf & ?);
    [done|do 6 right; left|reflexivity..|].
  edestruct (settings_valid_int e state "history_default_limit")
    as (hd & Hhd & ?); [done|do 8 right; left|reflexivity..|].
  exists mx, df, hd. repeat split; first [done|lia].
Qed.

Lemma limited_page {A} (id : A → Z) (sel : DB → list A)
    (default_name : string) (limit_raw : option string)
    (site : Settings.Site) (mx dv : Z) :
  Settings.settings_state site !! "api_max_limit" = Some (VInt mx) →
  Settings.settings_state site !! default_name = Some (VInt dv) →
  (1 ≤ mx ≤ 5000)%Z → (1 ≤ dv)%Z →
  StronglySorted Z.lt
    (id <$> sel (store (world (App.monitor (Settings.app site))))) →
  page mx (Z.min dv mx) limit_raw
    (sel (store (world (App.monitor (Settings.app site)))))
    (Settings.limited default_name (λ limit d, newest_first id limit (sel d))
       limit_raw site).
Proof.
  intros Hmx Hdv Hmxr Hdvr Hsorted.
  unfold Settings.limited, Settings._get_setting_limit.
  rewrite Hmx, Hdv. cbn [int bind].
  pose proof (resolve_limit_cases limit_raw (Z.min dv mx) mx) as Hres.
  unfold Settings._resolve_limit in *.
  destruct limit_raw as [raw|]; [destruct (String.eqb_spec raw "") as [->|Hne]|].
  2: destruct (int_of_str raw) as [limit|] eqn:Hint.
  2: destruct (Z.ltb_spec limit 1), (Z.ltb_spec mx limit).
  all: cbn [orb page Settings.limit_or].
  all: try (exists raw; split; [done|]; split; [done|];
            intros n Hn; first [congruence|rewrite Hint in Hn; simplify_eq; lia]).
  all: match goal with
       | |- context [(?x =? 0)%Z] => destruct (Z.eqb_spec x 0)
       end; try lia.
  all: rewrite newest_first_reverse;
         [|done|unfold int64_min, int64_max; lia].
  all: cbn [bind page].
  all: match goal with
       | |- context [(?l <? 0)%Z] => destruct (Z.ltb_spec l 0); [lia|]
       end.
  all: eexists; split; [|split; [done|]]; [lia|].
  - done.
  - by rewrite (proj2 (String.eqb_neq raw "")).
  - done.
Qed.

Lemma settings_valid_sample : settings_valid sample_defaults sample_state.
Proof.
  intros key definition Hin. unfold Settings.SETTING_DEFINITIONS in Hin.
  repeat (apply elem_of_cons in Hin as [Heq|Hin]; [simplify_eq; by eexists|]).
  by apply elem_of_nil in Hin.
Qed.

(** X14: with valid settings and a well-formed database the three list
    endpoints never raise, and what they return is bounded by the setting
    [api_max_limit]: a request without a limit (or with an empty one) gets the
    newest rows up to the smaller of the endpoint's default and the maximum; a
    request whose limit is an integer between 1 and the maximum gets that many
    of the newest rows, newest first; any other limit is answered with an
    error. The history endpoint answers a malformed handle with the
    validation error and otherwise pages through the snapshots of the
    normalised handle. *)
Theorem api_lists_within_max_limit (e : Settings.EnvDefaults)
    (site : Settings.Site) (username : string) (limit_raw : option string) :
  let d := store (world (App.monitor (Settings.app site))) in
  settings_valid e (Settings.settings_state site) →
  db_ok d →
  ∃ max_limit api_default history_default,
    Settings.settings_state site !! "api_max_limit" = Some (VInt max_limit)
    ∧ Settings.settings_state site !! "api_default_limit"
      = Some (VInt api_default)
    ∧ Settings.settings_state site !! "history_default_limit"
      = Some (VInt history_default)
    ∧ page max_limit (Z.min api_default max_limit) limit_raw (events d)
        (Settings.api_events limit_raw site)
    ∧ page max_limit (Z.min api_default max_limit) limit_raw (failures d)
        (Settings.api_failures limit_raw site)
    ∧ match Scraper.normalize_username username with
      | Ok normalized =>
          page max_limit (Z.min history_default max_limit) limit_raw
            (List.filter (λ r, String.eqb (s_username r) normalized)
               (snapshots d))
            (Settings.api_history username limit_raw site)
      | Raise exc =>
          Settings.api_history username limit_raw site = Ok (inl (exn_str exc))
      end.
Proof.
  intros d Hvalid (_ & [Hs _] & [He _] & [Hf _]).
  destruct (limit_settings e _ Hvalid)
    as (mx & df & hd & Hmx & Hmxr & Hdf & Hdfr & Hhd & Hhdr).
  exists mx, df, hd. do 3 (split; [done|]).
  split; [|split].
  - apply (limited_page e_id events "api_default_limit"); try done; lia.
  - apply (limited_page f_id failures "api_default_limit"); try done; lia.
  - unfold Settings.api_history, Scraper.normalize_username.
    destruct (Scraper.handle_fullmatch _); [|done].
    apply (limited_page s_id
             (λ d, List.filter (λ r, String.eqb (s_username r) _) (snapshots d))
             "history_default_limit"); try done; [lia|].
    by apply sorted_ids_filter.
Qed.

Lemma api_lists_within_max_limit_witness :
  settings_valid sample_defaults (Settings.settings_state sample_site)
  ∧ db_ok (store (world (App.monitor (Settings.app sample_site))))
  ∧ ∃ rows, Settings.api_events (Some "1") sample_site = Ok (inr rows)
            ∧ length rows = 1%nat.
Proof.
  split; [exact settings_valid_sample|]. split; [exact db_ok_samples|].
  pose proof (api_lists_within_max_limit sample_defaults sample_site "alice"
                (Some "1") settings_valid_sample db_ok_samples)
    as (mx & df & hd & Hmx & _ & _ & Hpage & _).
  destruct (Settings.api_events (Some "1") sample_site) as [[error|rows]|exc];
    [| |done].
  - destruct Hpage as (raw & Hraw & _ & Hno). injection Hraw as <-.
    destruct (Hno 1%Z eq_refl). vm_compute in Hmx. injection Hmx as <-. lia.
  - exists rows. split; [done|].
    destruct Hpage as (n & _ & -> & Hn). cbn in Hn. injection Hn as <-.
    reflexivity.
Defined.

(** ** The watchlist with the latest snapshots *)

(** X15: the dashboard's watchlist has one row per active handle of a
    registry with unique handles, in the order of [list_watch_accounts]. A row
    carries the registry columns of its handle; its snapshot columns are
    those of the handle's snapshot with the greatest id, and are all NULL
    exactly when the handle has no snapshot. *)
Theorem watchlist_shows_latest_snapshot (d : DB) :
  unique_handles d →
  l_username <$> list_watch_accounts_with_latest d
  = w_username <$> list_watch_accounts true d
  ∧ NoDup (l_username <$> list_watch_accounts_with_latest d)
  ∧ ∀ row, row ∈ list_watch_accounts_with_latest d →
      (∃ w, w ∈ watch_accounts d ∧ w_active w = 1%Z
            ∧ w_username w = l_username row
            ∧ w_created_at w = l_created_at row
            ∧ w_active w = l_active row
            ∧ w_last_checked_at w = l_last_checked_at row
            ∧ w_last_error w = l_last_error row)
      ∧ match l_snapshot_checked_at row with
        | Some checked_at =>
            ∃ s, s ∈ snapshots d ∧ s_username s = l_username row
              ∧ (∀ s', s' ∈ snapshots d → s_username s' = l_username row →
                       (s_id s' ≤ s_id s)%Z)
              ∧ checked_at = s_checked_at s
              ∧ l_nickname row = s_nickname s
              ∧ l_followers row = s_followers s
              ∧ l_following row = s_following s
              ∧ l_likes row = s_likes s
              ∧ l_videos_count row = s_videos_count s
        | None =>
            (∀ s, s ∈ snapshots d → s_username s ≠ l_username row)
            ∧ l_nickname row = None ∧ l_followers row = None
            ∧ l_following row = None ∧ l_likes row = None
            ∧ l_videos_count row = None
        end.
Proof.
  intros Hunique. unfold list_watch_accounts_with_latest.
  assert (Hnames : l_username <$> map (λ w, left_join w
                     (latest_row (w_username w) (snapshots d)))
                     (list_watch_accounts true d)
                   = w_username <$> list_watch_accounts true d).
  { induction (list_watch_accounts true d) as [|w ws IH]; [done|].
    cbn. by f_equal. }
  split; [done|]. split.
  - rewrite Hnames. unfold list_watch_accounts. rewrite order_by_perm.
    unfold unique_handles in Hunique.
    induction (watch_accounts d) as [|w ws IH]; [constructor|].
    cbn [List.filter]. apply NoDup_cons in Hunique as [Hw Hws].
    destruct (w_active w =? 1)%Z; [|by apply IH].
    rewrite fmap_cons. apply NoDup_cons. split; [|by apply IH].
    intros (w' & Hname & Hin)%list_elem_of_fmap.
    apply list_elem_of_In, filter_In in Hin as [Hin%list_elem_of_In _].
    apply Hw, list_elem_of_fmap. eauto.
  - intros row Hrow. apply list_elem_of_In, in_map_iff in Hrow
      as (w & <- & Hw%list_elem_of_In).
    apply elem_of_list_watch_accounts in Hw as [Hw Hactive].
    split; [by exists w|].
    pose proof (latest_row_spec (w_username w) (snapshots d)) as Hlatest.
    cbn. destruct (latest_row (w_username w) (snapshots d)) as [s|]; cbn.
    + destruct Hlatest as (Hs & Hname & Hmax). exists s. by repeat split.
    + by repeat split.
Qed.

Lemma watchlist_shows_latest_snapshot_witness :
  unique_handles Samples.db
  ∧ l_username <$> list_watch_accounts_with_latest Samples.db = ["alice"; "bob"].
Proof.
  assert (Hu : unique_handles Samples.db) by apply db_ok_samples.
  split; [exact Hu|].
  destruct (watchlist_shows_latest_snapshot Samples.db Hu) as (Hnames & _).
  rewrite Hnames. reflexivity.
Defined.

(** ** Saving the settings *)

Lemma set_setting_effect (now key v : string) (d : DB) :
  set_setting now key v d
  = {| out := Ok ();
       final := with_settings
                  (<[key := {| set_value := v; set_updated_at := now |}]>
                     (settings d)) d;
       committed := [with_settings
                       (<[key := {| set_value := v; set_updated_at := now |}]>
                          (settings d)) d] |}.
Proof. reflexivity. Qed.

(** The second loop of the action writes every proposed value to
    [settings_state] and to the settings table, one commit per key. *)
Lemma apply_loop_spec (e : Settings.EnvDefaults) (env : Env)
    (proposed : list (string * value)) :
  ∀ (state : gmap string value) (changes : list string) (m : Service),
  NoDup proposed.*1 →
  (∀ k v, (k, v) ∈ proposed →
     is_Some (state !! k)
     ∧ ∃ definition, (k, definition) ∈ Settings.SETTING_DEFINITIONS e
                     ∧ valid_value definition v = true) →
  ∃ state' changes' w',
    Settings.apply_loop e env proposed state changes m
    = (Ok (state', changes'), set_world w' m)
    ∧ (∀ k v, (k, v) ∈ proposed →
         state' !! k = Some v
         ∧ ∃ t, Settings._serialize_setting_value e k v = Ok t
                ∧ get_setting k (store w') = Some t)
    ∧ (∀ k, k ∉ proposed.*1 →
         state' !! k = state !! k
         ∧ get_setting k (store w') = get_setting k (store (world m)))
    ∧ with_settings (settings (store (world m))) (store w') = store (world m)
    ∧ length (journal w')
      = (length (journal (world m)) + length proposed)%nat
    ∧ (changes = [] →
       (∀ k v, (k, v) ∈ proposed → state !! k = Some v) → changes' = []).
Proof.
  induction proposed as [|[key v] rest IH]; intros state changes m Hnodup Hall.
  - exists state, changes, (world m). split.
    { cbn. by destruct m. }
    split; [intros k v Hin; by apply elem_of_nil in Hin|].
    split; [done|]. split; [by destruct (store (world m))|].
    split; [cbn; lia|done].
  - cbn [fmap list_fmap fst] in Hnodup. apply NoDup_cons in Hnodup as [Hkey Hnodup].
    destruct (Hall key v) as ([old Hold] & definition & Hdef & Hvalid);
      [by left|].
    destruct (definition_shapes e key definition Hdef) as [Hitem _].
    destruct (serialize_parse_valid e key definition v Hdef Hvalid)
      as (t & Hser & _).
    set (changes1 := if negb (eqb old v) && Settings.restart_required definition
                     then (changes ++ [Settings.label definition])%list
                     else changes).
    set (now := clock env (calls (world m))).
    set (d1 := with_settings
                 (<[key := {| set_value := t; set_updated_at := now |}]>
                    (settings (store (world m)))) (store (world m))).
    set (w1 := {| store := d1; journal := journal (world m) ++ [d1];
                  calls := S (calls (world m)) |}).
    destruct (IH (<[key := v]> state) changes1 (set_world w1 m) Hnodup)
      as (state' & changes' & w' & Hrun & Hin & Hout & Htables & Hjournal & Hsame).
    { intros k' v' Hk'. destruct (Hall k' v') as [Hsome Hd]; [by right|].
      split; [|done]. destruct (decide (k' = key)) as [->|Hne].
      - rewrite lookup_insert_eq. eauto.
      - by rewrite lookup_insert_ne. }
    exists state', changes', w'. split.
    { cbn [Settings.apply_loop]. unfold mbind, m_mbind, m_bind, lift_result.
      rewrite Hold, Hitem, Hser. unfold store_write.
      rewrite set_setting_effect. cbn [out final committed].
      exact Hrun. }
    split.
    { intros k' v' [[= -> ->]|Hk']%elem_of_cons.
      - destruct (Hout key Hkey) as [Hs Hg]. split.
        + by rewrite Hs, lookup_insert_eq.
        + exists t. split; [done|]. rewrite Hg. cbn.
          unfold get_setting. cbn. by rewrite lookup_insert_eq.
      - by apply Hin. }
    split.
    { intros k' Hk'. apply not_elem_of_cons in Hk' as [Hne Hk'].
      destruct (Hout k' Hk') as [Hs Hg]. split.
      - by rewrite Hs, lookup_insert_ne.
      - rewrite Hg. cbn. unfold get_setting. cbn. by rewrite lookup_insert_ne. }
    split.
    { cbn in Htables. unfold with_settings in *. cbn in *.
      injection Htables as -> -> -> -> -> -> ->. by destruct (store (world m)). }
    split.
    { rewrite Hjournal. cbn. rewrite length_app. cbn. lia. }
    intros -> Hkeep. apply Hsame.
    + unfold changes1. rewrite (Hkeep key v) in Hold by (by left).
      injection Hold as <-. by rewrite eqb_refl.
    + intros k' v' Hk'. destruct (decide (k' = key)) as [->|Hne].
      * exfalso. apply Hkey, list_elem_of_fmap. by exists (key, v').
      * rewrite lookup_insert_ne by done. apply Hkeep. by right.
Qed.

Lemma validate_spec (e : Settings.EnvDefaults) (form : gmap string string)
    (defs : list (string * Settings.SettingDef)) :
  ∀ proposed errors,
  (∀ kd, kd ∈ defs → kd ∈ Settings.SETTING_DEFINITIONS e) →
  Settings.validate e form defs proposed errors
  = Ok ((proposed
         ++ omap (λ kd, match proposed_value e form kd with
                        | Ok v => Some (kd.1, v)
                        | Raise _ => None
                        end) defs)%list,
        (errors
         ++ omap (λ kd, match proposed_value e form kd with
                        | Ok _ => None
                        | Raise exc => Some (exn_str exc)
                        end) defs)%list).
Proof.
  induction defs as [|[key definition] defs IH]; intros proposed errors Hin.
  - cbn. by rewrite !app_nil_r.
  - cbn [Settings.validate omap list_omap].
    pose proof (parse_setting_valid e key definition
                  (Settings.form_value form key definition)
                  (Hin _ (list_elem_of_here _ _))) as Hparse.
    change (proposed_value e form (key, definition))
      with (Settings._parse_setting_value e key
              (Settings.form_value form key definition)).
    destruct (Settings._parse_setting_value e key _) as [v|exc].
    + rewrite IH by (intros kd Hkd; apply Hin; by right).
      by rewrite <- !app_assoc.
    + destruct Hparse as [-> _].
      rewrite IH by (intros kd Hkd; apply Hin; by right).
      by rewrite <- !app_assoc.
Qed.

Lemma omap_head {A B} (f : A → option B) (l : list A) (y : B) (ys : list B) :
  omap f l = y :: ys →
  ∃ before x after, l = (before ++ x :: after)%list
    ∧ Forall (λ z, f z = None) before ∧ f x = Some y.
Proof.
  induction l as [|x l IH]; [done|]. cbn.
  destruct (f x) as [y'|] eqn:Hx.
  - intros [= -> _]. exists [], x, l. by repeat split.
  - intros (before & x' & after & -> & Hb & Hx')%IH.
    exists (x :: before), x', after. repeat split; [|done]. by constructor.
Qed.

Lemma omap_nil_all {A B} (f : A → option B) (l : list A) :
  omap f l = [] → Forall (λ z, f z = None) l.
Proof.
  induction l as [|x l IH]; [constructor|]. cbn.
  destruct (f x) eqn:Hx; [done|]. intros H. constructor; [done|by apply IH].
Qed.

Lemma item_lookup {V} (d : list (string * V)) (key : string) (v : V) :
  NoDup d.*1 → (key, v) ∈ d → Settings.item d key = Ok v.
Proof.
  unfold Settings.item. induction d as [|[k v'] d IH]; intros Hnodup Hin.
  - by apply elem_of_nil in Hin.
  - cbn in Hnodup. apply NoDup_cons in Hnodup as [Hk Hnodup]. cbn.
    destruct (String.eqb_spec k key) as [->|Hne].
    + apply elem_of_cons in Hin as [[= <-]|Hin]; [done|].
      exfalso. apply Hk, list_elem_of_fmap. by exists (key, v).
    + apply elem_of_cons in Hin as [[= <- <-]|Hin]; [done|]. by apply IH.
Qed.

Lemma definitions_nodup (e : Settings.EnvDefaults) :
  NoDup (Settings.SETTING_DEFINITIONS e).*1.
Proof. by apply (bool_decide_unpack _); vm_compute. Qed.

Lemma valid_value_int (definition : Settings.SettingDef) (v : value) (lo hi : Z) :
  Settings.type definition = "int" →
  Settings.min definition = Some lo → Settings.max definition = Some hi →
  valid_value definition v = true → ∃ z, v = VInt z ∧ (lo ≤ z ≤ hi)%Z.
Proof.
  intros Htype Hlo Hhi Hok.
  unfold valid_value in Hok. rewrite Htype, Hlo, Hhi in Hok. cbn in Hok.
  destruct v as [| |z|]; try discriminate.
  apply andb_true_iff in Hok as [H1%Z.leb_le H2%Z.leb_le]. eauto.
Qed.

(** What the first loop collects when every field parses. *)
Lemma proposed_items (e : Settings.EnvDefaults) (form : gmap string string)
    (defs : list (string * Settings.SettingDef)) :
  Forall (λ kd, ∃ v, proposed_value e form kd = Ok v) defs →
  (omap (λ kd, match proposed_value e form kd with
               | Ok v => Some (kd.1, v)
               | Raise _ => None
               end) defs).*1 = defs.*1.
Proof.
  induction 1 as [|kd defs [v Hv] _ IH]; [done|].
  cbn. rewrite Hv. cbn. by f_equal.
Qed.

Lemma proposed_elem_of (e : Settings.EnvDefaults) (form : gmap string string)
    (defs : list (string * Settings.SettingDef)) (k : string) (v : value) :
  (k, v) ∈ omap (λ kd, match proposed_value e form kd with
                       | Ok v => Some (kd.1, v)
                       | Raise _ => None
                       end) defs
  ↔ ∃ definition, (k, definition) ∈ defs
                  ∧ proposed_value e form (k, definition) = Ok v.
Proof.
  rewrite list_elem_of_omap. split.
  - intros ([k' definition] & Hin & Hf).
    destruct (proposed_value e form (k', definition)) as [v'|] eqn:Hv;
      [|discriminate].
    cbn in Hf. injection Hf as -> ->. eauto.
  - intros (definition & Hin & Hv). exists (k, definition).
    split; [done|]. by rewrite Hv.
Qed.

Lemma cross_check_spec (e : Settings.EnvDefaults) (form : gmap string string)
    (small msg : string) (d_small d_large : Settings.SettingDef) :
  Forall (λ kd, ∃ v, proposed_value e form kd = Ok v)
    (Settings.SETTING_DEFINITIONS e) →
  (small, d_small) ∈ Settings.SETTING_DEFINITIONS e →
  ("api_max_limit", d_large) ∈ Settings.SETTING_DEFINITIONS e →
  Settings.type d_small = "int" → Settings.type d_large = "int" →
  is_Some (Settings.min d_small) → is_Some (Settings.max d_small) →
  is_Some (Settings.min d_large) → is_Some (Settings.max d_large) →
  ∃ lo hi,
    proposed_value e form (small, d_small) = Ok (VInt lo)
    ∧ proposed_value e form ("api_max_limit", d_large) = Ok (VInt hi)
    ∧ Settings.cross_check
        (omap (λ kd, match proposed_value e form kd with
                     | Ok v => Some (kd.1, v)
                     | Raise _ => None
                     end) (Settings.SETTING_DEFINITIONS e))
        small "api_max_limit" msg []
      = Ok (if (hi <? lo)%Z then [msg] else []).
Proof.
  intros Hall Hsmall Hlarge Hts Htl [? Hmin_s] [? Hmax_s] [? Hmin_l] [? Hmax_l].
  pose proof (proj1 (Forall_forall _ _) Hall) as Hok.
  destruct (Hok _ Hsmall) as [vs Hvs]. destruct (Hok _ Hlarge) as [vl Hvl].
  pose proof (parse_setting_valid e small d_small
                (Settings.form_value form small d_small) Hsmall) as Hs.
  pose proof (parse_setting_valid e "api_max_limit" d_large
                (Settings.form_value form "api_max_limit" d_large) Hlarge) as Hl.
  unfold proposed_value in Hvs, Hvl. cbn [fst snd] in Hvs, Hvl.
  rewrite Hvs in Hs. rewrite Hvl in Hl.
  destruct (valid_value_int _ _ _ _ Hts Hmin_s Hmax_s Hs) as (lo & -> & _).
  destruct (valid_value_int _ _ _ _ Htl Hmin_l Hmax_l Hl) as (hi & -> & _).
  exists lo, hi. split; [done|]. split; [done|].
  unfold Settings.cross_check.
  assert (Hnodup : NoDup (omap (λ kd, match proposed_value e form kd with
                                      | Ok v => Some (kd.1, v)
                                      | Raise _ => None
                                      end) (Settings.SETTING_DEFINITIONS e)).*1).
  { rewrite proposed_items by done. apply definitions_nodup. }
  assert (Hlo : Settings.item
                  (omap (λ kd, match proposed_value e form kd with
                               | Ok v => Some (kd.1, v)
                               | Raise _ => None
                               end) (Settings.SETTING_DEFINITIONS e)) small
                = Ok (VInt lo)).
  { apply item_lookup; [done|]. apply proposed_elem_of. eauto. }
  assert (Hhi : Settings.item
                  (omap (λ kd, match proposed_value e form kd with
                               | Ok v => Some (kd.1, v)
                               | Raise _ => None
                               end) (Settings.SETTING_DEFINITIONS e))
                  "api_max_limit"
                = Ok (VInt hi)).
  { apply item_lookup; [done|]. apply proposed_elem_of. eauto. }
  rewrite Hlo, Hhi. cbn [bind Settings.gt as_number].
  by destruct (hi <? lo)%Z.
Qed.

(** X16: the save_settings action never raises on valid settings, and it
    saves all fields or none. It rejects the form, with an error flash and
    with the settings, the service and the database exactly as they were,
    when a field does not parse (the message is that of the first such field)
    or a default limit exceeds the maximum. Otherwise it flashes success;
    every setting then holds the value parsed from the form, in
    [settings_state] and, serialised, in the settings table; the settings
    are valid with both default limits at most the maximum; the monitor's
    interval is the new interval setting; the other tables are untouched;
    each of the nine keys was committed on its own; and a form that proposes
    the values the settings already hold is answered with the plain
    "Settings saved.", no restart asked for. *)
Theorem save_settings_all_or_nothing (e : Settings.EnvDefaults) (env : Env)
    (form : gmap string string) (site : Settings.Site) :
  settings_valid e (Settings.settings_state site) →
  ∃ site', Settings.save_settings e env form site = Ok site'
    ∧ ((App.flash_kind (Settings.app site') = Some "error"
        ∧ (∃ msg, App.flash_msg (Settings.app site') = Some msg
                  ∧ rejected e form msg)
        ∧ Settings.settings_state site' = Settings.settings_state site
        ∧ App.monitor (Settings.app site') = App.monitor (Settings.app site))
       ∨ (App.flash_kind (Settings.app site') = Some "success"
          ∧ (∀ kd, kd ∈ Settings.SETTING_DEFINITIONS e →
               ∃ v t, proposed_value e form kd = Ok v
                 ∧ Settings.settings_state site' !! kd.1 = Some v
                 ∧ Settings._serialize_setting_value e kd.1 v = Ok t
                 ∧ get_setting kd.1
                     (store (world (App.monitor (Settings.app site'))))
                   = Some t)
          ∧ settings_valid e (Settings.settings_state site')
          ∧ limits_ordered (Settings.settings_state site')
          ∧ Settings.settings_state site' !! "monitor_interval_seconds"
            = Some (VInt (interval_seconds (App.monitor (Settings.app site'))))
          ∧ with_settings
              (settings (store (world (App.monitor (Settings.app site)))))
              (store (world (App.monitor (Settings.app site'))))
            = store (world (App.monitor (Settings.app site)))
          ∧ length (journal (world (App.monitor (Settings.app site'))))
            = (length (journal (world (App.monitor (Settings.app site)))) + 9)%nat
          ∧ ((∀ kd, kd ∈ Settings.SETTING_DEFINITIONS e →
                ∃ v, proposed_value e form kd = Ok v
                     ∧ Settings.settings_state site !! kd.1 = Some v) →
             App.flash_msg (Settings.app site') = Some "Settings saved."))).
Proof.
  intros Hvalid. unfold Settings.save_settings.
  rewrite validate_spec by done. cbn [bind app].
  set (P := omap _ (Settings.SETTING_DEFINITIONS e)).
  destruct (omap (λ kd, match proposed_value e form kd with
                        | Ok _ => None
                        | Raise exc => Some (exn_str exc)
                        end) (Settings.SETTING_DEFINITIONS e))
    as [|first errors] eqn:HE.
  - apply omap_nil_all in HE.
    assert (Hall : Forall (λ kd, ∃ v, proposed_value e form kd = Ok v)
                     (Settings.SETTING_DEFINITIONS e)).
    { eapply Forall_impl; [exact HE|]. intros kd Hkd. cbn in Hkd.
      destruct (proposed_value e form kd); [eauto|discriminate]. }
    edestruct (cross_check_spec e form "api_default_limit"
                 "API default limit cannot be greater than API max limit.")
      as (df & mx & Hdf & Hmx & Hcheck1);
      [exact Hall|do 6 right; left|do 7 right; left|reflexivity..
      |by eexists|by eexists|by eexists|by eexists|].
    edestruct (cross_check_spec e form "history_default_limit"
                 "History default limit cannot be greater than API max limit.")
      as (hd & mx' & Hhd & Hmx' & Hcheck2);
      [exact Hall|do 8 right; left|do 7 right; left|reflexivity..
      |by eexists|by eexists|by eexists|by eexists|].
    rewrite Hmx in Hmx'. injection Hmx' as <-.
    fold P in Hcheck1, Hcheck2. rewrite Hcheck1. cbn [bind].
    destruct (Z.ltb_spec mx df) as [Hbig1|Hfit1].
    { cbn [Settings.cross_check]. eexists. split; [reflexivity|]. left.
      split; [done|]. split; [|done]. eexists. split; [reflexivity|].
      right. split; [done|]. do 5 eexists.
      split; [|split; [|split; [exact Hdf|split; [exact Hmx|]]]];
        [do 6 right; left|do 7 right; left|].
      split; [done|]. by left. }
    rewrite Hcheck2. cbn [bind].
    destruct (Z.ltb_spec mx hd) as [Hbig2|Hfit2].
    { eexists. split; [reflexivity|]. left.
      split; [done|]. split; [|done]. eexists. split; [reflexivity|].
      right. split; [done|]. do 5 eexists.
      split; [|split; [|split; [exact Hhd|split; [exact Hmx|]]]];
        [do 8 right; left|do 7 right; left|].
      split; [done|]. by right. }
    assert (HP : ∀ k v, (k, v) ∈ P →
              ∃ definition, (k, definition) ∈ Settings.SETTING_DEFINITIONS e
                ∧ proposed_value e form (k, definition) = Ok v
                ∧ valid_value definition v = true).
    { intros k v (definition & Hd & Hv)%proposed_elem_of.
      exists definition. split; [done|]. split; [done|].
      pose proof (parse_setting_valid e k definition
                    (Settings.form_value form k definition) Hd) as Hparse.
      unfold proposed_value in Hv. cbn [fst snd] in Hv. by rewrite Hv in Hparse. }
    assert (HPnames : P.*1 = (Settings.SETTING_DEFINITIONS e).*1)
      by (by apply proposed_items).
    destruct (apply_loop_spec e env P (Settings.settings_state site) []
                (App.monitor (Settings.app site)))
      as (state' & changes' & w' & Hrun & Hin & Hout & Htables & Hjournal
          & Hsame).
    { rewrite HPnames. apply definitions_nodup. }
    { intros k v (definition & Hd & _ & Hv)%HP. split; [|eauto].
      destruct (Hvalid k definition Hd) as (old & -> & _). eauto. }
    rewrite Hrun.
    assert (Hsaved : ∀ kd, kd ∈ Settings.SETTING_DEFINITIONS e →
              ∃ v t, proposed_value e form kd = Ok v
                ∧ state' !! kd.1 = Some v
                ∧ Settings._serialize_setting_value e kd.1 v = Ok t
                ∧ get_setting kd.1 (store w') = Some t).
    { intros [k definition] Hkd.
      destruct (proj1 (Forall_forall _ _) Hall _ Hkd) as [v Hv].
      destruct (Hin k v) as (Hs & t & Ht & Hg).
      { apply proposed_elem_of. eauto. }
      exists v, t. by repeat split. }
    assert (Hvalid' : settings_valid e state').
    { intros k definition Hkd.
      destruct (Hsaved _ Hkd) as (v & t & Hv & Hs & _). exists v.
      split; [done|].
      pose proof (parse_setting_valid e k definition
                    (Settings.form_value form k definition) Hkd) as Hparse.
      unfold proposed_value in Hv. cbn [fst snd] in Hv. by rewrite Hv in Hparse. }
    destruct (Hsaved _ ltac:(do 6 right; left)) as (? & _ & Hdf' & Hsdf & _).
    destruct (Hsaved _ ltac:(do 7 right; left)) as (? & _ & Hmx' & Hsmx & _).
    destruct (Hsaved _ ltac:(do 8 right; left)) as (? & _ & Hhd' & Hshd & _).
    rewrite Hdf in Hdf'. rewrite Hmx in Hmx'. rewrite Hhd in Hhd'.
    injection Hdf' as <-. injection Hmx' as <-. injection Hhd' as <-.
    cbn [fst] in Hsdf, Hsmx, Hshd.
    edestruct (settings_valid_int e state' "monitor_interval_seconds")
      as (i & Hi & _); [exact Hvalid'|do 2 right; left|reflexivity..|].
    rewrite Hi. cbn [int bind].
    eexists. split; [reflexivity|]. right.
    split; [done|]. split; [exact Hsaved|]. split; [exact Hvalid'|].
    split; [by exists df, hd, mx|]. split; [exact Hi|]. split; [exact Htables|].
    split.
    { cbn. rewrite Hjournal. f_equal.
      rewrite <- (length_fmap fst P), HPnames. reflexivity. }
    intros Hunchanged. rewrite Hsame; [done..|].
    intros k v (definition & Hd & Hv & _)%HP.
    destruct (Hunchanged _ Hd) as (v' & Hv' & Hstate).
    rewrite Hv in Hv'. injection Hv' as <-. exact Hstate.
  - cbn [Settings.cross_check bind].
    eexists. split; [reflexivity|]. left.
    split; [done|]. split; [|done]. exists first. split; [done|]. left.
    apply omap_head in HE as (before & kd & after & Hdefs & Hbefore & Hkd).
    destruct (proposed_value e form kd) as [|exc] eqn:Hexc; [discriminate|].
    injection Hkd as <-. exists before, kd, after, exc.
    split; [done|]. split; [|done].
    eapply Forall_impl; [exact Hbefore|]. intros kd' Hkd'. cbn in Hkd'.
    destruct (proposed_value e form kd'); [eauto|discriminate].
Qed.

Lemma save_settings_all_or_nothing_witness :
  settings_valid sample_defaults (Settings.settings_state sample_site)
  ∧ ∃ site', Settings.save_settings sample_defaults Samples.env sample_form
               sample_site = Ok site'
             ∧ interval_seconds (App.monitor (Settings.app site')) = 60%Z
             ∧ App.flash_msg (Settings.app site')
               = Some "Settings saved. Restart required for: Debug mode.".
Proof.
  split; [exact settings_valid_sample|].
  destruct (save_settings_all_or_nothing sample_defaults Samples.env
              sample_form sample_site settings_valid_sample)
    as (site' & Hsave & _).
  exists site'. split; [exact Hsave|].
  assert (Hrun : match Settings.save_settings sample_defaults Samples.env
                         sample_form sample_site with
                 | Ok s =>
                     interval_seconds (App.monitor (Settings.app s)) = 60%Z
                     ∧ App.flash_msg (Settings.app s)
                       = Some "Settings saved. Restart required for: Debug mode."
                 | Raise _ => True
                 end) by (vm_compute; split; reflexivity).
  rewrite Hsave in Hrun. exact Hrun.
Defined.

(** ** Loading the settings *)

(** The value [_load_settings] settles on for a key: the stored text when
    it parses, the default otherwise. *)
Lemma load_setting_spec (e : Settings.EnvDefaults) (env : Env) (key : string)
    (definition : Settings.SettingDef) (dv : value)
    (loaded : gmap string value) (s : Service) :
  (key, definition) ∈ Settings.SETTING_DEFINITIONS e →
  Settings._parse_setting_value e key (Settings.default definition) = Ok dv →
  ∃ v t,
    valid_value definition v = true
    ∧ Settings._serialize_setting_value e key v = Ok t
    ∧ match get_setting key (store (world s)) with
      | Some raw =>
          match Settings._parse_setting_value e key (VStr raw) with
          | Ok v' => v = v'
          | Raise _ => v = dv
          end
      | None => v = dv
      end
    ∧ Settings.load_setting e env key loaded s
      = (Ok (<[key := v]> loaded),
         set_world
           {| store := with_settings
                         (<[key := {| set_value := t;
                                      set_updated_at :=
                                        clock env (calls (world s)) |}]>
                            (settings (store (world s))))
                         (store (world s));
              journal := journal (world s)
                         ++ [with_settings
                               (<[key := {| set_value := t;
                                            set_updated_at :=
                                              clock env (calls (world s)) |}]>
                                  (settings (store (world s))))
                               (store (world s))];
              calls := S (calls (world s)) |} s).
Proof.
  intros Hdef Hdv.
  destruct (definition_shapes e key definition Hdef) as [Hitem _].
  pose proof (parse_setting_valid e key definition
                (Settings.default definition) Hdef) as Hdvalid.
  rewrite Hdv in Hdvalid.
  set (v := match get_setting key (store (world s)) with
            | Some raw =>
                match Settings._parse_setting_value e key (VStr raw) with
                | Ok v' => v'
                | Raise _ => dv
                end
            | None => dv
            end).
  assert (Hv : valid_value definition v = true).
  { unfold v. destruct (get_setting key (store (world s))) as [raw|]; [|done].
    pose proof (parse_setting_valid e key definition (VStr raw) Hdef) as Hraw.
    by destruct (Settings._parse_setting_value e key (VStr raw)). }
  destruct (serialize_parse_valid e key definition v Hdef Hv) as (t & Hser & _).
  exists v, t. split; [done|]. split; [done|]. split.
  { unfold v. destruct (get_setting key (store (world s))) as [raw|]; [|done].
    by destruct (Settings._parse_setting_value e key (VStr raw)). }
  unfold Settings.load_setting, mbind, m_mbind, m_bind, lift_result, store_read.
  rewrite Hitem, Hdv.
  assert (Hparsed :
    match get_setting key (store (world s)) with
    | Some raw =>
        match Settings._parse_setting_value e key (VStr raw) with
        | Ok v => Ok v
        | Raise exc =>
            if Settings.is_value_error exc then Ok dv else Raise exc
        end
    | None => Ok dv
    end = Ok v).
  { unfold v. destruct (get_setting key (store (world s))) as [raw|]; [|done].
    pose proof (parse_setting_valid e key definition (VStr raw) Hdef) as Hraw.
    destruct (Settings._parse_setting_value e key (VStr raw)); [done|].
    by destruct Hraw as [-> _]. }
  rewrite Hparsed, Hser. unfold store_write. by rewrite set_setting_effect.
Qed.

Lemma load_loop_spec (e : Settings.EnvDefaults) (env : Env)
    (defs : list (string * Settings.SettingDef)) :
  ∀ (loaded : gmap string value) (s : Service),
  NoDup defs.*1 →
  (∀ kd, kd ∈ defs →
     kd ∈ Settings.SETTING_DEFINITIONS e
     ∧ ∃ dv, Settings._parse_setting_value e kd.1 (Settings.default kd.2) = Ok dv) →
  ∃ state w',
    Settings.load_loop e env defs.*1 loaded s = (Ok state, set_world w' s)
    ∧ (∀ kd, kd ∈ defs →
         ∃ v t, state !! kd.1 = Some v
           ∧ valid_value kd.2 v = true
           ∧ Settings._serialize_setting_value e kd.1 v = Ok t
           ∧ get_setting kd.1 (store w') = Some t
           ∧ match get_setting kd.1 (store (world s)) with
             | Some raw =>
                 match Settings._parse_setting_value e kd.1 (VStr raw) with
                 | Ok v' => v = v'
                 | Raise _ =>
                     Settings._parse_setting_value e kd.1
                       (Settings.default kd.2) = Ok v
                 end
             | None =>
                 Settings._parse_setting_value e kd.1 (Settings.default kd.2)
                 = Ok v
             end)
    ∧ (∀ k, k ∉ defs.*1 →
         state !! k = loaded !! k
         ∧ get_setting k (store w') = get_setting k (store (world s)))
    ∧ with_settings (settings (store (world s))) (store w') = store (world s)
    ∧ length (journal w')
      = (length (journal (world s)) + length defs)%nat.
Proof.
  induction defs as [|[key definition] defs IH]; intros loaded s Hnodup Hall.
  - exists loaded, (world s). split.
    { cbn. by destruct s. }
    split; [intros kd Hin; by apply elem_of_nil in Hin|].
    split; [done|]. split; [by destruct (store (world s))|]. cbn; lia.
  - cbn [fmap list_fmap fst] in Hnodup.
    apply NoDup_cons in Hnodup as [Hkey Hnodup].
    destruct (Hall (key, definition)) as (Hdef & dv & Hdv); [by left|].
    cbn [fst snd] in Hdv.
    destruct (load_setting_spec e env key definition dv loaded s Hdef Hdv)
      as (v & t & Hv & Hser & Hchoice & Hstep).
    set (d1 := with_settings
                 (<[key := {| set_value := t;
                              set_updated_at := clock env (calls (world s)) |}]>
                    (settings (store (world s)))) (store (world s))) in *.
    set (w1 := {| store := d1; journal := journal (world s) ++ [d1];
                  calls := S (calls (world s)) |}) in *.
    destruct (IH (<[key := v]> loaded) (set_world w1 s) Hnodup)
      as (state & w' & Hrun & Hin & Hout & Htables & Hjournal).
    { intros kd Hkd. apply Hall. by right. }
    exists state, w'. split.
    { cbn [fmap list_fmap fst Settings.load_loop].
      unfold mbind, m_mbind, m_bind. rewrite Hstep. exact Hrun. }
    split.
    { intros kd [->|Hkd]%elem_of_cons.
      - destruct (Hout key Hkey) as [Hs Hg]. exists v, t. cbn [fst snd].
        split; [by rewrite Hs, lookup_insert_eq|]. split; [done|].
        split; [done|]. split.
        + rewrite Hg. cbn. unfold get_setting. cbn. by rewrite lookup_insert_eq.
        + destruct (get_setting key (store (world s))) as [raw|]; [|by subst].
          destruct (Settings._parse_setting_value e key (VStr raw)); by subst.
      - destruct (Hin kd Hkd) as (v' & t' & H1 & H2 & H3 & H4 & H5).
        exists v', t'. do 4 (split; [done|]).
        assert (Hne : kd.1 ≠ key).
        { intros Heq. apply Hkey, list_elem_of_fmap. by exists kd. }
        replace (get_setting kd.1 (store (world s)))
          with (get_setting kd.1 (store (world (set_world w1 s)))); [done|].
        cbn. unfold get_setting. cbn. by rewrite lookup_insert_ne. }
    split.
    { intros k Hk. apply not_elem_of_cons in Hk as [Hne Hk].
      destruct (Hout k Hk) as [Hs Hg]. split.
      - by rewrite Hs, lookup_insert_ne.
      - rewrite Hg. cbn. unfold get_setting. cbn. by rewrite lookup_insert_ne. }
    split.
    { cbn in Htables. unfold with_settings in *. cbn in *.
      injection Htables as -> -> -> -> -> -> ->. by destruct (store (world s)). }
    rewrite Hjournal. cbn. rewrite length_app. cbn. lia.
Qed.

Lemma defaults_parse (e : Settings.EnvDefaults) (kd : string * Settings.SettingDef) :
  defaults_valid e = true →
  kd ∈ Settings.SETTING_DEFINITIONS e →
  ∃ dv, Settings._parse_setting_value e kd.1 (Settings.default kd.2) = Ok dv.
Proof.
  unfold defaults_valid. intros Hvalid Hin.
  repeat (apply andb_true_iff in Hvalid as [Hvalid ?]).
  unfold Settings.SETTING_DEFINITIONS in Hin.
  repeat (apply elem_of_cons in Hin as [->|Hin];
          [cbn;
           repeat match goal with
                  | |- context [(?a <? ?b)%Z] => destruct (Z.ltb_spec a b); [lia|]
                  end; by eexists|]).
  by apply elem_of_nil in Hin.
Qed.

Lemma load_setting_bad_default (e : Settings.EnvDefaults) (env : Env)
    (key : string) (definition : Settings.SettingDef) (exc : exn)
    (loaded : gmap string value) (s : Service) :
  (key, definition) ∈ Settings.SETTING_DEFINITIONS e →
  Settings._parse_setting_value e key (Settings.default definition) = Raise exc →
  Settings.load_setting e env key loaded s = (Raise exc, s)
  ∧ Settings.is_value_error exc = true.
Proof.
  intros Hdef Hparse.
  destruct (definition_shapes e key definition Hdef) as [Hitem _].
  pose proof (parse_setting_valid e key definition
                (Settings.default definition) Hdef) as Hv.
  rewrite Hparse in Hv. split; [|by destruct Hv].
  unfold Settings.load_setting, mbind, m_mbind, m_bind, lift_result.
  by rewrite Hitem, Hparse.
Qed.

(** X17: when the environment defaults lie within their bounds,
    [_load_settings] returns valid settings for exactly the defined keys: for
    each key the stored text if it parses to a valid value, the default
    otherwise. It writes every value back serialised, one commit per key,
    leaving the other tables alone, so that loading again returns the same
    settings. When a default from the environment is out of bounds, it
    raises a ValueError instead. *)
Theorem load_settings_valid (e : Settings.EnvDefaults) (env env' : Env)
    (s : Service) :
  if defaults_valid e then
    ∃ state w',
      Settings._load_settings e env s = (Ok state, set_world w' s)
      ∧ settings_valid e state
      ∧ (∀ key, key ∉ Settings.SETTINGS_ORDER e → state !! key = None)
      ∧ (∀ kd, kd ∈ Settings.SETTING_DEFINITIONS e →
           ∃ v t, state !! kd.1 = Some v
             ∧ Settings._serialize_setting_value e kd.1 v = Ok t
             ∧ get_setting kd.1 (store w') = Some t
             ∧ match get_setting kd.1 (store (world s)) with
               | Some raw =>
                   match Settings._parse_setting_value e kd.1 (VStr raw) with
                   | Ok v' => v = v'
                   | Raise _ =>
                       Settings._parse_setting_value e kd.1
                         (Settings.default kd.2) = Ok v
                   end
               | None =>
                   Settings._parse_setting_value e kd.1 (Settings.default kd.2)
                   = Ok v
               end)
      ∧ with_settings (settings (store (world s))) (store w') = store (world s)
      ∧ length (journal w') = (length (journal (world s)) + 9)%nat
      ∧ (Settings._load_settings e env' (set_world w' s)).1 = Ok state
  else
    ∃ exc, (Settings._load_settings e env s).1 = Raise exc
           ∧ Settings.is_value_error exc = true.
Proof.
  destruct (defaults_valid e) eqn:Hvalid.
  - assert (Hall : ∀ kd, kd ∈ Settings.SETTING_DEFINITIONS e →
              kd ∈ Settings.SETTING_DEFINITIONS e
              ∧ ∃ dv, Settings._parse_setting_value e kd.1
                        (Settings.default kd.2) = Ok dv).
    { intros kd Hkd. split; [done|]. by apply defaults_parse. }
    destruct (load_loop_spec e env (Settings.SETTING_DEFINITIONS e) ∅ s
                (definitions_nodup e) Hall)
      as (state & w' & Hrun & Hin & Hout & Htables & Hjournal).
    exists state, w'. split; [exact Hrun|]. split.
    { intros key definition Hkd.
      destruct (Hin _ Hkd) as (v & t & Hs & Hv & _). eauto. }
    split.
    { intros key Hkey. destruct (Hout key Hkey) as [-> _]. apply lookup_empty. }
    split.
    { intros kd Hkd. destruct (Hin _ Hkd) as (v & t & H1 & _ & H3 & H4 & H5).
      by exists v, t. }
    split; [done|]. split; [done|].
    destruct (load_loop_spec e env' (Settings.SETTING_DEFINITIONS e) ∅
                (set_world w' s) (definitions_nodup e) Hall)
      as (state2 & w2 & Hrun2 & Hin2 & Hout2 & _).
    unfold Settings._load_settings, Settings.SETTINGS_ORDER. rewrite Hrun2.
    cbn [fst]. f_equal. apply map_eq. intros key.
    destruct (decide (key ∈ (Settings.SETTING_DEFINITIONS e).*1)) as [Hkey|Hkey].
    + apply list_elem_of_fmap in Hkey as ([k definition] & -> & Hkd).
      destruct (Hin _ Hkd) as (v & t & Hs & Hv & Hser & Hg & _).
      destruct (Hin2 _ Hkd) as (v2 & t2 & Hs2 & _ & _ & _ & Hchoice).
      cbn [fst snd] in *. rewrite Hs, Hs2. f_equal.
      change (store (world (set_world w' s))) with (store w') in Hchoice.
      rewrite Hg in Hchoice.
      destruct (serialize_parse_valid e k definition v Hkd Hv) as (t' & Ht' & Hback).
      rewrite Hser in Ht'. injection Ht' as <-. by rewrite Hback in Hchoice.
    + destruct (Hout key Hkey) as [-> _]. by destruct (Hout2 key Hkey) as [-> _].
  - unfold Settings._load_settings, Settings.SETTINGS_ORDER,
      Settings.SETTING_DEFINITIONS.
    cbn [fmap list_fmap fst Settings.load_loop].
    unfold mbind, m_mbind, m_bind.
    destruct (Settings._parse_setting_value e "app_port"
                (VInt (Settings.ENV_DEFAULT_PORT e))) as [dv1|exc1] eqn:Hp1.
    2: { edestruct (load_setting_bad_default e env "app_port") as [-> Hexc];
           [left|exact Hp1|]. eauto. }
    edestruct (load_setting_spec e env "app_port") as (v1 & t1 & _ & _ & _ & ->);
      [left|exact Hp1|].
    edestruct (load_setting_spec e env "debug_mode")
      as (v2 & t2 & _ & _ & _ & ->); [right; left|reflexivity|].
    destruct (Settings._parse_setting_value e "monitor_interval_seconds"
                (VInt (Settings.ENV_DEFAULT_MONITOR_INTERVAL_SECONDS e)))
      as [dv3|exc3] eqn:Hp3.
    2: { edestruct (load_setting_bad_default e env "monitor_interval_seconds")
           as [-> Hexc]; [do 2 right; left|exact Hp3|]. eauto. }
    exfalso. unfold defaults_valid in Hvalid. cbn in Hp1, Hp3.
    destruct (Z.ltb_spec (Settings.ENV_DEFAULT_PORT e) 1),
      (Z.ltb_spec 65535 (Settings.ENV_DEFAULT_PORT e)),
      (Z.ltb_spec (Settings.ENV_DEFAULT_MONITOR_INTERVAL_SECONDS e) 30),
      (Z.ltb_spec 86400 (Settings.ENV_DEFAULT_MONITOR_INTERVAL_SECONDS e));
      try discriminate.
    lia.
Qed.

Lemma load_settings_valid_witness :
  defaults_valid sample_defaults = true
  ∧ ∃ state,
      (Settings._load_settings sample_defaults Samples.env Samples.fresh).1
      = Ok state
      ∧ settings_valid sample_defaults state
      ∧ state !! "monitor_interval_seconds" = Some (VInt 900).
Proof.
  split; [reflexivity|].
  destruct (load_settings_valid sample_defaults Samples.env Samples.env
              Samples.fresh) as (state & w' & Hrun & Hvalid & _ & Hkeys & _).
  exists state. split; [by rewrite Hrun|]. split; [exact Hvalid|].
  destruct (Hkeys ("monitor_interval_seconds",
                   Settings.int_setting "Monitor interval (seconds)" 900 30
                     86400 false "Time between periodic monitor cycles."))
    as (v & t & Hv & _ & _ & Hchoice); [do 2 right; left|].
  cbn [fst snd] in Hv, Hchoice. rewrite Hv. f_equal.
  vm_compute in Hchoice. by injection Hchoice as <-.
Defined.

(** ** Adding and removing on the dashboard *)

Lemma elem_of_active_handles (username : string) (d : DB) :
  username ∈ active_handles d
  ↔ ∃ r, r ∈ watch_accounts d ∧ w_username r = username ∧ w_active r = 1%Z.
Proof.
  unfold active_handles. rewrite list_elem_of_fmap. split.
  - intros (r & -> & [Hin Hact]%elem_of_list_watch_accounts). eauto.
  - intros (r & Hin & <- & Hact). exists r. split; [done|].
    by apply elem_of_list_watch_accounts.
Qed.

Lemma active_after_add (username now : string) (d : DB) :
  username ∈ active_handles (snd (insert_account_set_active username now d)).
Proof.
  apply elem_of_active_handles.
  assert (∃ r, r ∈ watch_accounts (snd (insert_account_set_active username now d))
               ∧ w_username r = username) as (r & Hin & Hname).
  { unfold insert_account_set_active, update_account. cbn [snd].
    destruct (find_account username (watch_accounts d)) as [r|] eqn:E.
    - apply find_some in E as [Hin Hname%String.eqb_eq].
      exists (set_active 1 r). split; [|done]. cbn.
      apply list_elem_of_fmap. exists r. split; [|by apply list_elem_of_In].
      by rewrite (proj2 (String.eqb_eq _ _) Hname).
    - exists (new_account username now). split; [|done]. cbn.
      apply elem_of_app. right. by apply list_elem_of_singleton. }
  exists r. split; [done|]. split; [done|].
  by eapply insert_account_set_active_hits.
Qed.

Lemma active_after_deactivate (username other : string) (d : DB) :
  other ∈ active_handles (snd (update_account (set_active 0) username d))
  ↔ other ≠ username ∧ other ∈ active_handles d.
Proof.
  rewrite !elem_of_active_handles. unfold update_account. cbn. split.
  - intros (r & (r0 & -> & Hin)%list_elem_of_fmap & Hname & Hact).
    destruct (String.eqb_spec (w_username r0) username) as [E|E];
      [discriminate|].
    split; [congruence|]. eauto.
  - intros (Hne & r & Hin & Hname & Hact). exists r. split; [|done].
    apply list_elem_of_fmap. exists r. split; [|done].
    destruct (String.eqb_spec (w_username r) username); [congruence|done].
Qed.

(** X18: a handle the add action accepts is among the active handles
    afterwards, under its normalised name. Removing it by the same text
    hides it again, with a success flash, when the text trimmed and stripped
    of leading [@] is that name already; a text that differs from it (by an
    upper-case letter, which only the add action folds) leaves the handle
    active. *)
Theorem add_then_remove_watch (env : Env) (form_value normalized : string)
    (a : App.State) :
  Scraper.normalize_username form_value = Ok normalized →
  ∃ a1, App.add_watch env form_value a = Ok a1
    ∧ App.flash_kind a1 = Some "success"
    ∧ normalized ∈ active_handles (store (world (App.monitor a1)))
    ∧ let a2 := App.remove_watch form_value a1 in
      if decide (lstrip ["@"%char] (strip form_value) = normalized) then
        App.flash_kind a2 = Some "success"
        ∧ normalized ∉ active_handles (store (world (App.monitor a2)))
      else normalized ∈ active_handles (store (world (App.monitor a2))).
Proof.
  intros Hnorm. unfold App.add_watch.
  rewrite normalize_username_strip, Hnorm. unfold store_write.
  rewrite add_watch_account_final. cbn [out final committed].
  eexists. split; [reflexivity|]. split; [done|].
  split; [apply active_after_add|].
  cbn zeta. unfold App.remove_watch. cbn [App.monitor App.flash].
  set (w := lstrip ["@"%char] (strip form_value)).
  assert (Hw : w ≠ "").
  { intros Hempty. unfold Scraper.normalize_username in Hnorm. fold w in Hnorm.
    rewrite Hempty in Hnorm. discriminate. }
  rewrite (proj2 (String.eqb_neq _ _) Hw).
  destruct (deactivate_final w
              (snd (insert_account_set_active normalized
                      (clock env (calls (world (App.monitor a))))
                      (store (world (App.monitor a)))))) as [Hfinal _].
  destruct (decide (w = normalized)) as [->|Hne].
  - rewrite deactivate_returns_registered.
    rewrite bool_decide_eq_true_2.
    2: { pose proof (active_after_add normalized
                       (clock env (calls (world (App.monitor a))))
                       (store (world (App.monitor a)))) as Hact.
         apply elem_of_active_handles in Hact as (r & Hin & Hname & _).
         destruct (find_account normalized _) eqn:E; [eauto|].
         apply find_account_None in E. exfalso. apply E.
         apply list_elem_of_fmap. eauto. }
    split; [done|]. cbn. intros Hin. cbn in Hfinal. rewrite Hfinal in Hin.
    by apply active_after_deactivate in Hin as [? _].
  - assert (Hkeep : normalized ∈ active_handles
              (final (deactivate_watch_account w
                 (snd (insert_account_set_active normalized
                         (clock env (calls (world (App.monitor a))))
                         (store (world (App.monitor a)))))))).
    { rewrite Hfinal. apply active_after_deactivate.
      split; [done|]. apply active_after_add. }
    cbn [world set_world store] in *.
    by destruct (out (deactivate_watch_account w _)) as [[]|].
Qed.

Lemma add_then_remove_watch_witness :
  Scraper.normalize_username "@Alice" = Ok "alice"%string
  ∧ ∃ a1, App.add_watch Samples.env "@Alice" (App.flash "" "" Samples.fresh)
          = Ok a1
      ∧ "alice"%string
        ∈ active_handles
            (store (world (App.monitor (App.remove_watch "@Alice" a1)))).
Proof.
  split; [reflexivity|].
  destruct (add_then_remove_watch Samples.env "@Alice" "alice"
              (App.flash "" "" Samples.fresh) eq_refl)
    as (a1 & Hadd & _ & _ & Hrm).
  exists a1. split; [exact Hadd|exact Hrm].
Defined.

(** ** The JSON payload *)

Section PayloadProperties.
Context {F : Type} (float_truthy : F → bool).

Lemma json_induction (P : Payload.json F → Prop) :
  P Payload.JNull → (∀ b, P (Payload.JBool b)) → (∀ z, P (Payload.JInt z)) →
  (∀ f, P (Payload.JFloat f)) → (∀ s, P (Payload.JStr s)) →
  (∀ l, Forall P l → P (Payload.JList l)) →
  (∀ items, Forall (λ kv, P kv.2) items → P (Payload.JDict items)) →
  ∀ node, P node.
Proof.
  intros Hnull Hbool Hint Hfloat Hstr Hlist Hdict.
  fix IH 1.
  intros [|b|z|f|s|l|items];
    [exact Hnull|apply Hbool|apply Hint|apply Hfloat|apply Hstr| |].
  - apply Hlist. induction l as [|x l IHl]; constructor; [apply IH|exact IHl].
  - apply Hdict. induction items as [|[k x] items IHl]; constructor;
      [apply IH|exact IHl].
Qed.

Lemma walk_occurs (node : Payload.json F) (d : Payload.dict F) :
  d ∈ Payload._walk node ↔ Payload.occurs d node.
Proof.
  revert d. induction node as [| | | | |l IH|items IH] using json_induction;
    intros d; cbn [Payload._walk].
  1-5: split; [intros H; by apply elem_of_nil in H|inversion 1].
  - rewrite list_elem_of_In, in_flat_map. split.
    + intros (x & Hx%list_elem_of_In & Hd%list_elem_of_In).
      apply (Payload.occurs_item d l x Hx).
      by apply (proj1 (Forall_forall _ _) IH x Hx).
    + inversion 1 as [|l' x Hx Hd|]; subst. exists x.
      split; apply list_elem_of_In; [done|].
      by apply (proj1 (Forall_forall _ _) IH x Hx).
  - rewrite elem_of_cons, list_elem_of_In, in_flat_map. split.
    + intros [->|([k x] & Hx%list_elem_of_In & Hd%list_elem_of_In)];
        [constructor|].
      apply (Payload.occurs_value d items k x Hx).
      by apply (proj1 (Forall_forall _ _) IH (k, x) Hx).
    + inversion 1 as [| |items' k x Hx Hd]; subst; [by left|]. right.
      exists (k, x). split; apply list_elem_of_In; [done|].
      by apply (proj1 (Forall_forall _ _) IH (k, x) Hx).
Qed.

(** X19: [_walk] yields exactly the dictionaries that occur in the value, at
    any depth below lists and dictionaries, and for a dictionary the
    dictionary itself comes first. *)
Theorem walk_yields_every_dict (node : Payload.json F) (d : Payload.dict F) :
  (d ∈ Payload._walk node ↔ Payload.occurs d node)
  ∧ match node with
    | Payload.JDict items => head (Payload._walk node) = Some items
    | Payload.JList _ => True
    | _ => Payload._walk node = []
    end.
Proof. split; [apply walk_occurs|by destruct node]. Qed.


Lemma dict_get_or_elem (d : Payload.dict F) (key : string)
    (default v : Payload.json F) :
  Payload.dict_get_or d key default = v →
  (key, v) ∈ d
  ∨ (v = default ∧ List.find (λ kv, String.eqb kv.1 key) d = None).
Proof.
  unfold Payload.dict_get_or.
  destruct (List.find _ d) as [[k x]|] eqn:E; [|intros <-; by right].
  apply find_some in E as [Hin Hk%String.eqb_eq]. cbn in *. subst k.
  intros <-. left. by apply list_elem_of_In.
Qed.

Lemma dict_get_elem (d : Payload.dict F) (key : string) (v : Payload.json F) :
  Payload.dict_get d key = v →
  (key, v) ∈ d
  ∨ (v = Payload.JNull ∧ List.find (λ kv, String.eqb kv.1 key) d = None).
Proof. apply (dict_get_or_elem d key Payload.JNull). Qed.

Lemma occurs_below (c x : Payload.dict F) (key : string) (node : Payload.json F) :
  Payload.occurs c node → (key, Payload.JDict x) ∈ c → Payload.occurs x node.
Proof.
  intros Hc Hx. induction Hc as [|l y Hy _ IH|items k y Hy _ IH].
  - apply (Payload.occurs_value x c key (Payload.JDict x) Hx). constructor.
  - by apply (Payload.occurs_item x l y Hy).
  - by apply (Payload.occurs_value x items k y Hy).
Qed.

(** A candidate that qualifies delivers a user with a unique id, found
    below the candidate. *)
Lemma user_and_stats_of_spec (candidate user stats : Payload.dict F)
    (node : Payload.json F) :
  Payload.occurs candidate node →
  Payload.user_and_stats_of float_truthy candidate = Some (user, stats) →
  Payload.truthy float_truthy (Payload.dict_get user "uniqueId") = true
  ∧ Payload.occurs user node
  ∧ (stats = [] ∨ Payload.occurs stats node).
Proof.
  intros Hc. unfold Payload.user_and_stats_of.
  assert (Hflat :
    match Payload.dict_get candidate "user", Payload.dict_get candidate "stats" with
    | Payload.JDict u, Payload.JDict st =>
        if Payload.truthy float_truthy (Payload.dict_get u "uniqueId")
        then Some (u, st) else None
    | _, _ => None
    end = Some (user, stats) →
    Payload.truthy float_truthy (Payload.dict_get user "uniqueId") = true
    ∧ Payload.occurs user node ∧ (stats = [] ∨ Payload.occurs stats node)).
  { destruct (Payload.dict_get candidate "user") as [| | | | | |u] eqn:Hu;
      try discriminate.
    destruct (Payload.dict_get candidate "stats") as [| | | | | |st] eqn:Hst;
      try discriminate.
    destruct (Payload.truthy float_truthy (Payload.dict_get u "uniqueId")) eqn:Hid;
      [|discriminate].
    intros [= <- <-]. split; [done|].
    apply dict_get_elem in Hu as [Hu|[? _]]; [|discriminate].
    apply dict_get_elem in Hst as [Hst|[? _]]; [|discriminate].
    split; [|right]; by eapply occurs_below. }
  destruct (Payload.dict_get candidate "userInfo") as [| | | | | |info] eqn:Hinfo;
    try exact Hflat.
  apply dict_get_elem in Hinfo as [Hinfo|[? _]]; [|discriminate].
  pose proof (occurs_below _ _ _ _ Hc Hinfo) as Hbelow.
  destruct (Payload.dict_get_or info "user" (Payload.JDict []))
    as [| | | | | |u] eqn:Hu; try exact Hflat.
  destruct (Payload.truthy float_truthy (Payload.dict_get u "uniqueId")) eqn:Hid;
    [|exact Hflat].
  intros [= <- <-]. split; [done|].
  apply dict_get_or_elem in Hu as [Hu|[[= ->] _]]; [|discriminate].
  split; [by eapply occurs_below|].
  destruct (Payload.dict_get_or info "stats" (Payload.JDict []))
    as [| | | | | |st] eqn:Hst; try by left.
  apply dict_get_or_elem in Hst as [Hst|[[= ->] _]]; [|by left].
  right. by eapply occurs_below.
Qed.

Lemma first_user_and_stats_spec (candidates : list (Payload.dict F)) :
  match Payload.first_user_and_stats float_truthy candidates with
  | Ok found =>
      ∃ before candidate after,
        candidates = before ++ candidate :: after
        ∧ Forall (λ c, Payload.user_and_stats_of float_truthy c = None) before
        ∧ Payload.user_and_stats_of float_truthy candidate = Some found
  | Raise exc =>
      exc = TikTokScrapeError "Could not find TikTok account details in payload."
      ∧ ∀ candidate, candidate ∈ candidates →
          Payload.user_and_stats_of float_truthy candidate = None
  end.
Proof.
  induction candidates as [|c rest IH]; cbn.
  - split; [done|]. intros c Hc. by apply elem_of_nil in Hc.
  - destruct (Payload.user_and_stats_of float_truthy c) as [found|] eqn:Hc.
    + exists [], c, rest. by repeat split.
    + destruct (Payload.first_user_and_stats float_truthy rest) as [found|exc].
      * destruct IH as (before & c' & after & -> & Hbefore & Hc').
        exists (c :: before), c', after. repeat split; [|done].
        by constructor.
      * destruct IH as [-> Hnone]. split; [done|].
        intros c' [->|Hin]%elem_of_cons; [done|by apply Hnone].
Qed.

Lemma slice_to_length {A} (limit : Z) (l : list A) :
  (0 ≤ limit)%Z → (length (Payload.slice_to limit l) ≤ Z.to_nat limit)%nat.
Proof.
  intros Hlimit. unfold Payload.slice_to.
  destruct (Z.ltb_spec limit 0); [lia|]. rewrite length_take. lia.
Qed.

Lemma first_videos_cons (c : Payload.dict F) (rest : list (Payload.dict F))
    (limit : Z) :
  Payload.first_videos (c :: rest) limit
  = match Payload.dict_get c "itemModule" with
    | Payload.JDict item_module =>
        match Payload.videos_of item_module with
        | [] => Payload.first_videos rest limit
        | videos => Payload.slice_to limit videos
        end
    | _ => Payload.first_videos rest limit
    end.
Proof.
  cbn [Payload.first_videos].
  by destruct (Payload.dict_get c "itemModule") as [| | | | | |[|kv m]].
Qed.

(** The videos come from the first candidate whose [itemModule] is a
    non-empty dictionary holding at least one dictionary. *)
Lemma first_videos_spec (candidates : list (Payload.dict F)) (limit : Z) :
  (∃ before candidate after item_module,
     candidates = before ++ candidate :: after
     ∧ Forall (λ c, ∀ m, Payload.dict_get c "itemModule" = Payload.JDict m →
                         Payload.videos_of m = []) before
     ∧ Payload.dict_get candidate "itemModule" = Payload.JDict item_module
     ∧ Payload.videos_of item_module ≠ []
     ∧ Payload.first_videos candidates limit
       = Payload.slice_to limit (Payload.videos_of item_module))
  ∨ (Payload.first_videos candidates limit = []
     ∧ ∀ candidate item_module, candidate ∈ candidates →
         Payload.dict_get candidate "itemModule" = Payload.JDict item_module →
         Payload.videos_of item_module = []).
Proof.
  induction candidates as [|c rest IH].
  - right. split; [done|]. intros c m Hc. by apply elem_of_nil in Hc.
  - rewrite first_videos_cons.
    assert (Hskip : (∀ m, Payload.dict_get c "itemModule" = Payload.JDict m →
                          Payload.videos_of m = []) →
      (∃ before candidate after item_module,
         c :: rest = before ++ candidate :: after
         ∧ Forall (λ c, ∀ m, Payload.dict_get c "itemModule" = Payload.JDict m →
                             Payload.videos_of m = []) before
         ∧ Payload.dict_get candidate "itemModule" = Payload.JDict item_module
         ∧ Payload.videos_of item_module ≠ []
         ∧ Payload.first_videos rest limit
           = Payload.slice_to limit (Payload.videos_of item_module))
      ∨ (Payload.first_videos rest limit = []
         ∧ ∀ candidate item_module, candidate ∈ c :: rest →
             Payload.dict_get candidate "itemModule" = Payload.JDict item_module →
             Payload.videos_of item_module = [])).
    { intros Hc.
      destruct IH as [(before & c' & after & m & -> & Hb & Hm & Hv & Hrun)
                     |[Hrun Hnone]].
      - left. exists (c :: before), c', after, m.
        split; [done|]. split; [by constructor|done].
      - right. split; [done|].
        intros c' m [->|Hin]%elem_of_cons; [apply Hc|by apply Hnone]. }
    destruct (Payload.dict_get c "itemModule") as [| | | | | |m] eqn:Hm;
      try (apply Hskip; intros m' [=]; done).
    destruct (Payload.videos_of m) as [|v vs] eqn:Hv.
    + apply Hskip. by intros m' [= <-].
    + left. exists [], c, rest, m. split; [done|]. split; [constructor|].
      split; [done|]. rewrite Hv. by split.
Qed.

Lemma first_videos_length (candidates : list (Payload.dict F)) (limit : Z) :
  (0 ≤ limit)%Z →
  (length (Payload.first_videos candidates limit) ≤ Z.to_nat limit)%nat.
Proof.
  intros Hlimit.
  destruct (first_videos_spec candidates limit)
    as [(before & c & after & m & _ & _ & _ & _ & ->)|[-> _]];
    [by apply slice_to_length|cbn; lia].
Qed.

(** X20: when the profile is read out of a payload, the user and the
    statistics come from the first dictionary, in the order of [_walk], that
    holds account details: they are dictionaries found in the payload (the
    statistics may also be the empty default), the user has a [uniqueId] that
    is neither missing nor empty, and that id is the profile's username: the
    handle asked for is never used in its place. The profile's URL is built
    from the handle asked for, and it lists at most eight videos. When no
    dictionary of the payload qualifies, the scrape error is raised. *)
Theorem profile_username_is_unique_id (normalized : string)
    (payload : Payload.dict F) :
  match Payload.profile_of_payload float_truthy normalized payload with
  | Ok profile =>
      ∃ user stats before candidate after,
        Payload._extract_user_and_stats float_truthy payload = Ok (user, stats)
        ∧ Payload._walk (Payload.JDict payload) = before ++ candidate :: after
        ∧ Forall (λ c, Payload.user_and_stats_of float_truthy c = None) before
        ∧ Payload.user_and_stats_of float_truthy candidate = Some (user, stats)
        ∧ Payload.occurs user (Payload.JDict payload)
        ∧ (stats = [] ∨ Payload.occurs stats (Payload.JDict payload))
        ∧ Payload.p_username profile = Payload.dict_get user "uniqueId"
        ∧ Payload.truthy float_truthy (Payload.p_username profile) = true
        ∧ Payload.p_followers profile = Payload.dict_get stats "followerCount"
        ∧ Payload.p_profile_url profile
          = ("https://www.tiktok.com/@" ++ normalized)%string
        ∧ (length (Payload.p_recent_videos profile) ≤ 8)%nat
  | Raise exc =>
      exc = TikTokScrapeError "Could not find TikTok account details in payload."
      ∧ ∀ candidate, Payload.occurs candidate (Payload.JDict payload) →
          Payload.user_and_stats_of float_truthy candidate = None
  end.
Proof.
  unfold Payload.profile_of_payload, Payload._extract_user_and_stats.
  pose proof (first_user_and_stats_spec
                (Payload._walk (Payload.JDict payload))) as Hfirst.
  destruct (Payload.first_user_and_stats float_truthy
              (Payload._walk (Payload.JDict payload))) as [[user stats]|exc];
    cbn [bind].
  - destruct Hfirst as (before & c & after & Hwalk & Hbefore & Hfound).
    assert (Hc : Payload.occurs c (Payload.JDict payload)).
    { apply walk_occurs. rewrite Hwalk. apply elem_of_app. right. by left. }
    destruct (user_and_stats_of_spec c user stats _ Hc Hfound)
      as (Hid & Huser & Hstats).
    exists user, stats, before, c, after.
    cbn [Payload.p_username Payload.p_followers Payload.p_profile_url
         Payload.p_recent_videos].
    do 6 (split; [done|]).
    assert (Hname : Payload.dict_get_or user "uniqueId" (Payload.JStr normalized)
                    = Payload.dict_get user "uniqueId").
    { unfold Payload.dict_get_or, Payload.dict_get in *.
      by destruct (List.find _ user). }
    rewrite Hname. do 4 (split; [done|]).
    change 8%nat with (Z.to_nat 8). by apply first_videos_length.
  - destruct Hfirst as [-> Hnone]. split; [done|].
    intros c Hc%walk_occurs. by apply Hnone.
Qed.

(** X21: for a limit that is not negative, [_extract_recent_videos] returns
    at most that many videos. They are the first ones of the first dictionary
    of the payload, in the order of [_walk], whose [itemModule] holds a
    dictionary; with no such dictionary the list is empty. *)
Theorem recent_videos_bounded (payload : Payload.dict F) (limit : Z) :
  (0 ≤ limit)%Z →
  (length (Payload._extract_recent_videos payload limit) ≤ Z.to_nat limit)%nat
  ∧ ((∃ before candidate after item_module,
        Payload._walk (Payload.JDict payload) = before ++ candidate :: after
        ∧ Forall (λ c, ∀ m, Payload.dict_get c "itemModule" = Payload.JDict m →
                            Payload.videos_of m = []) before
        ∧ Payload.dict_get candidate "itemModule" = Payload.JDict item_module
        ∧ Payload.videos_of item_module ≠ []
        ∧ Payload._extract_recent_videos payload limit
          = take (Z.to_nat limit) (Payload.videos_of item_module))
     ∨ (Payload._extract_recent_videos payload limit = []
        ∧ ∀ candidate item_module,
            Payload.occurs candidate (Payload.JDict payload) →
            Payload.dict_get candidate "itemModule" = Payload.JDict item_module →
            Payload.videos_of item_module = [])).
Proof.
  intros Hlimit. unfold Payload._extract_recent_videos.
  split; [by apply first_videos_length|].
  destruct (first_videos_spec (Payload._walk (Payload.JDict payload)) limit)
    as [(before & c & after & m & Hwalk & Hbefore & Hm & Hv & Hrun)
       |[Hrun Hnone]].
  - left. exists before, c, after, m. do 4 (split; [done|]). rewrite Hrun.
    unfold Payload.slice_to. destruct (Z.ltb_spec limit 0); [lia|done].
  - right. split; [done|]. intros c m Hc%walk_occurs. by apply Hnone.
Qed.

End PayloadProperties.

Lemma recent_videos_bounded_witness :
  (0 ≤ 1)%Z
  ∧ (length (Payload._extract_recent_videos Payload.sample_payload 1)
     ≤ Z.to_nat 1)%nat.
Proof.
  split; [lia|].
  destruct (recent_videos_bounded Payload.sample_payload 1) as [Hlen _];
    [lia|exact Hlen].
Defined.

Example scenario_profile_of_payload :
  ∃ profile,
    Payload.profile_of_payload (λ _, true) "alice" Payload.sample_payload
    = Ok profile
    ∧ Payload.p_username profile = Payload.JStr "alice"
    ∧ Payload.p_followers profile = Payload.JInt 100
    ∧ Payload.p_likes profile = Payload.JNull
    ∧ Payload.v_id <$> Payload.p_recent_videos profile
      = [Payload.JStr "7001"; Payload.JStr "7002"].
Proof. eexists. split; [reflexivity|]. by repeat split. Qed.

(** ** Reading a change in both directions *)

Lemma eqb_sym (a b : value) : eqb a b = eqb b a.
Proof.
  destruct a as [|x|x|x], b as [|y|y|y]; cbn;
    auto using String.eqb_sym, Z.eqb_sym.
Qed.

Lemma flat_map_mirror (forth back : string → list Event) (fields : list string) :
  (∀ f, Forall2 mirror (forth f) (back f)) →
  Forall2 mirror (flat_map forth fields) (flat_map back fields).
Proof.
  intros Hstep. induction fields as [|f fields IH]; [constructor|].
  cbn. by apply Forall2_app.
Qed.

Lemma flat_map_agree {A B} (f g : A → list B) (l : list A) :
  (∀ x, x ∈ l → f x = g x) → flat_map f l = flat_map g l.
Proof.
  intros Hfg. induction l as [|x l IH]; [done|]. cbn.
  rewrite (Hfg x) by left. f_equal. apply IH. intros y Hy. apply Hfg. by right.
Qed.

(** X22: [detect_profile_changes] between two profiles, whose fields hold
    None, a bool, an int or a string, always returns.
    Read in the opposite direction the same fields are reported, in the same
    order, old and new values exchanged and numeric deltas negated; a profile
    compared with itself yields no event; and only the seven tracked fields
    matter: profiles that agree on them yield the same events. *)
Theorem detect_profile_changes_mirror (a b : gmap string value) :
  ∃ forth back,
    detect_profile_changes (Some a) b = Ok forth
    ∧ detect_profile_changes (Some b) a = Ok back
    ∧ Forall2 mirror forth back
    ∧ detect_profile_changes (Some a) a = Ok []
    ∧ ∀ a' b',
        (∀ f, f ∈ Spec.FIELD_ORDER → a' !! f = a !! f ∧ b' !! f = b !! f) →
        detect_profile_changes (Some a') b' = Ok forth.
Proof.
  eexists _, _. split; [apply detect_profile_changes_steps|].
  split; [apply detect_profile_changes_steps|]. split; [|split].
  - apply Forall2_app; [|apply Forall2_app]; apply flat_map_mirror; intros f.
    + unfold Spec.numeric_step.
      destruct (_as_int_total (get a f)) as [[x|] ->],
        (_as_int_total (get b f)) as [[y|] ->]; try constructor.
      rewrite (Z.eqb_sym y x). destruct (x =? y)%Z; repeat constructor.
      cbn. f_equal. lia.
    + unfold Spec.text_step. rewrite (eqb_sym (get b f)).
      destruct (eqb (get a f) (get b f)); repeat constructor.
    + unfold Spec.boolean_step.
      destruct (truthy (get a f)), (truthy (get b f)); repeat constructor.
  - rewrite detect_profile_changes_steps. f_equal.
    assert (Hnone : ∀ (step : string → list Event) fields,
              (∀ f, step f = []) → flat_map step fields = []).
    { intros step fields Hstep. induction fields as [|f fields IH]; [done|].
      cbn. by rewrite Hstep. }
    rewrite !Hnone; [done|..]; intros f.
    + unfold Spec.boolean_step. by rewrite Bool.eqb_reflx.
    + unfold Spec.text_step. by rewrite eqb_refl.
    + unfold Spec.numeric_step.
      destruct (_as_int_total (get a f)) as [[x|] ->]; [|done].
      by rewrite Z.eqb_refl.
  - intros a' b' Hagree. rewrite detect_profile_changes_steps. f_equal.
    assert (Hget : ∀ f, f ∈ Spec.FIELD_ORDER →
              get a' f = get a f ∧ get b' f = get b f).
    { intros f Hf. destruct (Hagree f Hf) as [Ha Hb]. unfold get.
      by rewrite Ha, Hb. }
    unfold Spec.FIELD_ORDER in Hget.
    f_equal; [|f_equal]; apply flat_map_agree; intros f Hf.
    + destruct (Hget f) as [Ha Hb]; [by apply elem_of_app; left|].
      unfold Spec.numeric_step. by rewrite Ha, Hb.
    + destruct (Hget f) as [Ha Hb];
        [apply elem_of_app; right; by apply elem_of_app; left|].
      unfold Spec.text_step. by rewrite Ha, Hb.
    + destruct (Hget f) as [Ha Hb];
        [apply elem_of_app; right; by apply elem_of_app; right|].
      unfold Spec.boolean_step. by rewrite Ha, Hb.
Qed.

(** ** Fetching a profile *)

Section FetchProperties.
Context {F : Type} (float_truthy : F → bool).
Context (fetcher_get : string → result (string → option string)).
Context (loads : string → result (Payload.json F)).

Lemma first_payload_spec (page : string → option string) (todo : list string) :
  match Payload.first_payload loads page todo with
  | Ok payload =>
      ∃ selector raw, selector ∈ todo ∧ page selector = Some raw ∧ raw ≠ ""
        ∧ loads raw = Ok (Payload.JDict payload)
  | Raise exc =>
      exc = TikTokScrapeError "Could not read TikTok profile payload from page."
      ∨ ∃ selector raw, selector ∈ todo ∧ page selector = Some raw
          ∧ loads raw = Raise exc ∧ Payload.is_json_decode_error exc = false
  end.
Proof.
  induction todo as [|selector rest IH]; cbn [Payload.first_payload];
    [by left|].
  assert (Hrest :
    match Payload.first_payload loads page rest with
    | Ok payload =>
        ∃ selector' raw, selector' ∈ selector :: rest
          ∧ page selector' = Some raw ∧ raw ≠ ""
          ∧ loads raw = Ok (Payload.JDict payload)
    | Raise exc =>
        exc = TikTokScrapeError "Could not read TikTok profile payload from page."
        ∨ ∃ selector' raw, selector' ∈ selector :: rest
            ∧ page selector' = Some raw
            ∧ loads raw = Raise exc ∧ Payload.is_json_decode_error exc = false
    end).
  { destruct (Payload.first_payload loads page rest) as [payload|exc].
    - destruct IH as (sel & raw & Hin & H). exists sel, raw.
      split; [by right|done].
    - destruct IH as [->|(sel & raw & Hin & H)]; [by left|].
      right. exists sel, raw. split; [by right|done]. }
  destruct (page selector) as [raw|] eqn:Hpage; [|exact Hrest].
  destruct (String.eqb_spec raw "") as [->|Hraw]; [exact Hrest|].
  destruct (loads raw) as [[| | | | | |loaded]|exc] eqn:Hloads; try exact Hrest.
  - exists selector, raw. split; [by left|done].
  - destruct (Payload.is_json_decode_error exc) eqn:Hexc; [exact Hrest|].
    right. exists selector, raw. split; [by left|done].
Qed.

Lemma profile_of_payload_cases (normalized : string) (payload : Payload.dict F) :
  match Payload.profile_of_payload float_truthy normalized payload with
  | Ok profile =>
      Payload.truthy float_truthy (Payload.p_username profile) = true
      ∧ Payload.p_profile_url profile
        = ("https://www.tiktok.com/@" ++ normalized)%string
  | Raise exc =>
      exc = TikTokScrapeError "Could not find TikTok account details in payload."
  end.
Proof.
  unfold Payload.profile_of_payload, Payload._extract_user_and_stats.
  pose proof (first_user_and_stats_spec float_truthy
                (Payload._walk (Payload.JDict payload))) as Hfirst.
  destruct (Payload.first_user_and_stats float_truthy
              (Payload._walk (Payload.JDict payload))) as [[user stats]|exc];
    cbn [bind]; [|by destruct Hfirst].
  destruct Hfirst as (before & c & after & Hwalk & _ & Hfound).
  assert (Hc : Payload.occurs c (Payload.JDict payload)).
  { apply walk_occurs. rewrite Hwalk. apply elem_of_app. right. by left. }
  destruct (user_and_stats_of_spec float_truthy c user stats _ Hc Hfound)
    as (Hid & _).
  cbn [Payload.p_username Payload.p_profile_url]. split; [|done].
  unfold Payload.dict_get_or, Payload.dict_get in *.
  by destruct (List.find _ user).
Qed.

(** X23: [fetch_tiktok_profile] validates the handle before it asks for any
    page: a malformed handle raises the validation error whatever the
    fetcher would answer. For a well-formed handle it requests the page of
    the normalised handle; a profile it returns was read from a dictionary
    that [json.loads] made of the text of one of the three script tags, has
    a username that is neither missing nor empty, and carries the URL
    requested. Every exception it raises is a scrape error (malformed
    handle, no readable payload, no account details) unless the fetcher
    raised it or [json.loads] raised something other than a decode error. *)
Theorem fetch_failure_modes (username : string) :
  match Payload.fetch_tiktok_profile float_truthy fetcher_get loads username with
  | Ok profile =>
      ∃ normalized page selector raw payload,
        Scraper.normalize_username username = Ok normalized
        ∧ fetcher_get ("https://www.tiktok.com/@" ++ normalized)%string = Ok page
        ∧ selector ∈ Payload.selectors ∧ page selector = Some raw
        ∧ loads raw = Ok (Payload.JDict payload)
        ∧ Payload.profile_of_payload float_truthy normalized payload = Ok profile
        ∧ Payload.truthy float_truthy (Payload.p_username profile) = true
        ∧ Payload.p_profile_url profile
          = ("https://www.tiktok.com/@" ++ normalized)%string
  | Raise exc =>
      (Scraper.normalize_username username = Raise exc
       ∧ exc = Scraper.invalid_username)
      ∨ ∃ normalized,
          Scraper.normalize_username username = Ok normalized
          ∧ (fetcher_get ("https://www.tiktok.com/@" ++ normalized)%string
             = Raise exc
             ∨ (∃ raw, loads raw = Raise exc
                       ∧ Payload.is_json_decode_error exc = false)
             ∨ exc = TikTokScrapeError
                       "Could not read TikTok profile payload from page."
             ∨ exc = TikTokScrapeError
                       "Could not find TikTok account details in payload.")
  end.
Proof.
  unfold Payload.fetch_tiktok_profile.
  destruct (Scraper.normalize_username username) as [normalized|exc] eqn:Hnorm;
    cbn [bind].
  2: { left. split; [done|]. unfold Scraper.normalize_username in Hnorm.
       destruct (Scraper.handle_fullmatch _); [discriminate|].
       by injection Hnorm as <-. }
  destruct (fetcher_get _) as [page|exc] eqn:Hget; cbn [bind].
  2: { right. exists normalized. split; [done|]. by left. }
  unfold Payload._extract_payload.
  pose proof (first_payload_spec page Payload.selectors) as Hpayload.
  destruct (Payload.first_payload loads page Payload.selectors)
    as [payload|exc]; cbn [bind].
  2: { right. exists normalized. split; [done|]. right.
       destruct Hpayload as [->|(sel & raw & _ & _ & Hraw & Hexc)];
         [right; by left|left; eauto]. }
  destruct Hpayload as (sel & raw & Hsel & Hpage & _ & Hloads).
  pose proof (profile_of_payload_cases normalized payload) as Hprofile.
  destruct (Payload.profile_of_payload float_truthy normalized payload)
    as [profile|exc] eqn:Hrun.
  - destruct Hprofile as [Hid Hurl].
    exists normalized, page, sel, raw, payload. by repeat split.
  - right. exists normalized. split; [done|]. do 3 right. exact Hprofile.
Qed.

End FetchProperties.

Example scenario_fetch_profile :
  let page selector :=
    if String.eqb selector "script#SIGI_STATE::text" then Some "{...}"
    else None in
  ∃ profile,
    Payload.fetch_tiktok_profile (λ _ : unit, true)
      (λ url, if String.eqb url "https://www.tiktok.com/@alice" then Ok page
              else Raise (OtherException "ConnectionError" "unreachable"))
      (λ _, Ok (Payload.JDict Payload.sample_payload)) " @Alice"
    = Ok profile
    ∧ Payload.p_username profile = Payload.JStr "alice"
    ∧ length (Payload.p_recent_videos profile) = 2%nat.
Proof. eexists. split; [reflexivity|]. by split. Qed.

(** ** The dashboard *)

Lemma settings_rows_spec (e : Settings.EnvDefaults) (state : gmap string value)
    (defs : list (string * Settings.SettingDef)) :
  settings_valid e state →
  (∀ kd, kd ∈ defs → kd ∈ Settings.SETTING_DEFINITIONS e) →
  ∃ rows,
    Dashboard.settings_rows e state defs.*1 = Ok rows
    ∧ Dashboard.r_key <$> rows = defs.*1
    ∧ Forall (λ row, state !! Dashboard.r_key row = Some (Dashboard.r_value row)
                     ∧ Dashboard.row_in_bounds row = true) rows.
Proof.
  intros Hvalid. induction defs as [|[key definition] defs IH]; intros Hin.
  - exists []. by repeat split.
  - destruct IH as (rows & Hrows & Hkeys & Hall).
    { intros kd Hkd. apply Hin. by right. }
    pose proof (Hin _ (list_elem_of_here _ _)) as Hdef.
    destruct (definition_shapes e key definition Hdef) as [Hitem Hshape].
    destruct (Hvalid key definition Hdef) as (v & Hv & Hok).
    eexists. cbn [fmap list_fmap fst Dashboard.settings_rows].
    rewrite Hitem, Hv, Hrows. cbn [bind]. split; [reflexivity|].
    split; [cbn; by f_equal|]. constructor; [|done].
    cbn [Dashboard.r_key Dashboard.r_value]. split; [done|].
    unfold Dashboard.row_in_bounds, valid_value in *.
    cbn [Dashboard.r_value Dashboard.r_type Dashboard.r_min Dashboard.r_max].
    destruct Hshape as [[Htype _]|[Htype _]]; rewrite Htype in *; cbn in Hok |- *;
      by destruct v.
Qed.

(** X24: with valid settings and a well-formed database the dashboard's
    context is always built. It shows the newest events and the newest
    failures, newest first, as many as the two dashboard limits allow, which
    is never more than 500 each; and its settings rows are the nine settings
    in the order of their definitions, each with the value the settings hold
    for it, which lies within the bounds the row shows. *)
Theorem dashboard_within_limits (e : Settings.EnvDefaults) (site : Settings.Site) :
  settings_valid e (Settings.settings_state site) →
  db_ok (store (world (App.monitor (Settings.app site)))) →
  ∃ view events_limit failures_limit,
    Dashboard._dashboard_context e site = Ok view
    ∧ Settings.settings_state site !! "dashboard_events_limit"
      = Some (VInt events_limit)
    ∧ Settings.settings_state site !! "dashboard_failures_limit"
      = Some (VInt failures_limit)
    ∧ (1 ≤ events_limit ≤ 500)%Z ∧ (1 ≤ failures_limit ≤ 500)%Z
    ∧ Dashboard.c_events view
      = take (Z.to_nat events_limit)
          (reverse (events (store (world (App.monitor (Settings.app site))))))
    ∧ Dashboard.c_failures view
      = take (Z.to_nat failures_limit)
          (reverse (failures (store (world (App.monitor (Settings.app site))))))
    ∧ Dashboard.r_key <$> Dashboard.c_settings_rows view
      = Settings.SETTINGS_ORDER e
    ∧ Forall (λ row,
                Settings.settings_state site !! Dashboard.r_key row
                = Some (Dashboard.r_value row)
                ∧ Dashboard.row_in_bounds row = true)
        (Dashboard.c_settings_rows view).
Proof.
  intros Hvalid (_ & _ & [He _] & [Hf _]).
  edestruct (settings_valid_int e (Settings.settings_state site)
               "dashboard_events_limit")
    as (n & Hn & Hnr); [exact Hvalid|do 4 right; left|reflexivity..|].
  edestruct (settings_valid_int e (Settings.settings_state site)
               "dashboard_failures_limit")
    as (m & Hm & Hmr); [exact Hvalid|do 5 right; left|reflexivity..|].
  destruct (settings_rows_spec e _ (Settings.SETTING_DEFINITIONS e) Hvalid)
    as (rows & Hrows & Hkeys & Hall); [done|].
  unfold Dashboard._dashboard_context, Settings._get_setting_limit,
    Dashboard._settings_view_model, Settings.SETTINGS_ORDER,
    get_recent_events, get_recent_failures.
  rewrite Hn, Hm, Hrows. cbn [int bind].
  rewrite !newest_first_reverse;
    [|done|unfold int64_min, int64_max; lia|done|unfold int64_min, int64_max; lia].
  cbn [bind]. destruct (Z.ltb_spec n 0), (Z.ltb_spec m 0); try lia.
  eexists _, n, m. split; [reflexivity|].
  cbn [Dashboard.c_events Dashboard.c_failures Dashboard.c_settings_rows].
  repeat split; first [done|lia].
Qed.

Lemma dashboard_within_limits_witness :
  settings_valid sample_defaults (Settings.settings_state sample_site)
  ∧ db_ok (store (world (App.monitor (Settings.app sample_site))))
  ∧ ∃ view, Dashboard._dashboard_context sample_defaults sample_site = Ok view
            ∧ length (Dashboard.c_events view) = 1%nat
            ∧ length (Dashboard.c_settings_rows view) = 9%nat.
Proof.
  split; [exact settings_valid_sample|]. split; [exact db_ok_samples|].
  destruct (dashboard_within_limits sample_defaults sample_site
              settings_valid_sample db_ok_samples)
    as (view & n & m & Hview & _).
  exists view. split; [exact Hview|].
  assert (Hrun : match Dashboard._dashboard_context sample_defaults sample_site with
                 | Ok v => length (Dashboard.c_events v) = 1%nat
                           ∧ length (Dashboard.c_settings_rows v) = 9%nat
                 | Raise _ => True
                 end) by (vm_compute; split; reflexivity).
  rewrite Hview in Hrun. exact Hrun.
Defined.

(** ** The monitor only adds to the history *)

Lemma extends_refl (d : DB) : extends d d.
Proof. by repeat split. Qed.

Lemma extends_trans (d1 d2 d3 : DB) : extends d1 d2 → extends d2 d3 → extends d1 d3.
Proof.
  intros (H1 & H2 & H3 & H4 & H5) (K1 & K2 & K3 & K4 & K5).
  split; [by trans (snapshots d2)|]. split; [by trans (events d2)|].
  split; [by trans (failures d2)|].
  split; [by trans (registry_core <$> watch_accounts d2)|]. by rewrite K5.
Qed.

Lemma extends_insert_account_do_nothing (username now : string) (d : DB) :
  extends d (snd (insert_account_do_nothing username now d)).
Proof.
  unfold insert_account_do_nothing. cbn [snd].
  destruct (find_account username (watch_accounts d)); [apply extends_refl|].
  repeat split; try done. cbn. rewrite fmap_app. by apply prefix_app_r.
Qed.

Lemma extends_set_checked (now : string) (err : option string)
    (username : string) (d : DB) :
  extends d (snd (update_account (set_checked now err) username d)).
Proof.
  repeat split; try done. cbn.
  replace (registry_core <$> map _ (watch_accounts d))
    with (registry_core <$> watch_accounts d); [done|].
  induction (watch_accounts d) as [|r rows IH]; [done|]. cbn. f_equal; [|done].
  by destruct (String.eqb (w_username r) username).
Qed.

Lemma extends_insert_snapshot (mk : Z → SnapshotRow) (d : DB) :
  extends d (snd (insert_snapshot mk d)).
Proof. repeat split; try done. cbn. by apply prefix_app_r. Qed.

Lemma extends_insert_failure (mk : Z → FailureRow) (d : DB) :
  extends d (snd (insert_failure mk d)).
Proof. repeat split; try done. cbn. by apply prefix_app_r. Qed.

Lemma extends_insert_events (mks : list (Z → EventRow)) (d : DB) :
  extends d (insert_events mks d).
Proof.
  revert d. induction mks as [|mk mks IH]; intros d; [apply extends_refl|].
  cbn. eapply extends_trans; [|apply IH].
  repeat split; try done. cbn. by apply prefix_app_r.
Qed.

Lemma extends_save_snapshot (now : string) (profile : gmap string value) (d : DB) :
  extends d (final (save_snapshot now profile d))
  ∧ (committed (save_snapshot now profile d) = []
     ∨ committed (save_snapshot now profile d)
       = [final (save_snapshot now profile d)]).
Proof.
  destruct (save_snapshot_cases now profile d)
    as [(e & _ & -> & ->) | (u & mk & _ & _ & -> & -> & _)].
  - split; [apply extends_refl|by left].
  - split; [|by right].
    eapply extends_trans; [apply extends_insert_account_do_nothing|].
    eapply extends_trans; [apply extends_insert_snapshot|].
    apply extends_set_checked.
Qed.

Lemma extends_record_failure (now username error : string) (d : DB) :
  extends d (final (record_failure now username error d)).
Proof.
  change (final (record_failure now username error d))
    with (snd (update_account (set_checked now (Some error)) username
                 (snd (insert_failure
                         (λ id, {| f_id := id; f_username := username;
                                   f_checked_at := now; f_error := error |})
                         (snd (insert_account_do_nothing username now d)))))).
  eapply extends_trans; [apply extends_insert_account_do_nothing|].
  eapply extends_trans; [apply extends_insert_failure|].
  apply extends_set_checked.
Qed.

Lemma extends_record_events (now : string) (username : value)
    (evs : list Event) (d : DB) :
  extends d (final (record_events now username evs d)).
Proof.
  destruct (record_events_cases now username evs d)
    as [(e & _ & -> & _) | (mks & _ & -> & _)];
    [apply extends_refl|apply extends_insert_events].
Qed.

Lemma only_extends_bind {A B} (m : M A) (k : A → M B) :
  only_extends m → (∀ a, only_extends (k a)) → only_extends (m ≫= k).
Proof.
  intros Hm Hk s. unfold mbind, m_mbind, m_bind.
  destruct (Hm s) as [H1 H2]. destruct (m s) as [[a|e] s1]; [|done].
  destruct (Hk a s1) as [K1 K2]. cbn [snd] in *.
  split; [by eapply extends_trans|by trans (journal (world s1))].
Qed.

Lemma only_extends_ret {A} (a : A) : only_extends (mret a : M A).
Proof. intros s. split; [apply extends_refl|done]. Qed.

Lemma only_extends_store_write {A} (env : Env) (op : string → DB → Outcome A) :
  (∀ now d, extends d (final (op now d))) → only_extends (store_write env op).
Proof.
  intros Hop s. unfold store_write. cbn. split; [apply Hop|].
  by apply prefix_app_r.
Qed.

Lemma only_extends_check_account (env : Env) (username : string) :
  only_extends (check_account env username).
Proof.
  unfold check_account.
  apply only_extends_bind; [intros s; split; [apply extends_refl|done]|].
  intros previous.
  apply only_extends_bind; [intros s; split; [apply extends_refl|done]|].
  intros [current|exc].
  - apply only_extends_bind.
    { apply only_extends_store_write. intros now d.
      apply extends_save_snapshot. }
    intros _. apply only_extends_bind;
      [intros s; split; [apply extends_refl|done]|].
    intros events. apply only_extends_bind;
      [intros s; split; [apply extends_refl|done]|].
    intros canonical. apply only_extends_bind; [|intros; apply only_extends_ret].
    apply only_extends_store_write. intros now d. apply extends_record_events.
  - destruct exc; (apply only_extends_bind; [|intros; apply only_extends_ret]);
      apply only_extends_store_write; intros now d; apply extends_record_failure.
Qed.

Lemma only_extends_check_loop (env : Env) (accounts : list WatchRow) (c f : Z) :
  only_extends (check_loop env accounts c f).
Proof.
  revert c f. induction accounts as [|a accounts IH]; intros c f.
  - apply only_extends_ret.
  - cbn [check_loop]. apply only_extends_bind;
      [apply only_extends_check_account|]. intros []; apply IH.
Qed.

Lemma only_extends_run_once (env : Env) : only_extends (run_once env).
Proof.
  intros s. unfold run_once. destruct (run_lock s); [split; [apply extends_refl|done]|].
  unfold utc_now_iso.
  set (s3 := set_last_run_started_at _ _).
  assert (Hcycle : only_extends (run_cycle env)).
  { unfold run_cycle. apply only_extends_bind;
      [intros s0; split; [apply extends_refl|done]|].
    intros accounts. apply only_extends_bind; [apply only_extends_check_loop|].
    intros counts. apply only_extends_bind;
      [intros s0; split; [apply extends_refl|done]|].
    intros _. apply only_extends_ret. }
  destruct (Hcycle s3) as [H1 H2].
  destruct (run_cycle env s3) as [r s4]. cbn in *. by split.
Qed.

(** X25: the monitor only ever adds to the history. Whatever a check of an
    account or a whole cycle does, whether it returns or raises, the
    snapshots, events and failures stored before are still there, unchanged
    and in front of any new ones; every registered handle is still
    registered with the creation time and the active flag it had; the
    settings are untouched; and the states committed so far are still the
    first ones of the journal. *)
Theorem monitor_only_adds_history (env : Env) (username : string) (s : Service) :
  (extends (store (world s)) (store (world (snd (check_account env username s))))
   ∧ journal (world s)
     `prefix_of` journal (world (snd (check_account env username s))))
  ∧ (extends (store (world s)) (store (world (snd (run_once env s))))
     ∧ journal (world s) `prefix_of` journal (world (snd (run_once env s)))).
Proof.
  split; [apply only_extends_check_account|apply only_extends_run_once].
Qed.

(** ** Handles in normal form *)

Lemma all_chars_impl (p q : ascii → bool) (s : string) :
  (∀ c, p c = true → q c = true) →
  Scraper.all_chars p s = true → Scraper.all_chars q s = true.
Proof.
  intros Hpq. induction s as [|c r IH]; [done|]. cbn.
  intros [Hc Hr]%andb_true_iff. by rewrite (Hpq c Hc), IH.
Qed.

Lemma lowered_handle_char (c : ascii) :
  Scraper.is_handle_char (lower_char c) = true →
  is_normal_char (lower_char c) = true.
Proof. destruct c as [[] [] [] [] [] [] [] []]; by vm_compute. Qed.

Lemma normal_char_facts (c : ascii) :
  is_normal_char c = true →
  is_space c = false ∧ c ≠ "@"%char ∧ lower_char c = c
  ∧ Scraper.is_handle_char c = true.
Proof. destruct c as [[] [] [] [] [] [] [] []]; by vm_compute. Qed.

Lemma all_chars_lower (s : string) :
  Scraper.all_chars Scraper.is_handle_char (lower s) = true →
  Scraper.all_chars is_normal_char (lower s) = true.
Proof.
  induction s as [|c r IH]; [done|]. cbn.
  intros [Hc Hr]%andb_true_iff. by rewrite lowered_handle_char, IH.
Qed.

Lemma normal_form_fixed (n : string) :
  Scraper.all_chars is_normal_char n = true →
  lower (lstrip ["@"%char] (strip n)) = n.
Proof.
  intros Hn. unfold strip. rewrite strip_by_clean.
  2: { eapply all_chars_impl; [|exact Hn]. intros c Hc.
       by destruct (normal_char_facts c Hc) as (-> & _). }
  assert (lstrip ["@"%char] n = n) as ->.
  { destruct n as [|c r]; [done|]. cbn in *.
    apply andb_true_iff in Hn as [Hc _].
    destruct (normal_char_facts c Hc) as (_ & Hat & _).
    rewrite bool_decide_eq_false_2; [done|].
    by intros ->%list_elem_of_singleton. }
  induction n as [|c r IH]; [done|]. cbn in *.
  apply andb_true_iff in Hn as [Hc Hr].
  destruct (normal_char_facts c Hc) as (_ & _ & -> & _). by rewrite IH.
Qed.

(** X26: a handle that [normalize_username] returns is in normal form: it
    has 2 to 24 characters, each a lower-case ASCII letter, a digit, a dot or
    an underscore, and normalising it again returns it unchanged. So the
    history endpoint answers a handle as typed exactly as it answers its
    normal form. *)
Theorem normalized_handle_is_fixed (username normalized : string) :
  Scraper.normalize_username username = Ok normalized →
  Scraper.normalize_username normalized = Ok normalized
  ∧ Scraper.all_chars is_normal_char normalized = true
  ∧ (2 ≤ String.length normalized ≤ 24)%nat
  ∧ ∀ limit_raw site,
      Settings.api_history username limit_raw site
      = Settings.api_history normalized limit_raw site.
Proof.
  intros Hnorm.
  assert (Hshape : Scraper.all_chars is_normal_char normalized = true
                   ∧ Scraper.handle_fullmatch normalized = true).
  { unfold Scraper.normalize_username in Hnorm.
    destruct (Scraper.handle_fullmatch _) eqn:Hmatch; [|discriminate].
    injection Hnorm as <-. split; [|done].
    unfold Scraper.handle_fullmatch in Hmatch.
    apply andb_true_iff in Hmatch as [[Hchars _]%andb_true_iff _].
    by apply all_chars_lower. }
  destruct Hshape as [Hchars Hmatch].
  assert (Hfixed : Scraper.normalize_username normalized = Ok normalized).
  { unfold Scraper.normalize_username.
    by rewrite (normal_form_fixed normalized Hchars), Hmatch. }
  split; [done|]. split; [done|]. split.
  - unfold Scraper.handle_fullmatch in Hmatch.
    apply andb_true_iff in Hmatch as [[_ Hlo%Nat.leb_le]%andb_true_iff Hhi%Nat.leb_le].
    done.
  - intros limit_raw site. unfold Settings.api_history.
    by rewrite Hnorm, Hfixed.
Qed.

Lemma normalized_handle_is_fixed_witness :
  Scraper.normalize_username " @Alice_01" = Ok "alice_01"%string
  ∧ Scraper.normalize_username "alice_01" = Ok "alice_01"%string.
Proof.
  split; [reflexivity|].
  by destruct (normalized_handle_is_fixed " @Alice_01" "alice_01" eq_refl)
    as [Hfixed _].
Defined.

(** ** A change at the site reaches the event table *)

(** What [record_events] stores of an event for the handle [name]. *)
Lemma insert_event_row_ok (name detected_at : string) (event : Event) (c : Conn) :
  Spec.bindable_count (delta event) = true →
  ∃ mk,
    insert_event_row (VStr name) detected_at event c
    = (Ok (), {| durable := durable c;
                 pending := Some (snd (insert_event mk (working c)));
                 commits := commits c |})
    ∧ ∀ id, e_id (mk id) = id
            ∧ (row_of_event detected_at event (mk id)
               ∧ e_username (mk id) = name
               ∧ _to_int (delta event) = Ok (e_delta (mk id))).
Proof.
  intros Hdelta. destruct (bind_count_ok _ Hdelta) as (di & pd & Hdi & Hpd).
  unfold insert_event_row, mbind, sql_mbind, sql_bind, lift, execute.
  rewrite Hdi. cbn [bind_param].
  assert (Hstr : ∀ v, ∃ p, bind_param (str_or_none v) = Ok p
            ∧ text_column p = match v with VNone => None | _ => Some (str v) end).
  { intros [| | |]; simpl; eauto. }
  destruct (Hstr (old_value event)) as (po & -> & Ho).
  destruct (Hstr (new_value event)) as (pn & -> & Hn).
  rewrite Hpd. cbn [text_column not_null].
  eexists. split; [reflexivity|].
  intros id. unfold row_of_event. cbn -[str]. rewrite Ho, Hn.
  repeat split; [by destruct (old_value event) | by destruct (new_value event)|].
  destruct di as [z|]; cbn in Hpd.
  - unfold bind_int in Hpd. destruct (_ && _); [|discriminate].
    by injection Hpd as <-.
  - by injection Hpd as <-.
Qed.

Lemma executemany_ok (name detected_at : string) (events : list Event) (c : Conn) :
  Forall (λ ev, Spec.bindable_count (delta ev) = true) events →
  ∃ mks,
    executemany (insert_event_row (VStr name) detected_at) events c
    = (Ok (), match events with
              | [] => c
              | _ => {| durable := durable c;
                        pending := Some (insert_events mks (working c));
                        commits := commits c |}
              end)
    ∧ Forall2 (λ mk event,
         ∀ id, e_id (mk id) = id
               ∧ (row_of_event detected_at event (mk id)
                  ∧ e_username (mk id) = name
                  ∧ _to_int (delta event) = Ok (e_delta (mk id))))
        mks events.
Proof.
  intros Hall. revert c. induction Hall as [|event events Hev _ IH]; intros c.
  - exists []. split; [done|constructor].
  - cbn [executemany]. unfold mbind, sql_mbind, sql_bind.
    destruct (insert_event_row_ok name detected_at event c Hev) as (mk & -> & Hmk).
    match goal with |- context [executemany _ events ?c1] =>
      destruct (IH c1) as (mks & -> & Hmks)
    end.
    exists (mk :: mks). split; [|by constructor].
    f_equal. destruct events; [by inversion Hmks|done].
Qed.

Lemma record_events_ok_rows (now name : string) (evs : list Event) (d : DB) :
  Forall (λ ev, Spec.bindable_count (delta ev) = true) evs →
  ∃ rows,
    out (record_events now (VStr name) evs d) = Ok ()
    ∧ events (final (record_events now (VStr name) evs d)) = events d ++ rows
    ∧ Forall2 (λ row ev, row_of_event now ev row ∧ e_username row = name
                         ∧ _to_int (delta ev) = Ok (e_delta row)) rows evs
    ∧ snapshots (final (record_events now (VStr name) evs d)) = snapshots d
    ∧ failures (final (record_events now (VStr name) evs d)) = failures d
    ∧ watch_accounts (final (record_events now (VStr name) evs d))
      = watch_accounts d.
Proof.
  intros Hall. destruct evs as [|ev evs].
  - exists []. cbn. rewrite app_nil_r. repeat split. constructor.
  - unfold record_events, with_connect.
    destruct (executemany_ok name now (ev :: evs)
                {| durable := d; pending := None; commits := [] |} Hall)
      as (mks & -> & Hmks).
    cbn [out final commit pending durable working default from_option id].
    destruct (insert_events_effect
                (λ ev row, row_of_event now ev row ∧ e_username row = name
                           ∧ _to_int (delta ev) = Ok (e_delta row))
                mks (ev :: evs) d Hmks)
      as (rows & Hrows & Hforall & _ & _ & Hw & Hs & Hf & _).
    exists rows. by repeat split.
Qed.

(** X27: a check of an account that has a snapshot under the handle it is
    called with, for which the fetch delivers a storable profile whose
    username is a string, stores the new snapshot and then exactly the events
    [detect_profile_changes] finds between the latest snapshot and the
    fetched profile, provided their numeric deltas fit SQLite's INTEGER: one
    event row per event, in order, after the rows already there, filed under
    the profile's handle, stamped with the time of the second write and
    carrying the event's metric, message, values and delta. It returns [True]
    and records no failure. *)
Theorem check_records_detected_changes
    (env : Env) (s : Service) (username name : string)
    (previous current : gmap string value) (evs : list Event) :
  Scraper.fetch_tiktok_profile (remote env (calls (world s))) username
  = Ok current →
  Spec.storable current = true →
  current !! "username" = Some (VStr name) →
  get_latest_snapshot username (store (world s)) = Some previous →
  detect_profile_changes (Some previous) current = Ok evs →
  Forall (λ ev, Spec.bindable_count (delta ev) = true) evs →
  ∃ s' row rows,
    check_account env username s = (Ok true, s')
    ∧ snapshots (store (world s')) = snapshots (store (world s)) ++ [row]
    ∧ s_username row = name
    ∧ s_checked_at row = clock env (S (calls (world s)))
    ∧ events (store (world s')) = events (store (world s)) ++ rows
    ∧ Forall2 (λ row ev,
                 row_of_event (clock env (S (S (calls (world s))))) ev row
                 ∧ e_username row = name
                 ∧ _to_int (delta ev) = Ok (e_delta row)) rows evs
    ∧ failures (store (world s')) = failures (store (world s)).
Proof.
  intros Hfetch Hstorable Hname Hprev Hdetect Hfit.
  set (now := clock env (S (calls (world s)))).
  set (later := clock env (S (S (calls (world s))))).
  pose proof (save_snapshot_ok now current (store (world s)) Hstorable) as Hout.
  destruct (save_snapshot_row now current (store (world s)) Hout)
    as (u & row & Hu & Hsnap & _ & Hrowname & Htime & _).
  assert (u = VStr name) as -> by congruence.
  destruct (save_snapshot_cases now current (store (world s)))
    as [(e & Hraise & _) | (u' & mk & Hu' & _ & Hcommit & Hfinal & _)];
    [congruence|].
  assert (u' = VStr name) as -> by congruence.
  assert (Htables : events (final (save_snapshot now current (store (world s))))
                    = events (store (world s))
                    ∧ failures (final (save_snapshot now current (store (world s))))
                      = failures (store (world s))).
  { rewrite Hfinal. unfold insert_account_do_nothing. cbn.
    by destruct (find_account name (watch_accounts (store (world s)))). }
  destruct Htables as [Hev Hfl].
  destruct (record_events_ok_rows later name evs
              (final (save_snapshot now current (store (world s)))) Hfit)
    as (rows & Hrec & Hrows & Hall & Hsn & Hfa & _).
  exists (snd (check_account env username s)), row, rows.
  unfold check_account, mbind, m_mbind, m_bind, store_read, try_fetch,
    store_write, lift_result, subscript, mret, m_mret.
  cbn -[save_snapshot record_events detect_profile_changes
        Scraper.fetch_tiktok_profile].
  rewrite Hfetch, Hprev. unfold set_world, tick.
  cbn [world store journal calls]. fold now. rewrite Hout.
  cbn -[save_snapshot record_events detect_profile_changes].
  rewrite Hdetect. cbn -[save_snapshot record_events]. rewrite Hname.
  cbn -[save_snapshot record_events]. fold later. rewrite Hrec.
  cbn -[save_snapshot record_events].
  split; [done|]. split; [by rewrite Hsn|]. split; [done|]. split; [done|].
  split; [by rewrite Hrows, Hev|]. split; [done|]. by rewrite Hfa.
Qed.


Lemma check_records_detected_changes_witness :
  Spec.storable Samples.alice_150 = true
  ∧ ∃ s2, check_account Cases.grown "alice"
            (Samples.service_on Cases.seen_alice false None) = (Ok true, s2)
          ∧ e_metric <$> events (store (world s2)) = ["followers"].
Proof.
  set (s1 := Samples.service_on Cases.seen_alice false None).
  set (previous := default ∅ (get_latest_snapshot "alice" (store (world s1)))).
  set (evs := [numeric_event "followers" 100 150]).
  assert (Hstorable : Spec.storable Samples.alice_150 = true)
    by (vm_compute; reflexivity).
  assert (Hprev : get_latest_snapshot "alice" (store (world s1)) = Some previous)
    by reflexivity.
  assert (Hdetect : detect_profile_changes (Some previous) Samples.alice_150
                    = Ok evs) by (vm_compute; reflexivity).
  assert (Hfetch : Scraper.fetch_tiktok_profile
                     (remote Cases.grown (calls (world s1))) "alice"
                   = Ok Samples.alice_150) by reflexivity.
  assert (Hname : Samples.alice_150 !! "username" = Some (VStr "alice"))
    by (vm_compute; reflexivity).
  assert (Hold : events (store (world s1)) = []) by reflexivity.
  assert (Hfit : Forall (λ ev, Spec.bindable_count (delta ev) = true) evs)
    by (repeat constructor).
  assert (Hevs : metric <$> evs = ["followers"]) by reflexivity.
  clearbody previous evs. clearbody s1.
  split; [exact Hstorable|].
  destruct (check_records_detected_changes Cases.grown s1 "alice" "alice"
              previous Samples.alice_150 evs
              Hfetch Hstorable Hname Hprev Hdetect Hfit)
    as (s2 & row & rows & Hrun & _ & _ & _ & Hevents & Hall & _).
  exists s2. split; [exact Hrun|].
  rewrite Hevents, Hold.
  assert (Hmetrics : e_metric <$> rows = metric <$> evs).
  { clear -Hall. induction Hall as [|r ev rows evs' ((_ & Hmetric & _) & _) _ IH];
      [done|]. cbn. by rewrite Hmetric, IH. }
  rewrite app_nil_l, Hmetrics. exact Hevs.
Defined.

(** ** The summary and the rows written *)

Lemma save_snapshot_failures (now : string) (profile : gmap string value) (d : DB) :
  failures (final (save_snapshot now profile d)) = failures d.
Proof.
  destruct (save_snapshot_cases now profile d)
    as [(e & _ & -> & _) | (u & mk & _ & _ & _ & -> & _)]; [done|].
  unfold insert_account_do_nothing. cbn.
  by destruct (find_account (str u) (watch_accounts d)).
Qed.

Lemma record_events_tables (now : string) (username : value)
    (evs : list Event) (d : DB) :
  snapshots (final (record_events now username evs d)) = snapshots d
  ∧ failures (final (record_events now username evs d)) = failures d.
Proof.
  destruct (record_events_cases now username evs d)
    as [(e & _ & -> & _) | (mks & _ & -> & _ & Hall)]; [done|].
  destruct (insert_events_effect _ mks evs d Hall)
    as (_ & _ & _ & _ & _ & _ & Hs & Hf & _). by split.
Qed.

(** What one check leaves behind: a snapshot when it returns [True], a
    failure under the handle it was called with when it returns [False]. *)
Lemma check_account_tally (env : Env) (username : string) (s : Service) :
  match check_account env username s with
  | (Ok true, s') =>
      (∃ row, snapshots (store (world s'))
              = snapshots (store (world s)) ++ [row])
      ∧ failures (store (world s')) = failures (store (world s))
  | (Ok false, s') =>
      snapshots (store (world s')) = snapshots (store (world s))
      ∧ ∃ row, failures (store (world s'))
               = failures (store (world s)) ++ [row]
               ∧ f_username row = username
  | (Raise _, _) => True
  end.
Proof.
  destruct (Scraper.fetch_tiktok_profile (remote env (calls (world s))) username)
    as [current|exc] eqn:Hfetch.
  - unfold check_account, mbind, m_mbind, m_bind, store_read, try_fetch,
      store_write, lift_result, subscript, mret, m_mret.
    rewrite Hfetch. unfold set_world, tick. cbn [world store journal calls].
    set (now := clock env (S (calls (world s)))).
    destruct (out (save_snapshot now current (store (world s)))) as [[]|e] eqn:Hout;
      [|done].
    destruct (save_snapshot_row now current (store (world s)) Hout)
      as (u & row & _ & Hsnap & _).
    pose proof (save_snapshot_failures now current (store (world s))) as Hfail.
    destruct (detect_profile_changes _ current) as [evs|e]; [|done].
    destruct (current !! "username") as [canonical|]; [|done].
    cbn [world store journal calls].
    set (later := clock env (S (S (calls (world s))))).
    destruct (record_events_tables later canonical evs
                (final (save_snapshot now current (store (world s)))))
      as [Hs Hf].
    destruct (out (record_events later canonical evs _)) as [[]|e]; [|done].
    cbn [world store]. rewrite Hs, Hf, Hsnap, Hfail. eauto.
  - rewrite (check_account_failure_branch env s username exc Hfetch).
    unfold store_write. cbn [snd world store set_world tick calls].
    destruct (record_failure_effect (clock env (S (calls (world s)))) username
                (Spec.failure_text exc) (store (world s)))
      as (_ & _ & Hf & Hs & _).
    split; [done|]. eexists. split; [exact Hf|done].
Qed.

Lemma check_loop_tally (env : Env) (accounts : list WatchRow) (c f : Z)
    (s : Service) :
  match check_loop env accounts c f s with
  | (Ok (c', f'), s') =>
      ∃ new_snapshots new_failures,
        snapshots (store (world s'))
        = snapshots (store (world s)) ++ new_snapshots
        ∧ failures (store (world s'))
          = failures (store (world s)) ++ new_failures
        ∧ (c' = c + Z.of_nat (length new_snapshots))%Z
        ∧ (f' = f + Z.of_nat (length new_failures))%Z
        ∧ sublist (f_username <$> new_failures) (w_username <$> accounts)
  | (Raise _, _) => True
  end.
Proof.
  revert c f s. induction accounts as [|a accounts IH]; intros c f s.
  - cbn. exists [], []. rewrite !app_nil_r. cbn [length Z.of_nat].
    split; [done|]. split; [done|]. split; [lia|]. split; [lia|]. constructor.
  - cbn [check_loop]. unfold mbind, m_mbind, m_bind.
    pose proof (check_account_tally env (w_username a) s) as Hone.
    destruct (check_account env (w_username a) s) as [[[|]|e] s1]; [..|done].
    + destruct Hone as [[row Hs1] Hf1].
      specialize (IH (c + 1)%Z f s1).
      destruct (check_loop env accounts (c + 1) f s1) as [[[c' f']|e] s'];
        [|done].
      destruct IH as (ns & nf & Hs & Hf & Hc & Hfc & Hsub).
      exists (row :: ns), nf. rewrite Hs, Hf, Hs1, Hf1, <- app_assoc.
      repeat split; try done; [cbn [length]; lia|].
      cbn [fmap list_fmap]. by apply sublist_cons.
    + destruct Hone as [Hs1 (row & Hf1 & Hname)].
      specialize (IH c (f + 1)%Z s1).
      destruct (check_loop env accounts c (f + 1) s1) as [[[c' f']|e] s'];
        [|done].
      destruct IH as (ns & nf & Hs & Hf & Hc & Hfc & Hsub).
      exists ns, (row :: nf). rewrite Hs, Hf, Hs1, Hf1, <- app_assoc.
      repeat split; try done; [cbn [length]; lia|].
      cbn [fmap list_fmap]. rewrite Hname. by apply sublist_skip.
Qed.

(** X28: the summary of a cycle tells what was written. When [run_once],
    finding the guard free, returns a summary, the snapshot table has grown
    by as many rows as the summary counts as checked and the failure table by
    as many as it counts as failed; the new failure rows are filed under
    handles that were active when the cycle began, in the order of the
    listing. *)
Theorem summary_counts_rows_written (env : Env) (s : Service) :
  run_lock s = false →
  match run_once env s with
  | (Ok m, s') =>
      ∃ new_snapshots new_failures,
        snapshots (store (world s'))
        = snapshots (store (world s)) ++ new_snapshots
        ∧ failures (store (world s'))
          = failures (store (world s)) ++ new_failures
        ∧ checked m = Z.of_nat (length new_snapshots)
        ∧ failed m = Z.of_nat (length new_failures)
        ∧ sublist (f_username <$> new_failures)
            (active_handles (store (world s)))
  | (Raise _, _) => True
  end.
Proof.
  intros Hfree. unfold run_once, utc_now_iso. rewrite Hfree.
  set (s3 := set_last_run_started_at _ _).
  unfold run_cycle, mbind, m_mbind, m_bind, store_read, modify, mret, m_mret.
  pose proof (check_loop_tally env
                (list_watch_accounts true (store (world s3))) 0 0 s3) as Htally.
  destruct (check_loop env (list_watch_accounts true (store (world s3))) 0 0 s3)
    as [[[c f]|e] s4]; [|done].
  destruct Htally as (ns & nf & Hs & Hf & Hc & Hfc & Hsub).
  exists ns, nf. cbn in *. by repeat split.
Qed.

Lemma summary_counts_rows_written_witness :
  run_lock (Samples.service false None) = false
  ∧ match run_once Samples.env (Samples.service false None) with
    | (Ok m, s') =>
        ∃ new_snapshots new_failures,
          snapshots (store (world s'))
          = snapshots (store (world (Samples.service false None)))
            ++ new_snapshots
          ∧ failures (store (world s'))
            = failures (store (world (Samples.service false None)))
              ++ new_failures
          ∧ checked m = Z.of_nat (length new_snapshots)
          ∧ failed m = Z.of_nat (length new_failures)
          ∧ sublist (f_username <$> new_failures)
              (active_handles (store (world (Samples.service false None))))
    | (Raise _, _) => True
    end.
Proof.
  split; [reflexivity|].
  exact (summary_counts_rows_written Samples.env (Samples.service false None)
           eq_refl).
Defined.
